(** * dpcontracts: a shallow embedding of the contract engine

    The development follows [src/dpcontracts.py]: the argument normalizer
    ([build_call], [tuple_of_dict]), the condition evaluator ([condition] and
    the closure [inner] it returns), the front ends [require], [ensure] and
    [types], the combinators [preserve] and [transform] with [rewrite], and
    the class decorator [invariant].  Left to the host are [arg_count] of a
    predicate (the number is a field of the predicate) and
    [get_function_source], which reads the source text of the program.

    Python objects are modelled as follows.
    - Values are a small universe [value]; mutable objects live in a [heap]
      and are referred to by [VRef].
    - A [dict] is an association list in insertion order without duplicate
      keys: iteration order and the field order of a namedtuple depend on it.
    - A function object is a node [Func]: its identity, [__name__], what
      [getfullargspec] reports, whether [isfunction] holds, the entry
      [__contract_wrapped_func__] of its [__dict__], and its code.  The code
      of a wrapper is the closure that the library created; it holds the
      function objects it closed over.
    - The one attribute that the library adds to an already existing function
      object, [__contract_preserver__], is kept in the [world], keyed by the
      identity of the function object; the list it refers to is an object of
      its own, because [functools.wraps] copies the reference.
    - Code that can raise returns an [outcome]; code that also reads or writes
      the world runs in the monad [M], which in addition emits the trace of
      the user code that ran.
    - Coroutine functions (the [async def inner] branch, the same sequence
      with one [await]) are outside the embedding: every function here is
      synchronous. *)

From Stdlib Require Import String Ascii List ZArith Bool Lia.
Import ListNotations.
Open Scope string_scope.

Set Warnings "-register-all".

(** ** Values, dictionaries, exceptions *)

Inductive value : Type :=
| VNone
| VBool (b : bool)
| VInt (z : Z)
| VStr (s : string)
| VTuple (items : list value)
| VDict (entries : list (string * value))
| VNamed (typename : string) (fields : list (string * value))
| VRef (addr : nat).

(** A Python [dict] with string keys. *)
Definition dict (V : Type) := list (string * V).

Fixpoint dict_get {V} (k : string) (d : dict V) : option V :=
  match d with
  | [] => None
  | (k', v) :: r => if String.eqb k k' then Some v else dict_get k r
  end.

(** [d[k] = v]: an existing key keeps its position, a new key goes last. *)
Fixpoint dict_set {V} (k : string) (v : V) (d : dict V) : dict V :=
  match d with
  | [] => [(k, v)]
  | (k', v') :: r =>
      if String.eqb k k' then (k, v) :: r else (k', v') :: dict_set k v r
  end.

(** [d.update(e)] *)
Definition dict_update {V} (d e : dict V) : dict V :=
  fold_left (fun acc kv => dict_set (fst kv) (snd kv) acc) e d.

(** [dict(pairs)] *)
Definition dict_of_pairs {V} (pairs : list (string * V)) : dict V :=
  dict_update [] pairs.

Definition dict_keys {V} (d : dict V) : list string := map fst d.

(** [k in l] *)
Definition in_names (k : string) (l : list string) : bool :=
  existsb (String.eqb k) l.

(** The objects of a program: a cell per mutable object. *)
Definition heap := list value.

(** The exceptions that occur.  Every class here derives from [Exception];
    [Error cls text] stands for any other such class, with the text that
    [str] gives for the instance. *)
Inductive exn : Type :=
| PreconditionError (description : string) (errno : value)
| PostconditionError (description : string) (errno : value)
| AssertionError (msg : string)
| TypeError (msg : string)
| ValueError (msg : string)
| IndexError (msg : string)
| AttributeError (msg : string)
| NotImplementedError
| Error (cls : string) (text : string).

Inductive outcome (A : Type) : Type :=
| Ret (a : A)
| Raise (e : exn).
Arguments Ret {A} a.
Arguments Raise {A} e.

Definition obind {A B} (o : outcome A) (k : A -> outcome B) : outcome B :=
  match o with
  | Ret a => k a
  | Raise e => Raise e
  end.

(** ** Parameter shapes and user code *)

(** What [getfullargspec] returns (annotations left out). *)
Record argspec : Type := {
  named : list string;
  vargs : option string;
  varkw : option string;
  defs : list value;
  kwonly : list string;
  kwonlydefs : dict value;
}.

(** A contract predicate: the number [arg_count] computes for it, and what
    calling it with the given positional arguments does: the truth value of
    what it returns, or the exception it raises, and the heap it leaves.  A
    predicate is any Python function: it can change the objects it is
    given. *)
Record predicate_fn : Type := {
  pred_arg_count : nat;
  pred_run : list value -> heap -> outcome bool * heap;
}.

(** A preserver returns a [dict]; a transformer returns a record.  Both are
    Python functions as well. *)
Definition preserver_fn := value -> heap -> outcome (dict value) * heap.
Definition transformer_fn := value -> heap -> outcome value * heap.

(** A clean-up action is called as [clean_up( *args, **kwargs)]. *)
Definition cleanup_fn :=
  list value -> dict value -> heap -> outcome unit * heap.

(** The body of a plain function, run on its local bindings. *)
Definition body_fn := dict value -> heap -> outcome value * heap.

(** The arguments of [condition]. *)
Record contract : Type := {
  description : string;
  predicate : predicate_fn;
  precondition : bool;
  postcondition : bool;
  instance : bool;
  errno : value;
  clean_up : option cleanup_fn;
}.

(** ** What the host language provides

    [str.isidentifier], [keyword.iskeyword] and [str] of an exception
    instance are not code of this repository, and [get_function_source]
    reads the source text of the program through [inspect.getsource] and
    [ast.parse]: the engine is parametric in what they return. *)

Class Host : Type := {
  isidentifier : string -> bool;
  iskeyword : string -> bool;
  exn_str : exn -> string;
  get_function_source : predicate_fn -> string;
}.

(** ** Function objects *)

Inductive func : Type :=
| Func (id : nat) (name : string) (spec : argspec) (isfunction : bool)
       (contract_wrapped_func : option func) (code : code)
with code : Type :=
| Def (body : body_fn)
| CondInner (c : contract) (f : func) (wrapped : func)
| PreserveInner (f : func)
| TransformInner (transformer : transformer_fn) (f : func).

Definition func_id (g : func) : nat :=
  match g with Func id _ _ _ _ _ => id end.
Definition func_name (g : func) : string :=
  match g with Func _ name _ _ _ _ => name end.
Definition getfullargspec (g : func) : argspec :=
  match g with Func _ _ spec _ _ _ => spec end.
Definition isfunction (g : func) : bool :=
  match g with Func _ _ _ b _ _ => b end.
Definition contract_wrapped_func (g : func) : option func :=
  match g with Func _ _ _ _ w _ => w end.
Definition func_code (g : func) : code :=
  match g with Func _ _ _ _ _ c => c end.

(** [while hasattr(func, '__contract_wrapped_func__'): func = ...] *)
Fixpoint get_wrapped_func (g : func) : func :=
  match g with
  | Func _ _ _ _ (Some w) _ => get_wrapped_func w
  | Func _ _ _ _ None _ => g
  end.

(** The signature of every wrapper: [def inner( *args, **kwargs)]. *)
Definition inner_spec : argspec :=
  {| named := []; vargs := Some "args"; varkw := Some "kwargs";
     defs := []; kwonly := []; kwonlydefs := [] |}.

(** ** The argument normalizer *)

Section Normalizer.
Context {host : Host}.

Definition startswith (p s : string) : bool := String.prefix p s.

(** [namedtuple(name, dictionary.keys())( **dictionary)].  The first loop of
    [namedtuple] goes over the type name and the field names: each must be an
    identifier and no keyword.  The second goes over the field names: none
    may start with an underscore (a repeated name cannot come from the keys
    of a [dict]). *)
Fixpoint namedtuple_names (names : list string) : outcome unit :=
  match names with
  | [] => Ret tt
  | n :: r =>
      if negb (isidentifier n) then
        Raise (ValueError
          ("Type names and field names must be valid identifiers: '"
             ++ n ++ "'"))
      else if iskeyword n then
        Raise (ValueError
          ("Type names and field names cannot be a keyword: '" ++ n ++ "'"))
      else namedtuple_names r
  end.

Fixpoint namedtuple_fields (names : list string) : outcome unit :=
  match names with
  | [] => Ret tt
  | n :: r =>
      if startswith "_" n then
        Raise (ValueError
          ("Field names cannot start with an underscore: '" ++ n ++ "'"))
      else namedtuple_fields r
  end.

Definition tuple_of_dict_named (d : dict value) (name : string)
  : outcome value :=
  obind (namedtuple_names (name :: dict_keys d)) (fun _ =>
  obind (namedtuple_fields (dict_keys d)) (fun _ =>
  Ret (VNamed name d))).

Definition tuple_of_dict (d : dict value) : outcome value :=
  tuple_of_dict_named d "Args".

(** The entries of [actual] hold [None] for the [nonce]. *)
Definition some_values (d : dict value) : dict (option value) :=
  map (fun kv => (fst kv, Some (snd kv))) d.

Definition zip {A B} (l : list A) (m : list B) : list (A * B) := combine l m.

Definition build_call_actual (spec : argspec) (args : list value)
    (kwargs : dict value) : dict (option value) :=
  let actual := dict_of_pairs (map (fun name => (name, None)) (named spec)) in
  let actual := dict_update actual (some_values (kwonlydefs spec)) in
  let actual := dict_update actual
      (some_values (dict_of_pairs (zip (rev (named spec)) (rev (defs spec))))) in
  let actual := dict_update actual
      (some_values (dict_of_pairs (zip (named spec) args))) in
  let actual :=
    match vargs spec with
    | Some va => dict_set va (Some (VTuple (skipn (length (named spec)) args)))
                   actual
    | None => actual
    end in
  dict_update actual (some_values kwargs).

(** The loop over [actual.items()]: the first entry that still holds the
    nonce raises; otherwise the values are collected. *)
Fixpoint check_nonce (fname : string) (actual : dict (option value))
  : outcome (dict value) :=
  match actual with
  | [] => Ret []
  | (name, None) :: _ =>
      Raise (TypeError
        (fname ++ " missing required positional argument: '" ++ name ++ "'"))
  | (name, Some v) :: r =>
      obind (check_nonce fname r) (fun d => Ret ((name, v) :: d))
  end.

(** [build_call(func, *args, **kwargs)], as the wrappers call it:
    [build_call(f, *args, **kwargs)].  Its first parameter is called [func]:
    a named argument of that name in [kwargs] is a second value for it, which
    the interpreter refuses before the body runs. *)
Definition build_call (func : func) (args : list value) (kwargs : dict value)
  : outcome value :=
  if in_names "func" (dict_keys kwargs) then
    Raise (TypeError "build_call() got multiple values for argument 'func'")
  else
    let func := get_wrapped_func func in
    let actual := build_call_actual (getfullargspec func) args kwargs in
    obind (check_nonce (func_name func) actual) tuple_of_dict.

End Normalizer.

(** ** The world and its monad *)

(** What a call lets an observer see: which user code ran, in order, and on
    what.  A predicate is evaluated [Pre] (before the call of the wrapped
    function) or [Post] (after it returned). *)
Inductive phase : Type := Pre | Post.

Inductive event : Type :=
| EvBody (fid : nat) (locals : dict value)
| EvPredicate (when : phase) (description : string) (pargs : list value)
| EvPreserver (rargs : value) (returned : outcome (dict value))
| EvTransformer (rargs : value)
| EvCleanUp (args : list value) (kwargs : dict value).

Definition trace := list event.

Record world : Type := {
  w_heap : heap;
  w_next : nat;
  w_preserver_attr : list (nat * nat);
  w_preserver_lists : list (list preserver_fn);
}.

Definition M (A : Type) : Type := world -> outcome A * world * trace.

Definition ret {A} (a : A) : M A := fun w => (Ret a, w, []).
Definition raise {A} (e : exn) : M A := fun w => (Raise e, w, []).
Definition bind {A B} (m : M A) (k : A -> M B) : M B :=
  fun w => match m w with
           | (Ret a, w', t) =>
               match k a w' with
               | (o, w'', t') => (o, w'', (t ++ t')%list)
               end
           | (Raise e, w', t) => (Raise e, w', t)
           end.
Definition lift {A} (o : outcome A) : M A := fun w => (o, w, []).

Declare Scope M_scope.
Delimit Scope M_scope with M.
Bind Scope M_scope with M.
Notation "x <- c ;; k" := (bind c (fun x => k))
  (at level 61, c at next level, right associativity) : M_scope.
Notation "c ;; k" := (bind c (fun _ => k))
  (at level 61, right associativity) : M_scope.
Open Scope M_scope.

Definition set_heap (h : heap) (w : world) : world :=
  {| w_heap := h; w_next := w_next w;
     w_preserver_attr := w_preserver_attr w;
     w_preserver_lists := w_preserver_lists w |}.

Definition emit (e : event) : M unit := fun w => (Ret tt, w, [e]).

(** Run code of the program: it may change the heap. *)
Definition exec {A} (f : heap -> outcome A * heap) : M A :=
  fun w => match f (w_heap w) with (o, h) => (o, set_heap h w, []) end.

(** [try: m  except Exception as e: handler(e)] *)
Definition try_except {A} (m : M A) (handler : exn -> M A) : M A :=
  fun w => match m w with
           | (Ret a, w', t) => (Ret a, w', t)
           | (Raise e, w', t) =>
               match handler e w' with
               | (o, w'', t') => (o, w'', (t ++ t')%list)
               end
           end.

Fixpoint nat_assoc {V} (k : nat) (l : list (nat * V)) : option V :=
  match l with
  | [] => None
  | (k', v) :: r => if Nat.eqb k k' then Some v else nat_assoc k r
  end.

(** The list that [g.__contract_preserver__] refers to, if [g] has the
    attribute. *)
Definition contract_preserver (g : func) (w : world)
  : option (list preserver_fn) :=
  match nat_assoc (func_id g) (w_preserver_attr w) with
  | Some l => Some (nth l (w_preserver_lists w) [])
  | None => None
  end.

(** [getattr(g, "__contract_preserver__", default)] *)
Definition getattr_contract_preserver (g : func)
    (default : list preserver_fn) : M (list preserver_fn) :=
  fun w => match contract_preserver g w with
           | Some ps => (Ret ps, w, [])
           | None => (Ret default, w, [])
           end.

(** ** How the interpreter binds the arguments of a plain function

    Positional arguments fill the declared names in order, the overflow goes
    to the catch-all; a named argument goes to the parameter of that name, or
    to the catch-all for named arguments, or is an error; then the defaults.
    Every failure is a [TypeError]; the texts are abbreviated. *)

Fixpoint bind_keywords (fname : string) (spec : argspec)
    (kwargs : dict value) (locals : dict (option value)) (kw : dict value)
  : outcome (dict (option value) * dict value) :=
  match kwargs with
  | [] => Ret (locals, kw)
  | (k, v) :: r =>
      if in_names k (named spec ++ kwonly spec)%list then
        match dict_get k locals with
        | Some (Some _) =>
            Raise (TypeError
              (fname ++ "() got multiple values for argument '" ++ k ++ "'"))
        | _ => bind_keywords fname spec r (dict_set k (Some v) locals) kw
        end
      else
        match varkw spec with
        | Some _ => bind_keywords fname spec r locals (dict_set k v kw)
        | None =>
            Raise (TypeError
              (fname ++ "() got an unexpected keyword argument '" ++ k ++ "'"))
        end
  end.

Fixpoint bind_defaults (fname : string) (kind : string)
    (defaults : dict value) (locals : dict (option value))
  : outcome (dict value) :=
  match locals with
  | [] => Ret []
  | (n, Some v) :: r =>
      obind (bind_defaults fname kind defaults r) (fun d => Ret ((n, v) :: d))
  | (n, None) :: r =>
      match dict_get n defaults with
      | Some v =>
          obind (bind_defaults fname kind defaults r)
                (fun d => Ret ((n, v) :: d))
      | None =>
          Raise (TypeError
            (fname ++ "() missing required " ++ kind ++ " argument: '"
               ++ n ++ "'"))
      end
  end.

Definition bind_arguments (fname : string) (spec : argspec)
    (args : list value) (kwargs : dict value) : outcome (dict value) :=
  let n := length (named spec) in
  let locals :=
    dict_update
      (dict_of_pairs
         (map (fun x => (x, None)) (named spec ++ kwonly spec)%list))
      (map (fun kv => (fst kv, Some (snd kv))) (combine (named spec) args)) in
  obind (bind_keywords fname spec kwargs locals []) (fun lk =>
  let (locals, kw) := lk in
  if Nat.ltb n (length args)
     && match vargs spec with None => true | _ => false end
  then Raise (TypeError (fname ++ "() takes fewer positional arguments"))
  else
  let pos := firstn n locals in
  let kwo := skipn n locals in
  obind (bind_defaults fname "positional"
           (dict_of_pairs (combine (rev (named spec)) (rev (defs spec)))) pos)
        (fun pos =>
  obind (bind_defaults fname "keyword-only" (kwonlydefs spec) kwo)
        (fun kwo =>
  Ret (pos
       ++ match vargs spec with
          | Some va => [(va, VTuple (skipn n args))]
          | None => []
          end
       ++ kwo
       ++ match varkw spec with
          | Some vk => [(vk, VDict kw)]
          | None => []
          end)%list))).

(** ** The condition evaluator *)

Section Evaluator.
Context {host : Host}.

Definition call_predicate (when : phase) (c : contract) (pargs : list value)
  : M bool :=
  emit (EvPredicate when (description c) pargs) ;;
  exec (pred_run (predicate c) pargs).

(** The event of a preserver records what it returned. *)
Definition call_preserver (preserver : preserver_fn) (rargs : value)
  : M (dict value) :=
  fun w => match preserver rargs (w_heap w) with
           | (o, h) => (o, set_heap h w, [EvPreserver rargs o])
           end.

(** [for preserver in ...: preserved_values.update(preserver(rargs))] *)
Fixpoint run_preservers (ps : list preserver_fn) (rargs : value)
    (preserved_values : dict value) : M (dict value) :=
  match ps with
  | [] => ret preserved_values
  | preserver :: r =>
      d <- call_preserver preserver rargs ;;
      run_preservers r rargs (dict_update preserved_values d)
  end.

(** The failure branch of a postcondition: the clean-up action, if there is
    one, then the error. *)
Definition postcondition_failed (c : contract) (args : list value)
    (kwargs : dict value) : M unit :=
  match clean_up c with
  | Some cu =>
      try_except
        (emit (EvCleanUp args kwargs) ;; exec (cu args kwargs))
        (fun e => raise (PostconditionError
           (description c ++ ". Clean up failed: " ++ exn_str e) (errno c)))
  | None => ret tt
  end ;;
  raise (PostconditionError (description c) (errno c)).

(** The closure [inner] that [condition(...)(f)] returns, in two blocks:
    what it does before it calls [f] ... *)
Definition inner_before (c : contract) (f wrapped : func)
    (args : list value) (kwargs : dict value) : M (value * dict value) :=
  rargs <- (if negb (instance c) then lift (build_call f args kwargs)
            else match args with
                 | a :: _ => ret a
                 | [] => raise (IndexError "tuple index out of range")
                 end) ;;
  (if precondition c then
     ok <- call_predicate Pre c [rargs] ;;
     if negb ok then raise (PreconditionError (description c) (errno c))
     else ret tt
   else ret tt) ;;
  ps <- getattr_contract_preserver wrapped [fun _ h => (Ret [], h)] ;;
  preserved_values <- run_preservers ps rargs [] ;;
  ret (rargs, preserved_values).

(** ... and what it does with the result. *)
Definition inner_after (c : contract) (rargs : value)
    (preserved_values : dict value) (result : value)
    (args : list value) (kwargs : dict value) : M value :=
  (if instance c then
     ok <- call_predicate Post c [rargs] ;;
     if negb ok then postcondition_failed c args kwargs else ret tt
   else if postcondition c then
     check <- (if Nat.eqb (pred_arg_count (predicate c)) 3 then
                 old <- lift (tuple_of_dict preserved_values) ;;
                 call_predicate Post c [rargs; result; old]
               else call_predicate Post c [rargs; result]) ;;
     if negb check then postcondition_failed c args kwargs else ret tt
   else ret tt) ;;
  ret result.

(** [call_f] is how [f] is called. *)
Definition condition_inner (call_f : list value -> dict value -> M value)
    (c : contract) (f wrapped : func)
    (args : list value) (kwargs : dict value) : M value :=
  rp <- inner_before c f wrapped args kwargs ;;
  result <- call_f args kwargs ;;
  inner_after c (fst rp) (snd rp) result args kwargs.

(** [rargs._asdict()] *)
Definition asdict (rargs : value) : outcome (dict value) :=
  match rargs with
  | VNamed _ fields => Ret fields
  | _ => Raise (AttributeError "object has no attribute '_asdict'")
  end.

(** The closure [inner] of [transform]. *)
Definition transform_inner (call_f : list value -> dict value -> M value)
    (transformer : transformer_fn) (f : func)
    (args : list value) (kwargs : dict value) : M value :=
  r <- lift (build_call f args kwargs) ;;
  emit (EvTransformer r) ;;
  rargs <- exec (transformer r) ;;
  d <- lift (asdict rargs) ;;
  call_f [] d.

(** Calling a function object. *)
Fixpoint call (g : func) (args : list value) (kwargs : dict value) {struct g}
  : M value :=
  match g with
  | Func id name spec _ _ code =>
      match code with
      | Def body =>
          locals <- lift (bind_arguments name spec args kwargs) ;;
          emit (EvBody id locals) ;;
          exec (body locals)
      | CondInner c f wrapped => condition_inner (call f) c f wrapped args kwargs
      | PreserveInner f => call f args kwargs
      | TransformInner t f => transform_inner (call f) t f args kwargs
      end
  end.

End Evaluator.

(** ** The combinators *)

Section Combinators.
Context {host : Host}.

Definition fresh_id : M nat :=
  fun w => (Ret (w_next w),
            {| w_heap := w_heap w; w_next := S (w_next w);
               w_preserver_attr := w_preserver_attr w;
               w_preserver_lists := w_preserver_lists w |}, []).

(** [def name(...): body]: a new plain function object. *)
Definition def (name : string) (spec : argspec) (body : body_fn) : M func :=
  id <- fresh_id ;;
  ret (Func id name spec true None (Def body)).

(** [functools.wraps(f)] updates the [__dict__] of the new wrapper with that
    of [f]: the wrapper [id] gets the reference to the preserver list that
    [f] has at this moment, if any. *)
Definition wraps_dict (f : func) (id : nat) : M unit :=
  fun w => match nat_assoc (func_id f) (w_preserver_attr w) with
           | Some l =>
               (Ret tt,
                {| w_heap := w_heap w; w_next := w_next w;
                   w_preserver_attr := (id, l) :: w_preserver_attr w;
                   w_preserver_lists := w_preserver_lists w |}, [])
           | None => (Ret tt, w, [])
           end.

(** The assertions at the head of [condition]; the description is a string
    and the predicate a synchronous function by their types. *)
Definition condition_asserts (c : contract) : outcome unit :=
  if Nat.eqb (String.length (description c)) 0 then
    Raise (AssertionError "contracts must have nonempty descriptions")
  else if negb (precondition c || postcondition c) then
    Raise (AssertionError
      "contracts must be at least one of pre- or post-conditional")
  else if instance c || precondition c then
    if Nat.eqb (pred_arg_count (predicate c)) 1 then Ret tt
    else Raise (AssertionError "invariant predicates must take one argument")
  else if postcondition c then
    if Nat.eqb (pred_arg_count (predicate c)) 2
       || Nat.eqb (pred_arg_count (predicate c)) 3 then Ret tt
    else Raise (AssertionError
      "postcondition predicates must take two or three arguments")
  else Ret tt.

(** The decorator [require] that [condition] returns, applied to [f]. *)
Definition condition_require (c : contract) (f : func) : M func :=
  let wrapped := get_wrapped_func f in
  if isfunction f then
    id <- fresh_id ;;
    wraps_dict f id ;;
    ret (Func id (func_name f) inner_spec true (Some wrapped)
              (CondInner c f wrapped))
  else raise NotImplementedError.

(** [condition(description, predicate, ...)(f)] *)
Definition condition (c : contract) (f : func) : M func :=
  lift (condition_asserts c) ;;
  condition_require c f.

(** An argument of the front end [require]: absent, a string, an integer,
    or a function. *)
Inductive pyarg : Type :=
| ANone
| AStr (s : string)
| AInt (z : Z)
| AFun (p : predicate_fn).

(** [a or b] on the values that an [errno] can be. *)
Definition py_or (a b : value) : value :=
  match a with
  | VNone | VBool false | VInt 0 | VStr EmptyString | VTuple [] | VDict []
  | VNamed _ [] => b
  | _ => a
  end.

(** [require(arg1, arg2=None, arg3=None)]: the contract it hands to
    [condition].  The four shapes of the assertion; [errno = 0] and then
    [errno = errno or arg3] (or [arg2] when the description is generated). *)
Definition require_contract (arg1 arg2 arg3 : pyarg) : outcome contract :=
  let errno := VInt 0 in
  let mk description predicate errno :=
    {| description := description; predicate := predicate;
       precondition := true; postcondition := false;
       instance := false; errno := errno; clean_up := None |} in
  match arg1, arg2, arg3 with
  | AStr description, AFun predicate, ANone =>
      Ret (mk description predicate (py_or errno VNone))
  | AStr description, AFun predicate, AInt z =>
      Ret (mk description predicate (py_or errno (VInt z)))
  | AFun predicate, ANone, ANone =>
      Ret (mk (get_function_source predicate) predicate (py_or errno VNone))
  | AFun predicate, AInt z, ANone =>
      Ret (mk (get_function_source predicate) predicate
              (py_or errno (VInt z)))
  | _, _, _ => Raise (AssertionError EmptyString)
  end.

Definition require (arg1 arg2 arg3 : pyarg) (f : func) : M func :=
  c <- lift (require_contract arg1 arg2 arg3) ;;
  condition c f.

(** [wrapped.__contract_preserver__.append(preserver)], after the attribute
    was set to a new empty list if it was missing. *)
Definition append_preserver (wrapped : func) (preserver : preserver_fn)
  : M unit :=
  fun w =>
    match nat_assoc (func_id wrapped) (w_preserver_attr w) with
    | Some l =>
        (Ret tt,
         {| w_heap := w_heap w; w_next := w_next w;
            w_preserver_attr := w_preserver_attr w;
            w_preserver_lists :=
              (firstn l (w_preserver_lists w)
               ++ [nth l (w_preserver_lists w) [] ++ [preserver]]
               ++ skipn (S l) (w_preserver_lists w))%list |}, [])
    | None =>
        (Ret tt,
         {| w_heap := w_heap w; w_next := w_next w;
            w_preserver_attr :=
              (func_id wrapped, length (w_preserver_lists w))
              :: w_preserver_attr w;
            w_preserver_lists :=
              (w_preserver_lists w ++ [[preserver]])%list |}, [])
    end.

(** [preserve(preserver)(f)]; a preserver is a function of one argument by
    its type. *)
Definition preserve (preserver : preserver_fn) (f : func) : M func :=
  let wrapped := get_wrapped_func f in
  id <- fresh_id ;;
  wraps_dict f id ;;
  append_preserver wrapped preserver ;;
  ret (Func id (func_name f) inner_spec true (contract_wrapped_func f)
            (PreserveInner f)).

(** [transform(transformer)(f)]; a transformer is a function of one
    argument by its type. *)
Definition transform (transformer : transformer_fn) (f : func) : M func :=
  id <- fresh_id ;;
  wraps_dict f id ;;
  ret (Func id (func_name f) inner_spec true (contract_wrapped_func f)
            (TransformInner transformer f)).

(** *** Class invariants *)

(** What [getattr(c, name)] gives for a name of [dir(c)]: some object that is
    no callable of interest, or a callable together with [ismethod] of it and
    whether its [__self__] is the class [c] itself (as for a classmethod
    looked up on [c]). *)
Inductive member : Type :=
| Data (v : value)
| Callable (f : func) (ismethod : bool) (self_is_c : bool).

(** A class, as [dir] and [getattr] show it. *)
Definition class := dict member.

Definition endswith (suffix s : string) : bool :=
  startswith (string_of_list_ascii (rev (list_ascii_of_string suffix)))
             (string_of_list_ascii (rev (list_ascii_of_string s))).

Definition exceptions : list string :=
  ["__getitem__"; "__setitem__"; "__lt__"; "__le__"; "__eq__";
   "__ne__"; "__gt__"; "__ge__"; "__init__"].

(** The local function [check(name, func)] of [invariant]. *)
Definition check (name : string) (func : member) : bool :=
  if startswith "__" name && endswith "__" name
     && negb (in_names name exceptions) then false
  else
    match func with
    | Data _ => false
    | Callable f ismethod self_is_c =>
        if negb ismethod && negb (isfunction f) then false
        else if self_is_c then false
        else true
    end.

(** The contract that [invariant] attaches to the member [name]:
    [condition(desc, predicate, name != "__init__", True, True)]. *)
Definition invariant_contract (desc : string) (predicate : predicate_fn)
    (name : string) : contract :=
  {| description := desc; predicate := predicate;
     precondition := negb (String.eqb name "__init__");
     postcondition := true; instance := true;
     errno := VInt 0; clean_up := None |}.

(** The loop of [invariant] over the members: an eligible member is
    replaced in the derived class, the others are inherited. *)
Fixpoint invariant_members (desc : string) (predicate : predicate_fn)
    (members : class) : M class :=
  match members with
  | [] => ret []
  | (name, value) :: r =>
      value' <- (if check name value then
                   match value with
                   | Callable f _ _ =>
                       g <- condition
                              (invariant_contract desc predicate name) f ;;
                       ret (Callable g false false)
                   | Data _ => ret value
                   end
                 else ret value) ;;
      r' <- invariant_members desc predicate r ;;
      ret ((name, value') :: r')
  end.

(** [invariant(arg1, arg2)(c)], with the description and the predicate that
    the front end resolved: [arg1] and [arg2], or the source text of the
    predicate and [arg1]. *)
Definition invariant (desc : string) (predicate : predicate_fn) (c : class)
  : M class :=
  invariant_members desc predicate c.

End Combinators.

(** ** The rest of the interface *)

(** [self._make(map(kwds.pop, field_names, self))]: every field takes the
    value given for its name, or keeps its own. *)
Definition replace_fields (fields kwds : dict value) : dict value :=
  map (fun kv => (fst kv,
                  match dict_get (fst kv) kwds with
                  | Some x => x
                  | None => snd kv
                  end)) fields.

(** What is left of [kwds] after the fields popped theirs. *)
Definition left_over (fields kwds : dict value) : list string :=
  dict_keys
    (filter (fun kv => negb (in_names (fst kv) (dict_keys fields))) kwds).

Section Rewrite.

(** The exception of [_replace] for names that are no fields, given the
    names: the library's [ValueError("Got unexpected field names: [...]")],
    a [TypeError] in later versions of it. *)
Variable unexpected_field_names : list string -> exn.

(** [rewrite(args, **kwargs)], that is [args._replace( **kwargs)].  A named
    argument called [args] collides with the parameter of [rewrite] itself;
    names that are left over after the fields took theirs are an error. *)
Definition rewrite (args : value) (kwargs : dict value) : outcome value :=
  if in_names "args" (dict_keys kwargs) then
    Raise (TypeError "rewrite() got multiple values for argument 'args'")
  else
    match args with
    | VNamed typename fields =>
        match left_over fields kwargs with
        | [] => Ret (VNamed typename (replace_fields fields kwargs))
        | unexpected => Raise (unexpected_field_names unexpected)
        end
    | _ => Raise (AttributeError "object has no attribute '_replace'")
    end.

End Rewrite.

Section Interface.
Context {host : Host}.

(** A function object given to [ensure]: it can be called as a predicate
    or as a clean-up action, and [VRef fn_ref] is the object as a value. *)
Record pyfunction : Type := {
  fn_ref : nat;
  fn_predicate : predicate_fn;
  fn_clean_up : cleanup_fn;
}.

(** An argument of the front end [ensure]: absent, a string, an integer
    (a [bool] is one), or a function. *)
Inductive ensure_arg : Type :=
| ENone
| EStr (s : string)
| EInt (z : Z)
| EBool (b : bool)
| EFun (fn : pyfunction).

Definition is_none (a : ensure_arg) : bool :=
  match a with ENone => true | _ => false end.
Definition is_str (a : ensure_arg) : bool :=
  match a with EStr _ => true | _ => false end.
Definition is_int (a : ensure_arg) : bool :=
  match a with EInt _ | EBool _ => true | _ => false end.
Definition is_function (a : ensure_arg) : bool :=
  match a with EFun _ => true | _ => false end.

Definition value_of_arg (a : ensure_arg) : value :=
  match a with
  | ENone => VNone
  | EStr s => VStr s
  | EInt z => VInt z
  | EBool b => VBool b
  | EFun fn => VRef (fn_ref fn)
  end.

(** The assertion at the head of [ensure]. *)
Definition ensure_shapes (arg1 arg2 arg3 arg4 : ensure_arg) : bool :=
  (is_str arg1 && is_function arg2 && is_none arg3 && is_none arg4)
  || (is_function arg1 && is_none arg2 && is_none arg3 && is_none arg4)
  || (is_function arg1 && is_int arg2 && is_none arg3 && is_none arg4)
  || (is_str arg1 && is_function arg2 && is_int arg3 && is_none arg4)
  || (is_str arg1 && is_function arg2 && is_function arg3 && is_none arg4)
  || (is_function arg1 && is_function arg2 && is_none arg3 && is_none arg4)
  || (is_function arg1 && is_int arg2 && is_function arg3 && is_none arg4)
  || (is_str arg1 && is_function arg2 && is_int arg3 && is_function arg4).

(** [arg or clean_up] with [clean_up = None] before; the argument is absent
    or a function where the assertion let it through. *)
Definition clean_up_or_none (a : ensure_arg) : option cleanup_fn :=
  match a with
  | EFun fn => Some (fn_clean_up fn)
  | _ => None
  end.

(** [ensure(arg1, arg2=None, arg3=None, arg4=None)]: the contract it hands
    to [condition].  After the assertion, [errno = arg3 or errno] and
    [clean_up = arg4 or clean_up] when [arg1] is the description,
    [errno = arg2 or errno] and [clean_up = arg3 or clean_up] when it is the
    predicate. *)
Definition ensure_contract (arg1 arg2 arg3 arg4 : ensure_arg)
  : outcome contract :=
  let errno := VInt 0 in
  let mk description predicate errno clean_up :=
    {| description := description; predicate := predicate;
       precondition := false; postcondition := true;
       instance := false; errno := errno; clean_up := clean_up |} in
  if negb (ensure_shapes arg1 arg2 arg3 arg4) then
    Raise (AssertionError EmptyString)
  else
    match arg1, arg2 with
    | EStr description, EFun predicate =>
        Ret (mk description (fn_predicate predicate)
                (py_or (value_of_arg arg3) errno) (clean_up_or_none arg4))
    | EFun predicate, _ =>
        Ret (mk (get_function_source (fn_predicate predicate))
                (fn_predicate predicate)
                (py_or (value_of_arg arg2) errno) (clean_up_or_none arg3))
    | _, _ => Raise (AssertionError EmptyString)
    end.

Definition ensure (arg1 arg2 arg3 arg4 : ensure_arg) (f : func) : M func :=
  c <- lift (ensure_contract arg1 arg2 arg3 arg4) ;;
  condition c f.

(** *** [types]

    [isinstance] is the host's; [other_attribute v name] is the attribute
    [name] that the class of [v] gives to [v], as the test of the classes it
    is an instance of (for a record it is consulted after the fields: every
    record has [count], [index], [_asdict] and the like). *)
Variable kind : Type.
Variable isinstance : value -> kind -> heap -> bool.
Variable other_attribute : value -> string -> option (kind -> bool).

(** [getattr(args, name)], as the test of the classes the attribute is an
    instance of; [None] when [hasattr(args, name)] is false. *)
Definition getattr_isinstance (args : value) (name : string) (h : heap)
  : option (kind -> bool) :=
  match args with
  | VNamed _ fields =>
      match dict_get name fields with
      | Some v => Some (fun k => isinstance v k h)
      | None => other_attribute args name
      end
  | _ => other_attribute args name
  end.

Fixpoint insert_sorted {A} (x : string * A) (l : list (string * A))
  : list (string * A) :=
  match l with
  | [] => [x]
  | y :: r =>
      if String.leb (fst x) (fst y) then x :: l else y :: insert_sorted x r
  end.

(** [sorted(requirements.items())]: the names of a [dict] are distinct, so
    the order is that of the names. *)
Definition sorted_items {A} (d : dict A) : list (string * A) :=
  fold_right insert_sorted [] d.

(** The loop of the predicate of [types]; a requirement holds the classes
    of its tuple, a single class being the tuple of one. *)
Fixpoint types_loop (items : list (string * list kind)) (args : value)
    (h : heap) : outcome bool :=
  match items with
  | [] => Ret true
  | (name, kinds) :: r =>
      match getattr_isinstance args name h with
      | None =>
          Raise (AssertionError
                   ("missing required argument `" ++ name ++ "`"))
      | Some is_instance =>
          if existsb is_instance kinds then types_loop r args h
          else Ret false
      end
  end.

Definition types_predicate (requirements : dict (list kind)) : predicate_fn :=
  {| pred_arg_count := 1;
     pred_run := fun pargs h =>
       (match pargs with
        | [args] => types_loop (sorted_items requirements) args h
        | _ => Raise (TypeError "predicate() takes 1 positional argument")
        end, h) |}.

(** [types( **requirements)(f)] *)
Definition types (requirements : dict (list kind)) (f : func) : M func :=
  condition
    {| description := "the types of arguments must be valid";
       predicate := types_predicate requirements;
       precondition := true; postcondition := false; instance := false;
       errno := VInt 0; clean_up := None |} f.

End Interface.

(** ** Vocabulary of the statements *)

Section Vocabulary.
Context {host : Host}.

(** The record that a layer hands to its predicate. *)
Definition layer_rargs (c : contract) (f : func) (args : list value)
    (kwargs : dict value) (rargs : value) : Prop :=
  if instance c then hd_error args = Some rargs
  else build_call f args kwargs = Ret rargs.

(** Contracts stacked on [f]: the head of the list is the outermost layer,
    the decorator written first. *)
Fixpoint stack (cs : list contract) (f : func) : M func :=
  match cs with
  | [] => ret f
  | c :: r => g <- stack r f ;; condition c g
  end.

(** The preservers that a layer iterates over. *)
Definition preservers_of (wrapped : func) (w : world) : list preserver_fn :=
  match contract_preserver wrapped w with
  | Some ps => ps
  | None => [fun _ h => (Ret [], h)]
  end.

(** The code that the layers [cs] of a stack on [f] run, from the
    outermost, before [f] is called. *)
Fixpoint layers_before (cs : list contract) (f : func) (args : list value)
    (kwargs : dict value) : M unit :=
  match cs with
  | [] => ret tt
  | c :: r =>
      inner_before c f (get_wrapped_func f) args kwargs ;;
      layers_before r f args kwargs
  end.

(** The events of the time before the function is called: predicates of
    preconditions and preservers. *)
Definition before_event (e : event) : Prop :=
  match e with
  | EvPredicate Pre _ _ | EvPreserver _ _ => True
  | _ => False
  end.

(** The arguments that a layer gives to its predicate after the call: the
    receiver for an invariant, otherwise the record and the result, and the
    snapshot as a record when the predicate takes three arguments. *)
Definition post_pargs (c : contract) (rargs : value)
    (preserved_values : dict value) (result : value) : outcome (list value) :=
  if instance c then Ret [rargs]
  else if Nat.eqb (pred_arg_count (predicate c)) 3 then
    obind (tuple_of_dict preserved_values)
          (fun old => Ret [rargs; result; old])
  else Ret [rargs; result].

(** What a layer lets see after the call when its check holds. *)
Definition holding_trace (c : contract) (rargs : value)
    (preserved_values : dict value) (result : value) : trace :=
  if instance c || postcondition c then
    match post_pargs c rargs preserved_values result with
    | Ret pargs => [EvPredicate Post (description c) pargs]
    | Raise _ => []
    end
  else [].

(** The check of a layer after the call holds on the result, in the heap
    [h], and leaves that heap as it is. *)
Definition check_holds (c : contract) (rargs : value)
    (preserved_values : dict value) (result : value) (h : heap) : Prop :=
  instance c = true \/ postcondition c = true ->
  exists pargs,
    post_pargs c rargs preserved_values result = Ret pargs /\
    pred_run (predicate c) pargs h = (Ret true, h).

(** The precondition of a layer, when the layer has one, returns true on
    the record and leaves the heap [h]; a layer that has none leaves the
    heap as it is. *)
Definition precondition_passes (c : contract) (rargs : value) (w : world)
    (h : heap) : Prop :=
  if precondition c
  then pred_run (predicate c) [rargs] (w_heap w) = (Ret true, h)
  else h = w_heap w.

(** What the precondition of a layer lets see. *)
Definition precondition_trace (c : contract) (rargs : value) : trace :=
  if precondition c then [EvPredicate Pre (description c) [rargs]] else [].

(** The layers [cs] of a stack on [f], from the outermost, let the call
    through: each one gets its record, its precondition (if it has one)
    returns true, and the preservers registered on [f] return, each in the
    world that the code before it left.  [w'] is the world they leave and
    [t] what they let see. *)
Fixpoint layers_pass (cs : list contract) (f : func) (args : list value)
    (kwargs : dict value) (w w' : world) (t : trace) : Prop :=
  match cs with
  | [] => w' = w /\ t = []
  | c :: r =>
      exists rargs h pv w1 t1 t2,
        layer_rargs c f args kwargs rargs /\
        precondition_passes c rargs w h /\
        run_preservers (preservers_of (get_wrapped_func f) w) rargs []
          (set_heap h w) = (Ret pv, w1, t1) /\
        layers_pass r f args kwargs w1 w' t2 /\
        t = (precondition_trace c rargs ++ t1 ++ t2)%list
  end.

(** The event is not that of a preserver that returned a mapping with the
    name [k]. *)
Definition returns_without (k : string) (ev : event) : Prop :=
  match ev with
  | EvPreserver _ (Ret d) => in_names k (dict_keys d) = false
  | _ => True
  end.

(** Every preserver list that a function object refers to exists. *)
Definition attributes_wf (w : world) : Prop :=
  forall k l, nat_assoc k (w_preserver_attr w) = Some l ->
              l < length (w_preserver_lists w).

Definition with_trace_prefix {A} (t : trace) (r : outcome A * world * trace)
  : outcome A * world * trace :=
  match r with (o, w, t') => (o, w, (t ++ t')%list) end.

(** *** Class invariants, in the words of the specification *)

(** The allow-list of names in the private style whose methods are checked
    all the same; the initializer is checked after it returns only. *)
Definition allow_list : list string :=
  ["__getitem__"; "__setitem__"; "__lt__"; "__le__"; "__eq__"; "__ne__";
   "__gt__"; "__ge__"].

(** A string read backwards. *)
Definition reversed (s : string) : string :=
  string_of_list_ascii (rev (list_ascii_of_string s)).

(** A name in the private style: it begins with two underscores and it ends
    with two underscores. *)
Definition private_style (name : string) : Prop :=
  (exists rest, name = "__" ++ rest) /\ (exists front, name = front ++ "__").

(** The same test as the code computes it. *)
Definition dunder (name : string) : bool :=
  startswith "__" name && endswith "__" name.

(** One evaluation of the invariant on the receiver. *)
Definition invariant_holds (when : phase) (desc : string) (p : predicate_fn)
    (self : value) : M bool :=
  emit (EvPredicate when desc [self]) ;;
  exec (pred_run p [self]).

(** What it means that a call of the method [f] on the receiver [self] is
    checked: before the call (if [pre]) the invariant is evaluated on the
    receiver, and its failure is a [PreconditionError] that keeps [f] from
    running; the preservers attached to [f] run, on the receiver; [f] is
    called; the invariant is evaluated on the receiver again, in the heap
    that the call left, and its failure is a [PostconditionError]. *)
Definition checked_call (desc : string) (p : predicate_fn) (pre : bool)
    (f : func) (self : value) (rest : list value) (kwargs : dict value)
  : M value :=
  (if pre then
     ok <- invariant_holds Pre desc p self ;;
     if ok then ret tt else raise (PreconditionError desc (VInt 0))
   else ret tt) ;;
  ps <- (fun w => (Ret (preservers_of (get_wrapped_func f) w), w, [])) ;;
  run_preservers ps self [] ;;
  result <- call f (self :: rest) kwargs ;;
  ok <- invariant_holds Post desc p self ;;
  if ok then ret result else raise (PostconditionError desc (VInt 0)).

(** What the derived class has in the place of the member [m] called
    [name].  It is [m] itself: when the name is in the private style, not
    in the allow-list and not that of the initializer; when [m] is bound to
    the class (a classmethod); when [m] is a data attribute; when [m] is
    neither a method nor a function.  For a function under any other name
    it is a function whose calls are checked, before and after, or only
    after for the initializer. *)
Definition derived_member (desc : string) (p : predicate_fn)
    (name : string) (m m' : member) : Prop :=
  (private_style name -> ~ In name allow_list -> name <> "__init__" ->
   m' = m) /\
  (forall f ismethod, m = Callable f ismethod true -> m' = m) /\
  (forall v, m = Data v -> m' = m) /\
  (forall f, m = Callable f false false -> isfunction f = false -> m' = m) /\
  (forall f ismethod,
     m = Callable f ismethod false -> isfunction f = true ->
     ~ private_style name \/ In name allow_list \/ name = "__init__" ->
     exists g,
       m' = Callable g false false /\
       (name <> "__init__" ->
        forall self rest kwargs w,
          call g (self :: rest) kwargs w
          = checked_call desc p true f self rest kwargs w) /\
       (name = "__init__" ->
        forall self rest kwargs w,
          call g (self :: rest) kwargs w
          = checked_call desc p false f self rest kwargs w)).

(** *** The normalizer *)




End Vocabulary.

(** ** A host for the examples

    Identifiers over ASCII, the keywords of Python 3, the text of an
    exception as it was given to it. *)

Definition is_alpha_ (a : ascii) : bool :=
  let n := nat_of_ascii a in
  (Nat.leb 65 n && Nat.leb n 90) || (Nat.leb 97 n && Nat.leb n 122)
  || Nat.eqb n 95.

Definition is_digit (a : ascii) : bool :=
  let n := nat_of_ascii a in Nat.leb 48 n && Nat.leb n 57.

Definition ascii_isidentifier (s : string) : bool :=
  match s with
  | EmptyString => false
  | String a r =>
      is_alpha_ a
      && forallb (fun x => is_alpha_ x || is_digit x) (list_ascii_of_string r)
  end.

Definition python_keywords : list string :=
  ["False"; "None"; "True"; "and"; "as"; "assert"; "async"; "await";
   "break"; "class"; "continue"; "def"; "del"; "elif"; "else"; "except";
   "finally"; "for"; "from"; "global"; "if"; "import"; "in"; "is";
   "lambda"; "nonlocal"; "not"; "or"; "pass"; "raise"; "return"; "try";
   "while"; "with"; "yield"].

Definition example_exn_str (e : exn) : string :=
  match e with
  | PreconditionError d _ | PostconditionError d _ => d
  | AssertionError m | TypeError m | ValueError m | IndexError m
  | AttributeError m => m
  | NotImplementedError => EmptyString
  | Error _ text => text
  end.

Definition example_host : Host :=
  {| isidentifier := ascii_isidentifier;
     iskeyword := fun s => in_names s python_keywords;
     exn_str := example_exn_str;
     get_function_source := fun _ => "<lambda> failed" |}.

Definition empty_world : world :=
  {| w_heap := []; w_next := 0; w_preserver_attr := [];
     w_preserver_lists := [] |}.

Definition positional (names : list string) : argspec :=
  {| named := names; vargs := None; varkw := None; defs := [];
     kwonly := []; kwonlydefs := [] |}.

Definition field (name : string) (v : value) : value :=
  match v with
  | VNamed _ fields | VDict fields =>
      match dict_get name fields with Some x => x | None => VNone end
  | _ => VNone
  end.

Definition local (name : string) (locals : dict value) : value :=
  match dict_get name locals with Some x => x | None => VNone end.

(** A predicate of one argument over the record of the arguments. *)
Definition on_args (p : value -> bool) : predicate_fn :=
  {| pred_arg_count := 1;
     pred_run := fun pargs h =>
       (match pargs with
        | [rargs] => Ret (p rargs)
        | _ => Raise (TypeError "<lambda>() takes 1 positional argument")
        end, h) |}.

Definition int_gt0 (v : value) : bool :=
  match v with VInt z => Z.ltb 0 z | _ => false end.

(** [def add2(i, j): return i + j] *)
Definition add2_body : body_fn :=
  fun locals h =>
    match local "i" locals, local "j" locals with
    | VInt i, VInt j => (Ret (VInt (i + j)), h)
    | _, _ => (Raise (TypeError "unsupported operand type(s) for +"), h)
    end.

Definition always_true : predicate_fn :=
  {| pred_arg_count := 1; pred_run := fun _ h => (Ret true, h) |}.

Definition precondition_of (desc : string) (p : predicate_fn) (errno : value)
  : contract :=
  {| description := desc; predicate := p; precondition := true;
     postcondition := false; instance := false; errno := errno;
     clean_up := None |}.

Definition postcondition_of (desc : string) (p : predicate_fn)
    (cu : option cleanup_fn) : contract :=
  {| description := desc; predicate := p; precondition := false;
     postcondition := true; instance := false; errno := VInt 0;
     clean_up := cu |}.

(** The function [add2] of the documentation, as the first function object
    of a program, and the world after its definition. *)
Definition add2 : func :=
  Func 0 "add2" (positional ["i"; "j"]) true None (Def add2_body).

Definition world1 : world :=
  {| w_heap := []; w_next := 1; w_preserver_attr := [];
     w_preserver_lists := [] |}.

(** The world after one more function object was created. *)
Definition world2 : world :=
  {| w_heap := []; w_next := 2; w_preserver_attr := [];
     w_preserver_lists := [] |}.

Definition i_positive : predicate_fn :=
  on_args (fun a => int_gt0 (field "i" a)).
Definition j_positive : predicate_fn :=
  on_args (fun a => int_gt0 (field "j" a)).

(** [lambda args, result: result > 0] *)
Definition result_positive : predicate_fn :=
  {| pred_arg_count := 2;
     pred_run := fun pargs h =>
       (match pargs with
        | [_; result] => Ret (int_gt0 result)
        | _ => Raise (TypeError "<lambda>() takes 2 positional arguments")
        end, h) |}.

(** A clean-up action that fails. *)
Definition failing_clean_up : cleanup_fn :=
  fun _ _ h => (Raise (Error "OSError" "disk full"), h).

(** [def f(_i, j): return _i + j] *)
Definition add2_underscore : func :=
  Func 0 "add2" (positional ["_i"; "j"]) true None
    (Def (fun locals h =>
       match local "_i" locals, local "j" locals with
       | VInt i, VInt j => (Ret (VInt (i + j)), h)
       | _, _ => (Raise (TypeError "unsupported operand type(s) for +"), h)
       end)).


(** [def f(a, *c): return c]  and  [def f(a, *c, **kw): return c] *)
Definition catch_all : func :=
  Func 0 "f"
    {| named := ["a"]; vargs := Some "c"; varkw := None; defs := [];
       kwonly := []; kwonlydefs := [] |}
    true None (Def (fun locals h => (Ret (local "c" locals), h))).

Definition catch_both : func :=
  Func 0 "f"
    {| named := ["a"]; vargs := Some "c"; varkw := Some "kw"; defs := [];
       kwonly := []; kwonlydefs := [] |}
    true None (Def (fun locals h => (Ret (local "c" locals), h))).

Definition identity : transformer_fn := fun rargs h => (Ret rargs, h).

(** [def func(a, b="Foo", *c): pass] *)
Definition conventions : func :=
  Func 0 "func"
    {| named := ["a"; "b"]; vargs := Some "c"; varkw := None;
       defs := [VStr "Foo"]; kwonly := []; kwonlydefs := [] |}
    true None (Def (fun _ h => (Ret VNone, h))).

(** The class [Counter] of the documentation: the object at address 0 of
    the heap, and the method [increment], broken for the value 9. *)
Definition counter (n : Z) : value := VNamed "Counter" [("value", VInt n)].

Definition attribute (name : string) (obj : value) (h : heap) : value :=
  match obj with
  | VRef a => field name (nth a h VNone)
  | _ => VNone
  end.

Definition increment_body : body_fn :=
  fun locals h =>
    match local "self" locals, local "value" locals with
    | VRef a, VInt v =>
        match field "value" (nth a h VNone) with
        | VInt old =>
            let broken := if Z.eqb v 9 then (old + 2)%Z else old in
            (Ret VNone,
             (firstn a h ++ [counter (broken + v)] ++ skipn (S a) h)%list)
        | _ => (Raise (AttributeError "value"), h)
        end
    | _, _ => (Raise (TypeError "increment"), h)
    end.

Definition increment : func :=
  Func 0 "increment" (positional ["self"; "value"]) true None
    (Def increment_body).

(** [lambda args: {"old_value": args.self.value}] *)
Definition old_value : preserver_fn :=
  fun rargs h =>
    (Ret [("old_value", attribute "value" (field "self" rargs) h)], h).

(** [lambda args, res, old: args.self.value == old.old_value + args.value] *)
Definition incremented_by_value : predicate_fn :=
  {| pred_arg_count := 3;
     pred_run := fun pargs h =>
       (match pargs with
        | [rargs; _; old] =>
            match attribute "value" (field "self" rargs) h,
                  field "old_value" old, field "value" rargs with
            | VInt now, VInt before, VInt v => Ret (Z.eqb now (before + v))
            | _, _, _ => Raise (AttributeError "old_value")
            end
        | _ => Raise (TypeError "<lambda>() takes 3 positional arguments")
        end, h) |}.

Definition counter_incremented : contract :=
  postcondition_of "counter is incremented by value" incremented_by_value None.

Definition value_positive : contract :=
  precondition_of "value > 0" (on_args (fun a => int_gt0 (field "value" a)))
                  (VInt 0).

(** [lambda self: self.counter >= 0] on the same object. *)
Definition counter_nonnegative : predicate_fn :=
  {| pred_arg_count := 1;
     pred_run := fun pargs h =>
       (match pargs with
        | [self] =>
            match attribute "value" self h with
            | VInt n => Ret (Z.leb 0 n)
            | _ => Raise (AttributeError "value")
            end
        | _ => Raise (TypeError "<lambda>() takes 1 positional argument")
        end, h) |}.

(** A class with an initializer, a method, a private-style method outside
    the allow-list, a classmethod and a data attribute. *)
Definition counter_init : func :=
  Func 1 "__init__" (positional ["self"; "value"]) true None
    (Def (fun locals h =>
       match local "self" locals, local "value" locals with
       | VRef a, VInt v =>
           (Ret VNone, (firstn a h ++ [counter v] ++ skipn (S a) h)%list)
       | _, _ => (Raise (TypeError "__init__"), h)
       end)).

Definition counter_repr : func :=
  Func 2 "__repr__" (positional ["self"]) true None
    (Def (fun _ h => (Ret (VStr "Counter"), h))).

Definition counter_make : func :=
  Func 3 "make" (positional ["value"]) false None
    (Def (fun _ h => (Ret VNone, h))).

(** [def __eq__(self, other): return self.value == other.value] *)
Definition counter_eq : func :=
  Func 4 "__eq__" (positional ["self"; "other"]) true None
    (Def (fun locals h =>
       match attribute "value" (local "self" locals) h,
             attribute "value" (local "other" locals) h with
       | VInt a, VInt b => (Ret (VBool (Z.eqb a b)), h)
       | _, _ => (Raise (AttributeError "value"), h)
       end)).

(** The members in the order of [dir]. *)
Definition counter_class : class :=
  [("__eq__", Callable counter_eq false false);
   ("__init__", Callable counter_init false false);
   ("__repr__", Callable counter_repr false false);
   ("increment", Callable increment false false);
   ("limit", Data (VInt 3));
   ("make", Callable counter_make true true)].

Definition world4 : world :=
  {| w_heap := [counter 10]; w_next := 5; w_preserver_attr := [];
     w_preserver_lists := [] |}.

(** Function objects for the front end [ensure]: the predicate
    [lambda args, result: result > 0], which cannot be called as a clean-up
    action, and a clean-up action that leaves a note in the heap and returns
    nothing. *)
Definition result_positive_fn : pyfunction :=
  {| fn_ref := 10;
     fn_predicate := result_positive;
     fn_clean_up := fun _ _ h =>
       (Raise (TypeError "<lambda>() takes 2 positional arguments"), h) |}.

Definition leave_note : cleanup_fn :=
  fun _ _ h => (Ret tt, (h ++ [VStr "cleaned up"])%list).

Definition leave_note_fn : pyfunction :=
  {| fn_ref := 11;
     fn_predicate := {| pred_arg_count := 1;
                        pred_run := fun _ h => (Ret false, h) |};
     fn_clean_up := leave_note |}.

(** [lambda args: args.value > 0], for any record. *)
Definition value_field_positive : predicate_fn :=
  {| pred_arg_count := 1;
     pred_run := fun pargs h =>
       (match pargs with
        | [VNamed _ fields] =>
            match dict_get "value" fields with
            | Some v => Ret (int_gt0 v)
            | None => Raise (AttributeError "value")
            end
        | _ => Raise (AttributeError "value")
        end, h) |}.

(** A postcondition of three arguments that always holds. *)
Definition any_snapshot : predicate_fn :=
  {| pred_arg_count := 3; pred_run := fun _ h => (Ret true, h) |}.

(** Preservers: two that keep an argument under the same name, one that
    fails, one that uses a name in the private style. *)
Definition old_i : preserver_fn :=
  fun rargs h => (Ret [("old", field "i" rargs)], h).
Definition old_j : preserver_fn :=
  fun rargs h => (Ret [("old", field "j" rargs)], h).
Definition failing_preserver : preserver_fn :=
  fun _ h => (Raise (AttributeError "value"), h).
Definition private_name : preserver_fn :=
  fun rargs h => (Ret [("_old", field "i" rargs)], h).

(** The world after [add2] was defined and preservers were put on it. *)
Definition world_with (ps : list preserver_fn) : world :=
  {| w_heap := []; w_next := 2; w_preserver_attr := [(0, 0)];
     w_preserver_lists := [ps] |}.

(** [lambda args: rewrite(args, i=args.j)] *)
Definition i_from_j : transformer_fn :=
  fun rargs h =>
    (rewrite (fun names => ValueError "Got unexpected field names")
             rargs [("i", field "j" rargs)], h).

(** The classes [int] and [str], and the attributes that every record has
    besides its fields. *)
Inductive pyclass : Type := class_int | class_str.

Definition example_isinstance (v : value) (k : pyclass) (h : heap) : bool :=
  match k, v with
  | class_int, VInt _ | class_int, VBool _ => true
  | class_str, VStr _ => true
  | _, _ => false
  end.

Definition record_attribute (v : value) (name : string)
  : option (pyclass -> bool) :=
  match v with
  | VNamed _ _ =>
      if in_names name ["count"; "index"] then Some (fun _ => false)
      else None
  | _ => None
  end.



(** The generator of the documentation: [iota(5)] yields 1, 2, 3, 4.  A
    generator is an object that holds the items it has not yielded yet; to
    iterate over it is to take them out. *)
Definition generator (items : list value) : value :=
  VNamed "generator" [("items", VTuple items)].

Definition remaining (cell : value) : option (list value) :=
  match cell with
  | VNamed typename [(_, VTuple items)] =>
      if String.eqb typename "generator" then Some items else None
  | _ => None
  end.

Definition store (a : nat) (v : value) (h : heap) : heap :=
  (firstn a h ++ [v] ++ skipn (S a) h)%list.

(** [all(x > 0 for x in items)]: the truth value, and the items behind the
    first one that is not positive. *)
Fixpoint all_positive (items : list value) : bool * list value :=
  match items with
  | [] => (true, [])
  | x :: r => if int_gt0 x then all_positive r else (false, r)
  end.

(** [lambda args: all(x > 0 for x in args.l)], on a generator or a tuple. *)
Definition every_item_positive : predicate_fn :=
  {| pred_arg_count := 1;
     pred_run := fun pargs h =>
       match pargs with
       | [rargs] =>
           match field "l" rargs with
           | VRef a =>
               match remaining (nth a h VNone) with
               | Some items =>
                   (Ret (fst (all_positive items)),
                    store a (generator (snd (all_positive items))) h)
               | None => (Raise (TypeError "object is not iterable"), h)
               end
           | VTuple items => (Ret (fst (all_positive items)), h)
           | _ => (Raise (TypeError "object is not iterable"), h)
           end
       | _ => (Raise (TypeError "<lambda>() takes 1 positional argument"), h)
       end |}.

Definition sum_items (items : list value) : Z :=
  fold_right (fun x acc => match x with VInt z => (z + acc)%Z | _ => acc end)
             0%Z items.

(** [def my_func(l): return sum(l)] *)
Definition my_func : func :=
  Func 0 "my_func" (positional ["l"]) true None
    (Def (fun locals h =>
       match local "l" locals with
       | VRef a =>
           match remaining (nth a h VNone) with
           | Some items =>
               (Ret (VInt (sum_items items)), store a (generator []) h)
           | None => (Raise (TypeError "object is not iterable"), h)
           end
       | VTuple items => (Ret (VInt (sum_items items)), h)
       | _ => (Raise (TypeError "object is not iterable"), h)
       end)).

(** [def g(a, func): return a] *)
Definition parameter_func : func :=
  Func 0 "g" (positional ["a"; "func"]) true None
    (Def (fun locals h => (Ret (local "a" locals), h))).

(** [def g(_a, *c): return c] *)
Definition catch_all_underscore : func :=
  Func 0 "g"
    {| named := ["_a"]; vargs := Some "c"; varkw := None; defs := [];
       kwonly := []; kwonlydefs := [] |}
    true None (Def (fun locals h => (Ret (local "c" locals), h))).

(** [lambda args: args.a > 0] *)
Definition a_positive : predicate_fn :=
  on_args (fun r => int_gt0 (field "a" r)).

(** A transformer that returns a record with the field [a] only. *)
Definition only_a : transformer_fn :=
  fun rargs h => (Ret (VNamed "Args" [("a", field "a" rargs)]), h).

(** A predicate that returns true on every record, after it went through
    the items of [args.l] if there are any: on a generator it takes them
    all. *)
Definition looks_at_every_item : predicate_fn :=
  {| pred_arg_count := 1;
     pred_run := fun pargs h =>
       match pargs with
       | [rargs] =>
           match field "l" rargs with
           | VRef a =>
               match remaining (nth a h VNone) with
               | Some _ => (Ret true, store a (generator []) h)
               | None => (Ret true, h)
               end
           | _ => (Ret true, h)
           end
       | _ => (Ret true, h)
       end |}.

(** [lambda args: {"total": sum(args.l)}] *)
Definition total_of_items : preserver_fn :=
  fun rargs h =>
    match field "l" rargs with
    | VRef a =>
        match remaining (nth a h VNone) with
        | Some items =>
            (Ret [("total", VInt (sum_items items))],
             store a (generator []) h)
        | None => (Raise (TypeError "object is not iterable"), h)
        end
    | VTuple items => (Ret [("total", VInt (sum_items items))], h)
    | _ => (Raise (TypeError "object is not iterable"), h)
    end.

(** [lambda args: rewrite(args, l=list(args.l))] *)
Definition listed : transformer_fn :=
  fun rargs h =>
    match field "l" rargs with
    | VRef a =>
        match remaining (nth a h VNone) with
        | Some items =>
            (rewrite (fun names => ValueError "Got unexpected field names")
                     rargs [("l", VTuple items)],
             store a (generator []) h)
        | None => (Raise (TypeError "object is not iterable"), h)
        end
    | VTuple items => (Ret rargs, h)
    | _ => (Raise (TypeError "object is not iterable"), h)
    end.

(** The method [increment] under its postcondition, as the second function
    object of a program. *)
Definition increment_ensured : func :=
  Func 1 "increment" inner_spec true (Some increment)
    (CondInner counter_incremented increment increment).

(** * Properties *)

(** The names of a list are distinct. *)
Ltac distinct_names :=
  repeat (apply NoDup_cons; [simpl; intuition discriminate|]);
  apply NoDup_nil.

(** ** The monad *)

Lemma bind_Ret {A B} (m : M A) (k : A -> M B) w a w' t :
  m w = (Ret a, w', t) ->
  bind m k w = match k a w' with (o, w'', t') => (o, w'', (t ++ t')%list) end.
Proof. intros H. unfold bind. rewrite H. reflexivity. Qed.

Lemma bind_Raise {A B} (m : M A) (k : A -> M B) w e w' t :
  m w = (Raise e, w', t) -> bind m k w = (Raise e, w', t).
Proof. intros H. unfold bind. rewrite H. reflexivity. Qed.

Lemma bind_inv_Ret {A B} (m : M A) (k : A -> M B) w b w2 t :
  bind m k w = (Ret b, w2, t) ->
  exists a w1 t1 t2,
    m w = (Ret a, w1, t1) /\ k a w1 = (Ret b, w2, t2) /\ t = (t1 ++ t2)%list.
Proof.
  unfold bind. destruct (m w) as [[[a|e] w1] t1].
  - destruct (k a w1) as [[o w3] t2] eqn:E. intros H. inversion H; subst.
    exists a, w1, t1, t2. auto.
  - discriminate.
Qed.

(** ** Dictionaries *)

Section DictFacts.
Variable V : Type.
Implicit Types (d e : dict V) (k n : string) (v : V).

Lemma in_names_In k (l : list string) : in_names k l = true <-> In k l.
Proof.
  unfold in_names. rewrite existsb_exists. split.
  - intros (x & Hx & He). apply String.eqb_eq in He. subst. assumption.
  - intros H. exists k. split; [assumption|apply String.eqb_refl].
Qed.

Lemma in_names_not_In k (l : list string) : in_names k l = false <-> ~ In k l.
Proof.
  rewrite <- in_names_In. destruct (in_names k l); split; intros H;
    try reflexivity; try discriminate; try (intros H'; discriminate).
  exfalso. apply H. reflexivity.
Qed.


Lemma dict_get_set k k' v d :
  dict_get k (dict_set k' v d) = if String.eqb k k' then Some v else dict_get k d.
Proof.
  induction d as [|[k0 v0] r IH]; simpl.
  - reflexivity.
  - destruct (String.eqb k' k0) eqn:E; simpl.
    + apply String.eqb_eq in E. subst k0.
      destruct (String.eqb k k'); reflexivity.
    + destruct (String.eqb k k0) eqn:E0.
      * apply String.eqb_eq in E0. subst k0.
        rewrite String.eqb_sym in E. rewrite E. reflexivity.
      * exact IH.
Qed.

Lemma dict_get_in_keys k d :
  in_names k (dict_keys d) = match dict_get k d with Some _ => true | None => false end.
Proof.
  induction d as [|[k0 v0] r IH]; simpl.
  - reflexivity.
  - destruct (String.eqb k k0); simpl; [reflexivity|exact IH].
Qed.

Lemma dict_keys_set k v d :
  dict_keys (dict_set k v d)
  = if in_names k (dict_keys d) then dict_keys d else (dict_keys d ++ [k])%list.
Proof.
  induction d as [|[k0 v0] r IH]; simpl.
  - reflexivity.
  - destruct (String.eqb k k0) eqn:E; simpl.
    + apply String.eqb_eq in E. subst. reflexivity.
    + unfold dict_keys in *. rewrite IH.
      destruct (in_names k (map fst r)); reflexivity.
Qed.

Lemma dict_keys_update d e :
  exists extra, dict_keys (dict_update d e) = (dict_keys d ++ extra)%list.
Proof.
  unfold dict_update. revert d. induction e as [|[k v] r IH]; intros d; simpl.
  - exists []. rewrite app_nil_r. reflexivity.
  - destruct (IH (dict_set k v d)) as [x Hx]. rewrite Hx.
    rewrite dict_keys_set. destruct (in_names k (dict_keys d)).
    + exists x. reflexivity.
    + exists (k :: x). rewrite <- app_assoc. reflexivity.
Qed.

Lemma NoDup_dict_set k v d :
  NoDup (dict_keys d) -> NoDup (dict_keys (dict_set k v d)).
Proof.
  intros H. rewrite dict_keys_set.
  destruct (in_names k (dict_keys d)) eqn:E; [assumption|].
  apply in_names_not_In in E.
  apply NoDup_app; [assumption|repeat constructor; intros []|].
  intros x Hx [Hk|[]]. subst. contradiction.
Qed.

Lemma NoDup_dict_update d e :
  NoDup (dict_keys d) -> NoDup (dict_keys (dict_update d e)).
Proof.
  unfold dict_update. revert d. induction e as [|[k v] r IH]; intros d H; simpl.
  - assumption.
  - apply IH. apply NoDup_dict_set. assumption.
Qed.

Lemma dict_get_update_notin k d e :
  in_names k (dict_keys e) = false -> dict_get k (dict_update d e) = dict_get k d.
Proof.
  unfold dict_update. revert d. induction e as [|[k0 v0] r IH]; intros d H; simpl.
  - reflexivity.
  - simpl in H. apply orb_false_elim in H. destruct H as [H1 H2].
    rewrite (IH _ H2). rewrite dict_get_set. simpl in H1. rewrite H1. reflexivity.
Qed.

Lemma dict_get_update_in k d e :
  in_names k (dict_keys e) = true ->
  exists v, In (k, v) e /\ dict_get k (dict_update d e) = Some v.
Proof.
  unfold dict_update. revert d. induction e as [|[k0 v0] r IH]; intros d H; simpl.
  - discriminate.
  - change (in_names k (dict_keys ((k0, v0) :: r)))
      with (String.eqb k k0 || in_names k (dict_keys r)) in H.
    destruct (in_names k (dict_keys r)) eqn:E.
    + destruct (IH (dict_set k0 v0 d) eq_refl) as (v & Hin & Hg).
      exists v. split; [right; assumption|assumption].
    + rewrite orb_false_r in H.
      apply String.eqb_eq in H. subst k0.
      exists v0. split; [left; reflexivity|].
      fold (dict_update (dict_set k v0 d) r).
      rewrite dict_get_update_notin by assumption.
      rewrite dict_get_set. rewrite String.eqb_refl. reflexivity.
Qed.

End DictFacts.

(** ** Function objects *)

Lemma get_wrapped_func_idem (g : func) :
  get_wrapped_func (get_wrapped_func g) = get_wrapped_func g.
Proof.
  revert g. fix IH 1. intros [id n s b [w|] c]; simpl.
  - apply IH.
  - reflexivity.
Qed.

Section Properties.
Context {host : Host}.

Lemma build_call_wrapped (g : func) args kwargs :
  build_call (get_wrapped_func g) args kwargs = build_call g args kwargs.
Proof. unfold build_call. rewrite get_wrapped_func_idem. reflexivity. Qed.

(** [build_call] without a named argument [func], and with one. *)
Lemma build_call_eq f args kwargs :
  in_names "func" (dict_keys kwargs) = false ->
  build_call f args kwargs
  = obind (check_nonce (func_name (get_wrapped_func f))
             (build_call_actual (getfullargspec (get_wrapped_func f))
                                args kwargs))
          tuple_of_dict.
Proof. intros H. unfold build_call. rewrite H. reflexivity. Qed.

Lemma build_call_func f args kwargs :
  in_names "func" (dict_keys kwargs) = true ->
  build_call f args kwargs
  = Raise (TypeError "build_call() got multiple values for argument 'func'").
Proof. intros H. unfold build_call. rewrite H. reflexivity. Qed.

Lemma build_call_Ret_no_func f args kwargs r :
  build_call f args kwargs = Ret r ->
  in_names "func" (dict_keys kwargs) = false.
Proof.
  unfold build_call. destruct (in_names "func" (dict_keys kwargs));
    [discriminate|reflexivity].
Qed.

(** What [condition(...)(f)] returns when it returns. *)
Lemma condition_inv (c : contract) (f g : func) w w' t :
  condition c f w = (Ret g, w', t) ->
  condition_asserts c = Ret tt /\ isfunction f = true /\ t = [] /\
  w_heap w' = w_heap w /\
  exists id,
    g = Func id (func_name f) inner_spec true (Some (get_wrapped_func f))
             (CondInner c f (get_wrapped_func f)).
Proof.
  unfold condition, condition_require, bind, lift.
  destruct (condition_asserts c) as [[]|e]; [|discriminate].
  destruct (isfunction f); [|discriminate].
  unfold fresh_id, wraps_dict, ret. simpl.
  destruct (nat_assoc (func_id f) (w_preserver_attr w));
    intros H; inversion H; subst; simpl; repeat split; eauto.
Qed.

Lemma call_CondInner id name spec b cwf c f wrapped args kwargs :
  call (Func id name spec b cwf (CondInner c f wrapped)) args kwargs
  = condition_inner (call f) c f wrapped args kwargs.
Proof. reflexivity. Qed.

Lemma inner_before_rargs {B} c f args kwargs rargs (k : value -> M B) w :
  layer_rargs c f args kwargs rargs ->
  bind (if negb (instance c) then lift (build_call f args kwargs)
        else match args with
             | a :: _ => ret a
             | [] => raise (IndexError "tuple index out of range")
             end) k w
  = k rargs w.
Proof.
  unfold layer_rargs, bind, lift, ret. destruct (instance c); simpl.
  - destruct args; simpl; intros H; inversion H; subst.
    destruct (k rargs w) as [[o w'] t]. reflexivity.
  - intros ->. destruct (k rargs w) as [[o w'] t]. reflexivity.
Qed.

Lemma set_heap_same w : set_heap (w_heap w) w = w.
Proof. destruct w. reflexivity. Qed.

Lemma set_heap_twice h h' w : set_heap h (set_heap h' w) = set_heap h w.
Proof. reflexivity. Qed.

Lemma preservers_of_set_heap g h w :
  preservers_of g (set_heap h w) = preservers_of g w.
Proof. reflexivity. Qed.

Lemma call_predicate_eq when c pargs w o h :
  pred_run (predicate c) pargs (w_heap w) = (o, h) ->
  call_predicate when c pargs w
  = (o, set_heap h w, [EvPredicate when (description c) pargs]).
Proof.
  intros H. unfold call_predicate, bind, emit, exec. rewrite H.
  destruct o; reflexivity.
Qed.

(** A layer whose precondition fails stops there. *)
Lemma inner_before_fails c f wrapped args kwargs rargs w h :
  precondition c = true ->
  layer_rargs c f args kwargs rargs ->
  pred_run (predicate c) [rargs] (w_heap w) = (Ret false, h) ->
  inner_before c f wrapped args kwargs w
  = (Raise (PreconditionError (description c) (errno c)), set_heap h w,
     [EvPredicate Pre (description c) [rargs]]).
Proof.
  intros Hpre Hr Hp. unfold inner_before.
  rewrite (inner_before_rargs c f args kwargs rargs _ w Hr). rewrite Hpre.
  unfold bind at 1. unfold bind at 1.
  rewrite (call_predicate_eq _ _ _ _ _ _ Hp). reflexivity.
Qed.

(** C1.  A call that violates the precondition of a layer raises
    [PreconditionError] with the description (and errno) of that layer.
    The only user code that ran is the predicate, and the world is as the
    predicate left it: the wrapped callable was not called. *)
Theorem precondition_violation_raises
    (c : contract) (f g : func) (w0 w0' : world) (t0 : trace)
    (args : list value) (kwargs : dict value) (rargs : value) (w : world)
    (h : heap) :
  condition c f w0 = (Ret g, w0', t0) ->
  precondition c = true ->
  layer_rargs c f args kwargs rargs ->
  pred_run (predicate c) [rargs] (w_heap w) = (Ret false, h) ->
  call g args kwargs w
  = (Raise (PreconditionError (description c) (errno c)), set_heap h w,
     [EvPredicate Pre (description c) [rargs]]).
Proof.
  intros Hc Hpre Hr Hp.
  destruct (condition_inv _ _ _ _ _ _ Hc) as (_ & _ & _ & _ & id & ->).
  rewrite call_CondInner. unfold condition_inner.
  erewrite bind_Raise; [reflexivity|].
  apply inner_before_fails; assumption.
Qed.

(** ** The normalizer *)




Lemma dict_keys_some_values (d : dict value) :
  dict_keys (some_values d) = dict_keys d.
Proof.
  unfold dict_keys, some_values. rewrite map_map. reflexivity.
Qed.

Lemma in_keys_of_pairs {V} k (pairs : list (string * V)) :
  in_names k (dict_keys (dict_of_pairs pairs)) = in_names k (map fst pairs).
Proof.
  rewrite dict_get_in_keys. unfold dict_of_pairs.
  destruct (in_names k (map fst pairs)) eqn:E.
  - destruct (dict_get_update_in V k [] pairs E) as (v & _ & ->). reflexivity.
  - rewrite dict_get_update_notin by exact E. reflexivity.
Qed.




Lemma NoDup_build_call_actual spec args kwargs :
  NoDup (dict_keys (build_call_actual spec args kwargs)).
Proof.
  unfold build_call_actual.
  apply NoDup_dict_update.
  assert (H : NoDup (dict_keys
    (dict_update
       (dict_update
          (dict_update
             (dict_of_pairs (map (fun name => (name, @None value)) (named spec)))
             (some_values (kwonlydefs spec)))
          (some_values (dict_of_pairs (zip (rev (named spec)) (rev (defs spec))))))
       (some_values (dict_of_pairs (zip (named spec) args)))))).
  { repeat apply NoDup_dict_update. constructor. }
  destruct (vargs spec); [apply NoDup_dict_set|]; exact H.
Qed.

Lemma keys_build_call_actual spec args kwargs :
  exists extra,
    dict_keys (build_call_actual spec args kwargs)
    = (dict_keys (dict_of_pairs (map (fun name => (name, @None value))
                                     (named spec))) ++ extra)%list.
Proof.
  unfold build_call_actual.
  set (a0 := dict_of_pairs (map (fun name => (name, @None value)) (named spec))).
  destruct (dict_keys_update _ a0 (some_values (kwonlydefs spec))) as [x1 H1].
  set (a1 := dict_update a0 _) in *.
  destruct (dict_keys_update _ a1
    (some_values (dict_of_pairs (zip (rev (named spec)) (rev (defs spec))))))
    as [x2 H2].
  set (a2 := dict_update a1 _) in *.
  destruct (dict_keys_update _ a2
    (some_values (dict_of_pairs (zip (named spec) args)))) as [x3 H3].
  set (a3 := dict_update a2 _) in *.
  assert (exists x4,
    dict_keys (match vargs spec with
               | Some va => dict_set va
                   (Some (VTuple (skipn (length (named spec)) args))) a3
               | None => a3
               end) = (dict_keys a3 ++ x4)%list) as [x4 H4].
  { destruct (vargs spec) as [va|].
    - rewrite dict_keys_set. destruct (in_names va (dict_keys a3)).
      + exists []. rewrite app_nil_r. reflexivity.
      + exists [va]. reflexivity.
    - exists []. rewrite app_nil_r. reflexivity. }
  destruct (dict_keys_update _
    (match vargs spec with
     | Some va => dict_set va
         (Some (VTuple (skipn (length (named spec)) args))) a3
     | None => a3
     end) (some_values kwargs)) as [x5 H5].
  rewrite H5, H4, H3, H2, H1.
  exists (x1 ++ x2 ++ x3 ++ x4 ++ x5)%list.
  repeat rewrite <- app_assoc. reflexivity.
Qed.









Lemma dict_get_some_values n (e : dict value) :
  dict_get n (some_values e) = option_map Some (dict_get n e).
Proof.
  induction e as [|[k y] r IH]; simpl; [reflexivity|].
  destruct (String.eqb n k); [reflexivity|exact IH].
Qed.

Lemma check_nonce_keys fname (a : dict (option value)) r :
  check_nonce fname a = Ret r -> dict_keys r = dict_keys a.
Proof.
  revert r. induction a as [|[k [x|]] a' IH]; simpl; intros r H.
  - inversion H. reflexivity.
  - destruct (check_nonce fname a') as [r'|]; [|discriminate].
    inversion H; subst. simpl. rewrite (IH r' eq_refl). reflexivity.
  - discriminate.
Qed.


Lemma tuple_of_dict_inv d x :
  tuple_of_dict d = Ret x -> x = VNamed "Args" d.
Proof.
  unfold tuple_of_dict, tuple_of_dict_named.
  destruct (namedtuple_names _); [|discriminate]. simpl.
  destruct (namedtuple_fields _); [|discriminate]. simpl.
  intros H. inversion H. reflexivity.
Qed.

Lemma tuple_of_dict_same_keys d d' :
  dict_keys d' = dict_keys d ->
  tuple_of_dict d = Ret (VNamed "Args" d) ->
  tuple_of_dict d' = Ret (VNamed "Args" d').
Proof.
  unfold tuple_of_dict, tuple_of_dict_named. intros ->.
  destruct (namedtuple_names _); [|discriminate]. simpl.
  destruct (namedtuple_fields _); [|discriminate]. reflexivity.
Qed.



Lemma dict_get_update_unique {V} n (x : V) (d e : dict V) :
  NoDup (dict_keys e) -> dict_get n e = Some x ->
  dict_get n (dict_update d e) = Some x.
Proof.
  unfold dict_update. revert d.
  induction e as [|[k y] r IH]; intros d Hnd Hg; simpl in *.
  - discriminate.
  - inversion Hnd as [|? ? Hk Hr]; subst.
    destruct (String.eqb n k) eqn:E.
    + apply String.eqb_eq in E. subst k. inversion Hg; subst y.
      fold (dict_update (dict_set n x d) r).
      rewrite dict_get_update_notin by (apply in_names_not_In; exact Hk).
      rewrite dict_get_set, String.eqb_refl. reflexivity.
    + apply IH; assumption.
Qed.

Lemma NoDup_keys_of_pairs {V} (pairs : list (string * V)) :
  NoDup (dict_keys (dict_of_pairs pairs)).
Proof. unfold dict_of_pairs. apply NoDup_dict_update. constructor. Qed.

Lemma dict_get_zip (names : list string) (args : list value) i n a :
  NoDup names -> nth_error names i = Some n -> nth_error args i = Some a ->
  dict_get n (dict_of_pairs (zip names args)) = Some a.
Proof.
  intros Hnd Hn Ha.
  assert (Hin : In (n, a) (zip names args)).
  { revert i args Hn Ha. clear Hnd.
    induction names as [|x l IH]; intros [|i] [|y m] Hn Ha;
      simpl in *; try discriminate.
    - inversion Hn; inversion Ha; subst. left. reflexivity.
    - right. eapply IH; eauto. }
  destruct (dict_get_update_in _ n [] (zip names args)) as (v & Hv & Hg).
  - apply in_names_In. apply in_map_iff. exists (n, a). split; auto.
  - unfold dict_of_pairs. rewrite Hg. f_equal.
    clear Hg Hn Ha. revert args Hin Hv.
    induction Hnd as [|x l Hx Hl IH]; intros [|y m] Hin Hv;
      simpl in *; try contradiction.
    destruct Hin as [Hin|Hin], Hv as [Hv|Hv].
    + congruence.
    + inversion Hin; subst. apply in_combine_l in Hv. contradiction.
    + inversion Hv; subst. apply in_combine_l in Hin. contradiction.
    + eapply IH; eauto.
Qed.

Lemma check_nonce_get fname (a : dict (option value)) r n :
  check_nonce fname a = Ret r ->
  dict_get n a = option_map Some (dict_get n r).
Proof.
  revert r. induction a as [|[k [x|]] a' IH]; simpl; intros r H.
  - inversion H. reflexivity.
  - destruct (check_nonce fname a') as [r'|]; [|discriminate].
    inversion H; subst. simpl.
    destruct (String.eqb n k); [reflexivity|]. apply IH. reflexivity.
  - discriminate.
Qed.





Lemma getattr_contract_preserver_eq wrapped w :
  getattr_contract_preserver wrapped [fun _ h => (Ret [], h)] w
  = (Ret (preservers_of wrapped w), w, []).
Proof.
  unfold getattr_contract_preserver, preservers_of.
  destruct (contract_preserver wrapped w); reflexivity.
Qed.

Lemma bind_inv {A B} (m : M A) (k : A -> M B) w o w2 t :
  bind m k w = (o, w2, t) ->
  (exists a w1 t1 t2,
     m w = (Ret a, w1, t1) /\ k a w1 = (o, w2, t2) /\ t = (t1 ++ t2)%list)
  \/ (exists e, m w = (Raise e, w2, t) /\ o = Raise e).
Proof.
  unfold bind. destruct (m w) as [[[a|e] w1] t1].
  - destruct (k a w1) as [[o' w3] t2] eqn:E. intros H. inversion H; subst.
    left. exists a, w1, t1, t2. auto.
  - intros H. inversion H; subst. right. exists e. auto.
Qed.

(** A layer whose precondition holds, or that has none, reaches the call
    of the function it wraps when the preservers return. *)
Lemma inner_before_passes c f wrapped args kwargs rargs w h pv w1 t1 :
  layer_rargs c f args kwargs rargs ->
  (if precondition c
   then pred_run (predicate c) [rargs] (w_heap w) = (Ret true, h)
   else h = w_heap w) ->
  run_preservers (preservers_of wrapped w) rargs [] (set_heap h w)
    = (Ret pv, w1, t1) ->
  inner_before c f wrapped args kwargs w
  = (Ret (rargs, pv), w1,
     ((if precondition c then [EvPredicate Pre (description c) [rargs]]
       else []) ++ t1)%list).
Proof.
  intros Hr Hp Hps. unfold inner_before.
  rewrite (inner_before_rargs c f args kwargs rargs _ w Hr).
  destruct (precondition c).
  - unfold bind at 1. unfold bind at 1.
    rewrite (call_predicate_eq _ _ _ _ _ _ Hp). simpl.
    unfold bind at 1. rewrite getattr_contract_preserver_eq.
    rewrite preservers_of_set_heap.
    unfold bind at 1. rewrite Hps.
    unfold ret. simpl. rewrite app_nil_r. reflexivity.
  - subst h. rewrite set_heap_same in Hps.
    unfold bind at 1. unfold ret at 1.
    unfold bind at 1. rewrite getattr_contract_preserver_eq.
    unfold bind at 1. rewrite Hps.
    unfold ret. simpl. rewrite app_nil_r. reflexivity.
Qed.

(** What a layer does before the call leaves in the trace only the events
    of that time. *)
Lemma run_preservers_events ps rargs acc w o w' t :
  run_preservers ps rargs acc w = (o, w', t) -> Forall before_event t.
Proof.
  revert acc w t. induction ps as [|p r IH]; intros acc w t H; simpl in H.
  - inversion H; subst. constructor.
  - unfold bind, call_preserver in H.
    destruct (p rargs (w_heap w)) as [[d|e] h].
    + destruct (run_preservers r rargs (dict_update acc d) (set_heap h w))
        as [[o1 w1] t1] eqn:E.
      inversion H; subst. constructor; [exact I|]. eapply IH; eauto.
    + inversion H; subst. repeat constructor.
Qed.

Lemma inner_before_events c f wrapped args kwargs w o w' t :
  inner_before c f wrapped args kwargs w = (o, w', t) ->
  Forall before_event t.
Proof.
  unfold inner_before. intros H.
  apply bind_inv in H.
  destruct H as [(rargs & wa & ta & tb & Ha & H & ->)|(e & Ha & _)].
  2:{ assert (t = []).
      { destruct (negb (instance c)); [inversion Ha; reflexivity|].
        destruct args; inversion Ha; reflexivity. }
      subst. constructor. }
  assert (ta = [] /\ wa = w).
  { destruct (negb (instance c)); [inversion Ha; auto|].
    destruct args; inversion Ha; auto. }
  destruct H0 as (-> & ->). simpl.
  apply bind_inv in H.
  destruct H as [(u & wb & tc & td & Hb & H & ->)|(e & Hb & _)].
  2:{ destruct (precondition c); [|discriminate].
      apply bind_inv in Hb.
      destruct Hb as [(ok & wc & te & tf & Hb & H & ->)|(e' & Hb & _)].
      - unfold call_predicate, bind, emit, exec in Hb.
        destruct (pred_run _ _ _) as [[x|x] hx]; inversion Hb; subst.
        destruct (negb ok); inversion H; subst; repeat constructor.
      - unfold call_predicate, bind, emit, exec in Hb.
        destruct (pred_run _ _ _) as [[x|x] hx]; inversion Hb; subst.
        repeat constructor. }
  apply Forall_app. split.
  - destruct (precondition c); [|inversion Hb; constructor].
    apply bind_inv in Hb.
    destruct Hb as [(ok & wc & te & tf & Hb & H' & ->)|(e' & Hb & Hx)];
      [|discriminate].
    unfold call_predicate, bind, emit, exec in Hb.
    destruct (pred_run _ _ _) as [[x|x] hx]; inversion Hb; subst.
    destruct (negb ok); inversion H'; subst; repeat constructor.
  - apply bind_inv in H.
    destruct H as [(ps & wc & te & tf & Hc & H & ->)|(e & Hc & _)].
    2:{ rewrite getattr_contract_preserver_eq in Hc. discriminate. }
    rewrite getattr_contract_preserver_eq in Hc. inversion Hc; subst.
    simpl. apply bind_inv in H.
    destruct H as [(pv & wd & tg & th & Hd & H & ->)|(e & Hd & _)].
    + inversion H; subst. rewrite app_nil_r.
      eapply run_preservers_events; eauto.
    + eapply run_preservers_events; eauto.
Qed.

Lemma layers_before_events cs f args kwargs w o w' t :
  layers_before cs f args kwargs w = (o, w', t) -> Forall before_event t.
Proof.
  revert w t. induction cs as [|c r IH]; intros w t H; simpl in H.
  - inversion H; subst. constructor.
  - apply bind_inv in H.
    destruct H as [(rp & wa & ta & tb & Ha & H & ->)|(e & Ha & _)].
    + apply Forall_app. split.
      * eapply inner_before_events; eauto.
      * eapply IH; eauto.
    + eapply inner_before_events; eauto.
Qed.

Lemma stack_wrapped cs f g w w' t :
  stack cs f w = (Ret g, w', t) ->
  get_wrapped_func g = get_wrapped_func f.
Proof.
  revert g w w' t. induction cs as [|c r IH]; simpl; intros g w w' t H.
  - inversion H; subst. reflexivity.
  - apply bind_inv_Ret in H. destruct H as (g' & w1 & t1 & t2 & H1 & H2 & _).
    destruct (condition_inv _ _ _ _ _ _ H2) as (_ & _ & _ & _ & id & ->).
    simpl. rewrite get_wrapped_func_idem. eapply IH; eauto.
Qed.

Lemma build_call_same_wrapped f g args kwargs :
  get_wrapped_func g = get_wrapped_func f ->
  build_call g args kwargs = build_call f args kwargs.
Proof. intros H. unfold build_call. rewrite H. reflexivity. Qed.

(** A layer looks at the function it wraps only through the innermost
    function. *)
Lemma inner_before_same_wrapped c f g args kwargs :
  get_wrapped_func g = get_wrapped_func f ->
  inner_before c g (get_wrapped_func g) args kwargs
  = inner_before c f (get_wrapped_func f) args kwargs.
Proof.
  intros H. unfold inner_before.
  rewrite (build_call_same_wrapped f g args kwargs H), H. reflexivity.
Qed.

Lemma layer_rargs_same_wrapped c f g args kwargs rargs :
  get_wrapped_func g = get_wrapped_func f ->
  layer_rargs c f args kwargs rargs -> layer_rargs c g args kwargs rargs.
Proof.
  intros H. unfold layer_rargs.
  rewrite (build_call_same_wrapped f g args kwargs H). auto.
Qed.

Lemma layers_pass_before cs f args kwargs w w' t :
  layers_pass cs f args kwargs w w' t ->
  layers_before cs f args kwargs w = (Ret tt, w', t).
Proof.
  revert w t. induction cs as [|c r IH]; simpl; intros w t H.
  - destruct H as [-> ->]. reflexivity.
  - destruct H as (rargs & h & pv & w1 & t1 & t2 & Hr & Hp & Hps & Hrest & ->).
    unfold bind.
    rewrite (inner_before_passes _ _ _ _ _ _ _ _ _ _ _ Hr Hp Hps).
    rewrite (IH _ _ Hrest). unfold precondition_trace.
    rewrite <- app_assoc. reflexivity.
Qed.

(** C2, as amended.  In a stack of conditions on [f], let the layers before
    the k-th let the call through: their preconditions hold and the
    preservers return, each in the world that the code before it left.  Let
    the predicate of the k-th precondition return false then.  The call
    raises the [PreconditionError] of the k-th condition, with its
    description and errno, and the user code that ran is that of the layers
    before, then the k-th predicate; the events of the layers before are
    predicates of preconditions and preservers: no body, no postcondition
    predicate, no clean-up. *)
Theorem stacked_precondition_violation
    (before : list contract) (ck : contract) (after : list contract)
    (f g : func) (w0 w0' : world) (t0 : trace)
    (args : list value) (kwargs : dict value) (rargs : value)
    (w w1 : world) (t1 : trace) (h : heap) :
  stack (before ++ ck :: after) f w0 = (Ret g, w0', t0) ->
  layers_pass before f args kwargs w w1 t1 ->
  precondition ck = true ->
  layer_rargs ck f args kwargs rargs ->
  pred_run (predicate ck) [rargs] (w_heap w1) = (Ret false, h) ->
  call g args kwargs w
  = (Raise (PreconditionError (description ck) (errno ck)), set_heap h w1,
     (t1 ++ [EvPredicate Pre (description ck) [rargs]])%list)
  /\ Forall before_event t1.
Proof.
  intros Hs Hbefore Hpre Hr Hp. apply layers_pass_before in Hbefore.
  split; [|eapply layers_before_events; eauto].
  revert g w0 w0' t0 w t1 Hs Hbefore.
  induction before as [|c r IH]; intros g w0 w0' t0 w t1 Hs Hbefore;
    simpl in Hs.
  - simpl in Hbefore. inversion Hbefore; subst.
    apply bind_inv_Ret in Hs.
    destruct Hs as (g' & wa & ta & tb & H1 & H2 & _).
    destruct (condition_inv _ _ _ _ _ _ H2) as (_ & _ & _ & _ & id & ->).
    rewrite call_CondInner. unfold condition_inner.
    erewrite bind_Raise; [reflexivity|].
    apply inner_before_fails; try assumption.
    apply (layer_rargs_same_wrapped ck f g'); [|assumption].
    eapply stack_wrapped; eauto.
  - apply bind_inv_Ret in Hs.
    destruct Hs as (g' & wa & ta & tb & H1 & H2 & _).
    destruct (condition_inv _ _ _ _ _ _ H2) as (_ & _ & _ & _ & id & ->).
    simpl in Hbefore. apply bind_inv_Ret in Hbefore.
    destruct Hbefore as (rp & wb & tc & td & Hc & Hrest & ->).
    assert (Hw : get_wrapped_func g' = get_wrapped_func f)
      by (eapply stack_wrapped; eauto).
    rewrite call_CondInner. unfold condition_inner.
    rewrite <- (inner_before_same_wrapped c f g' args kwargs Hw) in Hc.
    rewrite (bind_Ret _ _ _ _ _ _ Hc).
    erewrite bind_Raise by (eapply IH; eauto).
    rewrite <- app_assoc. reflexivity.
Qed.

(** ** The evaluator after the call *)

Lemma condition_inner_after call_f c f wrapped args kwargs w
      rargs pv w1 t1 result w2 t2 :
  inner_before c f wrapped args kwargs w = (Ret (rargs, pv), w1, t1) ->
  call_f args kwargs w1 = (Ret result, w2, t2) ->
  condition_inner call_f c f wrapped args kwargs w
  = match inner_after c rargs pv result args kwargs w2 with
    | (o, w3, t3) => (o, w3, (t1 ++ t2 ++ t3)%list)
    end.
Proof.
  intros Hb Hc. unfold condition_inner.
  rewrite (bind_Ret _ _ _ _ _ _ Hb). rewrite (bind_Ret _ _ _ _ _ _ Hc).
  simpl. destruct (inner_after c rargs pv result args kwargs w2) as [[o w3] t3].
  reflexivity.
Qed.

Lemma condition_inner_raises call_f c f wrapped args kwargs w
      rargs pv w1 t1 e w2 t2 :
  inner_before c f wrapped args kwargs w = (Ret (rargs, pv), w1, t1) ->
  call_f args kwargs w1 = (Raise e, w2, t2) ->
  condition_inner call_f c f wrapped args kwargs w
  = (Raise e, w2, (t1 ++ t2)%list).
Proof.
  intros Hb Hc. unfold condition_inner.
  rewrite (bind_Ret _ _ _ _ _ _ Hb). rewrite (bind_Raise _ _ _ _ _ _ Hc).
  reflexivity.
Qed.

Lemma bind_lift_Ret {A B} (a : A) (k : A -> M B) w :
  bind (lift (Ret a)) k w = k a w.
Proof. unfold bind, lift. destruct (k a w) as [[o w'] t]. reflexivity. Qed.

Lemma check_after (c : contract) (pargs : list value) (result : value)
      (args : list value) (kwargs : dict value) (w : world)
      (o : outcome bool) (h : heap) :
  pred_run (predicate c) pargs (w_heap w) = (o, h) ->
  bind (bind (call_predicate Post c pargs)
             (fun check => if negb check
                           then postcondition_failed c args kwargs
                           else ret tt))
       (fun _ => ret result) w
  = match o with
    | Ret true =>
        (Ret result, set_heap h w, [EvPredicate Post (description c) pargs])
    | Ret false =>
        match postcondition_failed c args kwargs (set_heap h w) with
        | (Ret _, w', t) =>
            (Ret result, w', EvPredicate Post (description c) pargs :: t)
        | (Raise e, w', t) =>
            (Raise e, w', EvPredicate Post (description c) pargs :: t)
        end
    | Raise e =>
        (Raise e, set_heap h w, [EvPredicate Post (description c) pargs])
    end.
Proof.
  intros H. unfold bind at 1. unfold bind at 1.
  rewrite (call_predicate_eq _ _ _ _ _ _ H).
  destruct o as [[|]|e]; simpl; try reflexivity.
  destruct (postcondition_failed c args kwargs (set_heap h w))
    as [[[u|e] w'] t]; simpl; try rewrite app_nil_r; reflexivity.
Qed.

(** The check after the call, when the predicate gets [pargs]. *)
Lemma inner_after_check (c : contract) (rargs : value) (pv : dict value)
      (result : value) (args : list value) (kwargs : dict value) (w : world)
      (pargs : list value) (o : outcome bool) (h : heap) :
  instance c = true \/ postcondition c = true ->
  post_pargs c rargs pv result = Ret pargs ->
  pred_run (predicate c) pargs (w_heap w) = (o, h) ->
  inner_after c rargs pv result args kwargs w
  = match o with
    | Ret true =>
        (Ret result, set_heap h w, [EvPredicate Post (description c) pargs])
    | Ret false =>
        match postcondition_failed c args kwargs (set_heap h w) with
        | (Ret _, w', t) =>
            (Ret result, w', EvPredicate Post (description c) pargs :: t)
        | (Raise e, w', t) =>
            (Raise e, w', EvPredicate Post (description c) pargs :: t)
        end
    | Raise e =>
        (Raise e, set_heap h w, [EvPredicate Post (description c) pargs])
    end.
Proof.
  intros Hk Hp Hrun. rewrite <- (check_after c pargs result args kwargs w o h Hrun).
  unfold inner_after, post_pargs in *.
  destruct (instance c).
  - inversion Hp; subst. reflexivity.
  - destruct Hk as [Hk|Hk]; [discriminate|]. rewrite Hk.
    destruct (Nat.eqb (pred_arg_count (predicate c)) 3).
    + destruct (tuple_of_dict pv) as [old|e]; [|discriminate].
      simpl in Hp. inversion Hp; subst.
      unfold bind at 1. unfold bind at 1. rewrite bind_lift_Ret.
      reflexivity.
    + inversion Hp; subst. reflexivity.
Qed.

Lemma postcondition_failed_clean_up c cu args kwargs w :
  clean_up c = Some cu ->
  postcondition_failed c args kwargs w
  = match cu args kwargs (w_heap w) with
    | (Ret _, h) =>
        (Raise (PostconditionError (description c) (errno c)),
         set_heap h w, [EvCleanUp args kwargs])
    | (Raise e, h) =>
        (Raise (PostconditionError
                  (description c ++ ". Clean up failed: " ++ exn_str e)
                  (errno c)),
         set_heap h w, [EvCleanUp args kwargs])
    end.
Proof.
  intros H. unfold postcondition_failed. rewrite H.
  unfold bind, try_except, emit, exec, raise. simpl.
  destruct (cu args kwargs (w_heap w)) as [[u|e] h]; reflexivity.
Qed.

Lemma postcondition_failed_plain c args kwargs w :
  clean_up c = None ->
  postcondition_failed c args kwargs w
  = (Raise (PostconditionError (description c) (errno c)), w, []).
Proof. intros H. unfold postcondition_failed. rewrite H. reflexivity. Qed.

(** The clean-up action where the contract has one.  Let a postcondition
    layer have a clean-up action, and let its predicate return false after
    the wrapped function returned.  Then the clean-up action runs, on the
    arguments of the call and with its effect on the heap, and the call
    raises [PostconditionError] with the errno of the condition: with its
    description when the clean-up returned, and with the description
    followed by ". Clean up failed: " and the text of the error when the
    clean-up raised. *)
Lemma postcondition_failure_after_clean_up
    (c : contract) (cu : cleanup_fn) (f g : func)
    (w0 w0' : world) (t0 : trace)
    (args : list value) (kwargs : dict value) (w w1 w2 : world)
    (rargs : value) (pv : dict value) (t1 t2 : trace)
    (result : value) (pargs : list value) (h : heap) :
  condition c f w0 = (Ret g, w0', t0) ->
  postcondition c = true ->
  clean_up c = Some cu ->
  inner_before c f (get_wrapped_func f) args kwargs w
    = (Ret (rargs, pv), w1, t1) ->
  call f args kwargs w1 = (Ret result, w2, t2) ->
  post_pargs c rargs pv result = Ret pargs ->
  pred_run (predicate c) pargs (w_heap w2) = (Ret false, h) ->
  call g args kwargs w
  = (Raise (PostconditionError
              match fst (cu args kwargs h) with
              | Ret _ => description c
              | Raise e =>
                  description c ++ ". Clean up failed: " ++ exn_str e
              end (errno c)),
     set_heap (snd (cu args kwargs h)) w2,
     (t1 ++ t2 ++ [EvPredicate Post (description c) pargs;
                   EvCleanUp args kwargs])%list).
Proof.
  intros Hc Hpost Hcu Hb Hf Hpa Hp.
  destruct (condition_inv _ _ _ _ _ _ Hc) as (_ & _ & _ & _ & id & ->).
  rewrite call_CondInner.
  rewrite (condition_inner_after _ _ _ _ _ _ _ _ _ _ _ _ _ _ Hb Hf).
  rewrite (inner_after_check _ _ _ _ _ _ _ pargs _ _ (or_intror Hpost) Hpa Hp).
  rewrite (postcondition_failed_clean_up _ _ _ _ _ Hcu).
  simpl w_heap.
  destruct (cu args kwargs h) as [[u|e] h']; reflexivity.
Qed.

(** C8, as amended.  Let the layer be a precondition whose predicate returns
    true on every argument and changes nothing.  On an input that
    [build_call] normalizes, and on which the preservers registered on the
    function, if any, return and change nothing, the call of the wrapped
    function has the outcome and the effect on the world of the call of the
    function itself; the trace has in front what the layer ran. *)
Theorem true_precondition_is_transparent
    (c : contract) (f g : func) (w0 w0' : world) (t0 : trace)
    (args : list value) (kwargs : dict value) (rargs : value) (w : world)
    (pv : dict value) (t1 : trace) :
  condition c f w0 = (Ret g, w0', t0) ->
  precondition c = true -> postcondition c = false -> instance c = false ->
  (forall pargs h, pred_run (predicate c) pargs h = (Ret true, h)) ->
  build_call f args kwargs = Ret rargs ->
  run_preservers (preservers_of (get_wrapped_func f) w) rargs [] w
    = (Ret pv, w, t1) ->
  call g args kwargs w
  = with_trace_prefix (EvPredicate Pre (description c) [rargs] :: t1)
                      (call f args kwargs w).
Proof.
  intros Hc Hpre Hpost Hinst Htrue Hb Hps.
  destruct (condition_inv _ _ _ _ _ _ Hc) as (_ & _ & _ & _ & id & ->).
  rewrite call_CondInner.
  assert (Hbefore := inner_before_passes c f (get_wrapped_func f) args kwargs
                       rargs w (w_heap w) pv w t1).
  unfold layer_rargs in Hbefore. rewrite Hinst, Hpre in Hbefore.
  rewrite set_heap_same in Hbefore.
  specialize (Hbefore Hb (Htrue _ _) Hps).
  destruct (call f args kwargs w) as [[[result|e] w'] t] eqn:Hf.
  - rewrite (condition_inner_after _ _ _ _ _ _ _ _ _ _ _ _ _ _ Hbefore Hf).
    unfold inner_after. rewrite Hinst, Hpost. simpl.
    rewrite app_nil_r. reflexivity.
  - rewrite (condition_inner_raises _ _ _ _ _ _ _ _ _ _ _ _ _ _ Hbefore Hf).
    reflexivity.
Qed.

Lemma condition_asserts_three c :
  condition_asserts c = Ret tt -> pred_arg_count (predicate c) = 3 ->
  instance c = false /\ precondition c = false /\ postcondition c = true.
Proof.
  unfold condition_asserts. intros H H3. rewrite H3 in H. simpl in H.
  destruct (Nat.eqb (String.length (description c)) 0); [discriminate|].
  destruct (instance c), (precondition c), (postcondition c);
    simpl in H; try discriminate; auto.
Qed.

Lemma postcondition_failed_raises c args kwargs w :
  exists d w' t,
    postcondition_failed c args kwargs w
    = (Raise (PostconditionError d (errno c)), w', t).
Proof.
  destruct (clean_up c) as [cu|] eqn:E.
  - rewrite (postcondition_failed_clean_up _ _ _ _ _ E).
    destruct (cu args kwargs (w_heap w)) as [[u|e] h]; eauto.
  - rewrite (postcondition_failed_plain _ _ _ _ E). eauto.
Qed.

(** The snapshot where it works.  Let a postcondition layer have a predicate
    of three arguments, and let [ps] be the preservers registered, at the
    time of the call, on the function object that the layer resolved its link
    to (as when [preserve] is applied above the layer).  A call
    through the layer runs every preserver of [ps], in order, on the record
    of the arguments, before it calls the wrapped function; when that
    returns, the predicate runs, in the heap that the call left, on the
    record, the result and the snapshot: the record of the mappings that the
    preservers returned before the call, merged in order. *)
Lemma snapshot_reaches_postcondition
    (c : contract) (f g : func) (w0 w0' : world) (t0 : trace)
    (args : list value) (kwargs : dict value) (rargs : value) (w : world)
    (ps : list preserver_fn) (pv : dict value) (w1 : world) (t1 : trace)
    (old result : value) (w2 : world) (t2 : trace)
    (o : outcome bool) (h : heap) :
  condition c f w0 = (Ret g, w0', t0) ->
  pred_arg_count (predicate c) = 3 ->
  build_call f args kwargs = Ret rargs ->
  contract_preserver (get_wrapped_func f) w = Some ps ->
  run_preservers ps rargs [] w = (Ret pv, w1, t1) ->
  tuple_of_dict pv = Ret old ->
  call f args kwargs w1 = (Ret result, w2, t2) ->
  pred_run (predicate c) [rargs; result; old] (w_heap w2) = (o, h) ->
  old = VNamed "Args" pv /\
  exists o' w3 t3,
    call g args kwargs w
    = (o', w3,
       (t1 ++ t2
        ++ EvPredicate Post (description c) [rargs; result; old] :: t3)%list)
    /\ (o = Ret true -> o' = Ret result /\ w3 = set_heap h w2 /\ t3 = [])
    /\ (o = Ret false ->
        exists d, o' = Raise (PostconditionError d (errno c))).
Proof.
  intros Hc H3 Hb Hreg Hps Hold Hf Hrun.
  split; [apply tuple_of_dict_inv; exact Hold|].
  destruct (condition_inv _ _ _ _ _ _ Hc) as (Ha & _ & _ & _ & id & ->).
  destruct (condition_asserts_three _ Ha H3) as (Hinst & Hpre & Hpost).
  assert (Hpo : preservers_of (get_wrapped_func f) w = ps)
    by (unfold preservers_of; rewrite Hreg; reflexivity).
  assert (Hbefore := inner_before_passes c f (get_wrapped_func f) args kwargs
                       rargs w (w_heap w) pv w1 t1).
  unfold layer_rargs in Hbefore. rewrite Hinst, Hpre, Hpo in Hbefore.
  rewrite set_heap_same in Hbefore.
  specialize (Hbefore Hb eq_refl Hps). simpl in Hbefore.
  rewrite call_CondInner.
  rewrite (condition_inner_after _ _ _ _ _ _ _ _ _ _ _ _ _ _ Hbefore Hf).
  rewrite (inner_after_check _ _ _ _ _ _ _ [rargs; result; old] o h
             (or_intror Hpost)); [| |exact Hrun].
  2:{ unfold post_pargs. rewrite Hinst, H3, Hold. reflexivity. }
  destruct o as [[|]|e].
  - exists (Ret result), (set_heap h w2), [].
    repeat split; intros; discriminate.
  - destruct (postcondition_failed_raises c args kwargs (set_heap h w2))
      as (d & w' & t & ->).
    exists (Raise (PostconditionError d (errno c))), w', t.
    split; [reflexivity|]. split; [intros; discriminate|eauto].
  - exists (Raise e), (set_heap h w2), [].
    repeat split; intros; discriminate.
Qed.

(** [preserve] adds the preserver at the end of the list of the function
    object that [f] resolves to, and the wrapper it returns calls [f]. *)
Lemma preserve_registers p f w g w' t :
  preserve p f w = (Ret g, w', t) ->
  attributes_wf w ->
  func_id (get_wrapped_func f) <> w_next w ->
  contract_preserver (get_wrapped_func f) w'
  = Some (match contract_preserver (get_wrapped_func f) w with
          | Some ps => ps ++ [p]
          | None => [p]
          end)%list
  /\ w_heap w' = w_heap w
  /\ forall args kwargs, call g args kwargs = call f args kwargs.
Proof.
  intros H Hwf Hfresh.
  unfold preserve, bind, fresh_id, wraps_dict, append_preserver, ret in H.
  simpl in H.
  apply Nat.eqb_neq in Hfresh.
  unfold contract_preserver.
  destruct (nat_assoc (func_id f) (w_preserver_attr w)) as [lf|] eqn:Ef;
    simpl in H; try rewrite Hfresh in H;
    destruct (nat_assoc (func_id (get_wrapped_func f)) (w_preserver_attr w))
      as [l|] eqn:El;
    inversion H; subst; clear H; simpl; try rewrite Hfresh;
    try rewrite El; try rewrite Nat.eqb_refl; repeat split; f_equal.
  - assert (Hl := Hwf _ _ El).
    rewrite app_nth2; rewrite length_firstn, Nat.min_l by auto with arith;
      [|auto with arith].
    rewrite Nat.sub_diag. reflexivity.
  - rewrite app_nth2 by auto with arith. rewrite Nat.sub_diag. reflexivity.
  - assert (Hl := Hwf _ _ El).
    rewrite app_nth2; rewrite length_firstn, Nat.min_l by auto with arith;
      [|auto with arith].
    rewrite Nat.sub_diag. reflexivity.
  - rewrite app_nth2 by auto with arith. rewrite Nat.sub_diag. reflexivity.
Qed.

(** ** The transformer and the catch-all *)

Lemma transform_inv t f g w w' tr :
  transform t f w = (Ret g, w', tr) ->
  exists id,
    g = Func id (func_name f) inner_spec true (contract_wrapped_func f)
             (TransformInner t f).
Proof.
  unfold transform, bind, fresh_id, wraps_dict, ret. simpl.
  destruct (nat_assoc (func_id f) (w_preserver_attr w));
    intros H; inversion H; subst; eauto.
Qed.

(** A named argument that no parameter takes is refused when there is no
    catch-all for named arguments. *)
Lemma bind_keywords_unexpected fname spec kwargs locals kw k :
  varkw spec = None ->
  in_names k (named spec ++ kwonly spec) = false ->
  in_names k (dict_keys kwargs) = true ->
  exists msg, bind_keywords fname spec kwargs locals kw = Raise (TypeError msg).
Proof.
  intros Hkw Hk. revert locals kw.
  induction kwargs as [|[k0 v0] r IH]; intros locals kw Hin; simpl in *.
  - discriminate.
  - destruct (in_names k0 (named spec ++ kwonly spec)) eqn:E0.
    + assert (Hr : in_names k (dict_keys r) = true).
      { destruct (String.eqb k k0) eqn:E; [|exact Hin].
        apply String.eqb_eq in E. subst. rewrite E0 in Hk. discriminate. }
      destruct (dict_get k0 locals) as [[x|]|]; eauto.
    + rewrite Hkw. eauto.
Qed.

(** An exception of the function under a stack of contracts whose layers
    let the call through passes through all of them. *)
Lemma stack_call_raises cs f0 f w0 w1 t0 args kwargs w w2 tb e w3 tc :
  stack cs f0 w0 = (Ret f, w1, t0) ->
  layers_before cs f0 args kwargs w = (Ret tt, w2, tb) ->
  call f0 args kwargs w2 = (Raise e, w3, tc) ->
  call f args kwargs w = (Raise e, w3, (tb ++ tc)%list).
Proof.
  revert f w0 w1 t0 w tb.
  induction cs as [|c r IH]; intros f w0 w1 t0 w tb Hs Hb Hf; simpl in *.
  - inversion Hs; subst. inversion Hb; subst. exact Hf.
  - apply bind_inv_Ret in Hs.
    destruct Hs as (g' & wa & ta & ta' & H1 & H2 & _).
    destruct (condition_inv _ _ _ _ _ _ H2) as (_ & _ & _ & _ & id & ->).
    apply bind_inv_Ret in Hb.
    destruct Hb as ([rargs pv] & wb & tc' & td & Hc & Hrest & ->).
    assert (Hw : get_wrapped_func g' = get_wrapped_func f0)
      by (eapply stack_wrapped; eauto).
    rewrite call_CondInner.
    rewrite <- (inner_before_same_wrapped c f0 g' args kwargs Hw) in Hc.
    rewrite (condition_inner_raises _ _ _ _ _ _ _ _ _ _ _ _ _ _ Hc
               (IH _ _ _ _ _ _ H1 Hrest Hf)).
    rewrite <- app_assoc. reflexivity.
Qed.

(** C10, as amended.  Let a function declare a catch-all for positional
    arguments and none for named arguments, and let it be plain or under a
    stack of contracts.  A call of the transformed function raises a
    [TypeError]: that of [build_call], when it has one; and, when
    [build_call] normalizes the arguments, the transformer returns a record
    that still has the field of the catch-all, and the contracts let the
    call with that record through, the one of the function itself, because
    the record goes to the function as named arguments and no parameter
    takes the name of the catch-all.  The body of the function does not
    run. *)
Theorem transform_catch_all_type_error
    (t : transformer_fn) (cs : list contract)
    (id : nat) (name : string) (spec : argspec) (b : bool) (body : body_fn)
    (f g : func) (w0 w1 w1' : world) (t0 t1 : trace)
    (va : string) (args : list value) (kwargs : dict value) (w : world) :
  stack cs (Func id name spec b None (Def body)) w0 = (Ret f, w1, t0) ->
  transform t f w1 = (Ret g, w1', t1) ->
  vargs spec = Some va ->
  varkw spec = None ->
  in_names va (named spec ++ kwonly spec) = false ->
  (forall m,
     build_call (Func id name spec b None (Def body)) args kwargs
       = Raise (TypeError m) ->
     call g args kwargs w = (Raise (TypeError m), w, [])) /\
  (forall r tn fields h w2 tb,
     build_call (Func id name spec b None (Def body)) args kwargs = Ret r ->
     t r (w_heap w) = (Ret (VNamed tn fields), h) ->
     in_names va (dict_keys fields) = true ->
     layers_pass cs (Func id name spec b None (Def body)) [] fields
       (set_heap h w) w2 tb ->
     exists msg,
       call g args kwargs w
       = (Raise (TypeError msg), w2, EvTransformer r :: tb)
       /\ Forall before_event tb).
Proof.
  intros Hs Ht Hva Hkw Hnames.
  destruct (transform_inv _ _ _ _ _ _ Ht) as (id' & ->).
  assert (Hsame : build_call f args kwargs
                  = build_call (Func id name spec b None (Def body))
                      args kwargs)
    by (apply build_call_same_wrapped; eapply stack_wrapped; eauto).
  split.
  - intros m Hb. cbn [call]. unfold transform_inner.
    unfold bind at 1. unfold lift at 1. rewrite Hsame, Hb. reflexivity.
  - intros r tn fields h w2 tb Hb Hr Hin Hlayers.
    apply layers_pass_before in Hlayers.
    destruct (bind_keywords_unexpected name spec fields
                (dict_update
                   (dict_of_pairs
                      (map (fun x => (x, None)) (named spec ++ kwonly spec)))
                   (map (fun kv => (fst kv, Some (snd kv)))
                        (combine (named spec) [])))
                [] va Hkw Hnames Hin) as (msg & Hm).
    exists msg. split; [|eapply layers_before_events; eauto].
    assert (Hf0 : call (Func id name spec b None (Def body)) [] fields w2
                  = (Raise (TypeError msg), w2, [])).
    { simpl. unfold bind, lift, bind_arguments. rewrite Hm. reflexivity. }
    assert (Hcall := stack_call_raises _ _ _ _ _ _ _ _ _ _ _ _ _ _
                       Hs Hlayers Hf0).
    rewrite app_nil_r in Hcall.
    cbn [call]. unfold transform_inner.
    unfold bind at 1. unfold lift at 1. rewrite Hsame, Hb.
    unfold bind at 1. unfold emit at 1.
    unfold bind at 1. unfold exec at 1. rewrite Hr.
    unfold bind at 1. unfold lift at 1. simpl asdict.
    cbn iota. rewrite Hcall. reflexivity.
Qed.

(** ** Class invariants *)

Lemma inner_before_predicate_raises c f wrapped args kwargs rargs w e h :
  precondition c = true ->
  layer_rargs c f args kwargs rargs ->
  pred_run (predicate c) [rargs] (w_heap w) = (Raise e, h) ->
  inner_before c f wrapped args kwargs w
  = (Raise e, set_heap h w, [EvPredicate Pre (description c) [rargs]]).
Proof.
  intros Hpre Hr Hp. unfold inner_before.
  rewrite (inner_before_rargs c f args kwargs rargs _ w Hr). rewrite Hpre.
  unfold bind at 1. unfold bind at 1. unfold bind at 1.
  rewrite (call_predicate_eq _ _ _ _ _ _ Hp). reflexivity.
Qed.

(** *** The names *)

Lemma startswith_iff p s :
  startswith p s = true <-> exists rest, s = p ++ rest.
Proof.
  unfold startswith. revert s.
  induction p as [|a p IH]; intros s; simpl.
  - split; [intros _; exists s; reflexivity|].
    intros _. destruct s; reflexivity.
  - destruct s as [|b s]; simpl.
    + split; [discriminate|intros (rest & H); discriminate].
    + destruct (ascii_dec a b) as [->|Hab].
      * rewrite IH. split; intros (rest & H); exists rest.
        -- subst. reflexivity.
        -- inversion H. reflexivity.
      * split; [discriminate|].
        intros (rest & H). inversion H. subst. contradiction Hab; reflexivity.
Qed.

Lemma list_ascii_of_string_app a b :
  list_ascii_of_string (a ++ b)
  = (list_ascii_of_string a ++ list_ascii_of_string b)%list.
Proof. induction a as [|x a IH]; simpl; [reflexivity|]. rewrite IH. reflexivity. Qed.

Lemma string_of_list_ascii_app l m :
  string_of_list_ascii (l ++ m)
  = string_of_list_ascii l ++ string_of_list_ascii m.
Proof. induction l as [|x l IH]; simpl; [reflexivity|]. rewrite IH. reflexivity. Qed.

Lemma reversed_app a b : reversed (a ++ b) = reversed b ++ reversed a.
Proof.
  unfold reversed.
  rewrite list_ascii_of_string_app, rev_app_distr, string_of_list_ascii_app.
  reflexivity.
Qed.

Lemma reversed_reversed s : reversed (reversed s) = s.
Proof.
  unfold reversed. rewrite list_ascii_of_string_of_list_ascii, rev_involutive.
  apply string_of_list_ascii_of_string.
Qed.

Lemma endswith_iff p s :
  endswith p s = true <-> exists front, s = front ++ p.
Proof.
  unfold endswith. fold (reversed p). fold (reversed s).
  rewrite startswith_iff. split.
  - intros (rest & H). exists (reversed rest).
    rewrite <- (reversed_reversed s), H, reversed_app, reversed_reversed.
    reflexivity.
  - intros (front & ->). exists (reversed front). apply reversed_app.
Qed.

(** The test of the code is the private style of the specification, and
    its tuple of exceptions holds the allow-list and the initializer. *)
Lemma dunder_private_style name :
  dunder name = true <-> private_style name.
Proof.
  unfold dunder, private_style.
  rewrite andb_true_iff, startswith_iff, endswith_iff. reflexivity.
Qed.

Lemma exceptions_allow_list name :
  in_names name exceptions = true
  <-> In name allow_list \/ name = "__init__".
Proof.
  rewrite in_names_In.
  change exceptions with (allow_list ++ ["__init__"])%list.
  rewrite in_app_iff. simpl. intuition auto.
Qed.

Lemma check_private name m :
  private_style name -> ~ In name allow_list -> name <> "__init__" ->
  check name m = false.
Proof.
  intros Hp Ha Hi. unfold check. fold (dunder name).
  rewrite (proj2 (dunder_private_style name) Hp).
  destruct (in_names name exceptions) eqn:E; [|reflexivity].
  apply exceptions_allow_list in E. destruct E; contradiction.
Qed.

Lemma check_classmethod name f ismethod :
  check name (Callable f ismethod true) = false.
Proof.
  unfold check. destruct (_ && _); [reflexivity|].
  destruct (negb ismethod && negb (isfunction f)); reflexivity.
Qed.

Lemma check_data name v : check name (Data v) = false.
Proof. unfold check. destruct (_ && _); reflexivity. Qed.

Lemma check_not_a_function name f :
  isfunction f = false -> check name (Callable f false false) = false.
Proof.
  intros H. unfold check. destruct (_ && _); [reflexivity|].
  rewrite H. reflexivity.
Qed.

Lemma check_eligible name f ismethod :
  isfunction f = true ->
  ~ private_style name \/ In name allow_list \/ name = "__init__" ->
  check name (Callable f ismethod false) = true.
Proof.
  intros Hf Hname. unfold check. fold (dunder name).
  assert (Hn : dunder name && negb (in_names name exceptions) = false).
  { destruct Hname as [Hn|Hn].
    - destruct (dunder name) eqn:E; [|reflexivity].
      apply dunder_private_style in E. contradiction.
    - rewrite (proj2 (exceptions_allow_list name) Hn).
      apply andb_false_r. }
  rewrite Hn, Hf. rewrite andb_false_r. reflexivity.
Qed.

(** The same, with the test of the code. *)
Lemma check_function name f :
  isfunction f = true ->
  dunder name = false \/ in_names name exceptions = true ->
  check name (Callable f false false) = true.
Proof.
  intros Hf Hname. apply check_eligible; [exact Hf|].
  destruct Hname as [H|H].
  - left. intros Hp. apply dunder_private_style in Hp. congruence.
  - right. apply exceptions_allow_list. exact H.
Qed.

(** *** The layer *)

Lemma bind_assoc {A B C} (m : M A) (k : A -> M B) (k' : B -> M C) w :
  bind (bind m k) k' w = bind m (fun a => bind (k a) k') w.
Proof.
  unfold bind. destruct (m w) as [[[a|e] w1] t1]; [|reflexivity].
  destruct (k a w1) as [[[b|e] w2] t2]; [|reflexivity].
  destruct (k' b w2) as [[o w3] t3]. rewrite app_assoc. reflexivity.
Qed.

Lemma bind_ret_l {A B} (a : A) (k : A -> M B) w : bind (ret a) k w = k a w.
Proof. unfold bind, ret. destruct (k a w) as [[o w'] t]. reflexivity. Qed.

Lemma bind_raise_l {A B} e (k : A -> M B) w :
  bind (raise e) k w = raise e w.
Proof. reflexivity. Qed.

Lemma bind_cong {A B} (m m' : M A) (k k' : A -> M B) w :
  m w = m' w -> (forall a w', k a w' = k' a w') ->
  bind m k w = bind m' k' w.
Proof.
  intros Hm H. unfold bind. rewrite Hm.
  destruct (m' w) as [[[a|e] w1] t1]; [|reflexivity].
  rewrite H. reflexivity.
Qed.

(** The layer that [invariant] puts around a method is a checked call. *)
Lemma invariant_layer_checked desc p name f id nm self rest kwargs w :
  call (Func id nm inner_spec true (Some (get_wrapped_func f))
          (CondInner (invariant_contract desc p name) f (get_wrapped_func f)))
       (self :: rest) kwargs w
  = checked_call desc p (negb (String.eqb name "__init__")) f self rest
      kwargs w.
Proof.
  rewrite call_CondInner.
  unfold condition_inner, inner_before, checked_call.
  cbn [instance precondition invariant_contract negb].
  rewrite bind_assoc, bind_ret_l, bind_assoc.
  apply bind_cong.
  { destruct (negb (String.eqb name "__init__")); [|reflexivity].
    apply bind_cong; [reflexivity|]. intros [|] w'; reflexivity. }
  intros _ w1. rewrite bind_assoc.
  apply bind_cong; [apply getattr_contract_preserver_eq|].
  intros ps w2. rewrite bind_assoc.
  apply bind_cong; [reflexivity|].
  intros pv w3. rewrite bind_ret_l. cbn [fst snd].
  apply bind_cong; [reflexivity|].
  intros result w4. unfold inner_after.
  cbn [instance invariant_contract]. rewrite bind_assoc.
  apply bind_cong; [reflexivity|].
  intros [|] w5; reflexivity.
Qed.

(** C3.  The class that [invariant] derives has a member for every member of
    the given class, under the same name and at the same place.  A member
    under a name in the private style that is neither in the allow-list nor
    that of the initializer, a member bound to the class (a classmethod), a
    data attribute and an object that is neither method nor function are
    the members of the given class.  A function under any other name is
    replaced by a function whose calls with a receiver are checked calls:
    the invariant is evaluated on the receiver before the call, unless the
    name is that of the initializer, and after it. *)
Theorem invariant_checks_eligible_methods
    (desc : string) (p : predicate_fn) (c c' : class)
    (w0 w0' : world) (t0 : trace) (i : nat) (name : string) (m : member) :
  invariant desc p c w0 = (Ret c', w0', t0) ->
  nth_error c i = Some (name, m) ->
  exists m',
    nth_error c' i = Some (name, m') /\ derived_member desc p name m m'.
Proof.
  unfold invariant, derived_member. revert c' w0 w0' t0 i.
  induction c as [|[name0 value0] r IH]; intros c' w0 w0' t0 i H Hn.
  - destruct i; discriminate.
  - simpl in H. apply bind_inv_Ret in H.
    destruct H as (value' & w1 & t1 & t2 & Hv & H & _).
    apply bind_inv_Ret in H.
    destruct H as (r' & w2 & t3 & t4 & Hr & H & _).
    inversion H; subst. clear H.
    destruct i as [|i]; simpl in Hn.
    2:{ destruct (IH _ _ _ _ i Hr Hn) as (m' & Hm' & Hrest).
        exists m'. split; [exact Hm'|exact Hrest]. }
    inversion Hn; subst. clear Hn IH Hr.
    exists value'. split; [reflexivity|].
    destruct (check name m) eqn:Hc.
    + split; [|split; [|split; [|split]]].
      * intros Hp Ha Hi. rewrite (check_private name m Hp Ha Hi) in Hc.
        discriminate.
      * intros f im ->. rewrite check_classmethod in Hc. discriminate.
      * intros v ->. rewrite check_data in Hc. discriminate.
      * intros f -> Hf. rewrite (check_not_a_function name f Hf) in Hc.
        discriminate.
      * intros f im -> Hfun _.
        apply bind_inv_Ret in Hv.
        destruct Hv as (g & w' & ta & tb & Hg & Hv & _).
        inversion Hv; subst.
        destruct (condition_inv _ _ _ _ _ _ Hg)
          as (_ & _ & _ & _ & id & ->).
        eexists. split; [reflexivity|]. split.
        -- intros Hname self rest kwargs w.
           rewrite invariant_layer_checked.
           apply String.eqb_neq in Hname. rewrite Hname. reflexivity.
        -- intros -> self rest kwargs w.
           rewrite invariant_layer_checked. reflexivity.
    + inversion Hv; subst.
      split; [|split; [|split; [|split]]]; try (intros; reflexivity).
      intros f im -> Hfun Hname.
      rewrite (check_eligible name f im Hfun Hname) in Hc. discriminate.
Qed.

End Properties.

(** * More of the engine *)

Section MoreProperties.
Context {host : Host}.

(** ** What the record of the arguments holds *)

Lemma build_call_inv f args kwargs r :
  build_call f args kwargs = Ret r ->
  exists fields,
    check_nonce (func_name (get_wrapped_func f))
      (build_call_actual (getfullargspec (get_wrapped_func f)) args kwargs)
    = Ret fields
    /\ r = VNamed "Args" fields
    /\ tuple_of_dict fields = Ret (VNamed "Args" fields).
Proof.
  intros H. rewrite (build_call_eq _ _ _ (build_call_Ret_no_func _ _ _ _ H)) in H.
  destruct (check_nonce _ _) as [fields|] eqn:E; [|discriminate].
  simpl in H. exists fields. split; [reflexivity|].
  assert (Hr := tuple_of_dict_inv _ _ H). subst r. split; [reflexivity|exact H].
Qed.

(** Every named argument of a call is a field of the record, with its
    value, whether the function declares a parameter of that name or not. *)
Theorem build_call_named_arguments
    (f : func) (args : list value) (kwargs : dict value)
    (k : string) (v r : value) :
  NoDup (dict_keys kwargs) ->
  dict_get k kwargs = Some v ->
  build_call f args kwargs = Ret r ->
  exists fields, r = VNamed "Args" fields /\ dict_get k fields = Some v.
Proof.
  intros Hnd Hk H.
  destruct (build_call_inv _ _ _ _ H) as (fields & Hc & -> & _).
  exists fields. split; [reflexivity|].
  assert (Hg : dict_get k (build_call_actual
                 (getfullargspec (get_wrapped_func f)) args kwargs)
               = Some (Some v)).
  { unfold build_call_actual. apply dict_get_update_unique.
    - rewrite dict_keys_some_values. exact Hnd.
    - rewrite dict_get_some_values, Hk. reflexivity. }
  rewrite (check_nonce_get _ _ _ k Hc) in Hg.
  destruct (dict_get k fields); inversion Hg; reflexivity.
Qed.

(** With a catch-all for positional arguments, the record holds under its
    name the tuple of the arguments beyond the declared names: the empty
    tuple when there is no overflow. *)
Theorem build_call_catch_all
    (f : func) (args : list value) (kwargs : dict value)
    (va : string) (r : value) :
  vargs (getfullargspec (get_wrapped_func f)) = Some va ->
  in_names va (dict_keys kwargs) = false ->
  build_call f args kwargs = Ret r ->
  exists fields,
    r = VNamed "Args" fields /\
    dict_get va fields
    = Some (VTuple (skipn (length (named (getfullargspec (get_wrapped_func f))))
                          args)).
Proof.
  intros Hva Hk H.
  destruct (build_call_inv _ _ _ _ H) as (fields & Hc & -> & _).
  exists fields. split; [reflexivity|].
  assert (Hg : dict_get va (build_call_actual
                 (getfullargspec (get_wrapped_func f)) args kwargs)
               = Some (Some (VTuple (skipn
                   (length (named (getfullargspec (get_wrapped_func f))))
                   args)))).
  { unfold build_call_actual. rewrite Hva.
    rewrite dict_get_update_notin
      by (rewrite dict_keys_some_values; exact Hk).
    rewrite dict_get_set, String.eqb_refl. reflexivity. }
  rewrite (check_nonce_get _ _ _ va Hc) in Hg.
  destruct (dict_get va fields); inversion Hg; reflexivity.
Qed.

Lemma zip_surplus {A B} (l : list A) (m extra : list B) :
  length l <= length m -> zip l (m ++ extra) = zip l m.
Proof.
  unfold zip. revert m. induction l as [|a l IH]; intros [|b m] H;
    simpl in *; try reflexivity.
  - inversion H.
  - rewrite IH; [reflexivity|]. apply le_S_n. exact H.
Qed.

(** Without a catch-all, positional arguments beyond the declared names are
    dropped: the normalizer does not report them. *)
Theorem build_call_surplus_positional
    (f : func) (args extra : list value) (kwargs : dict value) :
  vargs (getfullargspec (get_wrapped_func f)) = None ->
  length (named (getfullargspec (get_wrapped_func f))) <= length args ->
  build_call f (args ++ extra) kwargs = build_call f args kwargs.
Proof.
  intros Hva Hlen. unfold build_call, build_call_actual.
  rewrite Hva. rewrite (zip_surplus _ _ _ Hlen). reflexivity.
Qed.



Lemma namedtuple_names_raises names e :
  namedtuple_names names = Raise e -> exists m, e = ValueError m.
Proof.
  induction names as [|n r IH]; simpl; intros H; [discriminate|].
  destruct (negb (isidentifier n)); [inversion H; eauto|].
  destruct (iskeyword n); [inversion H; eauto|]. apply IH. exact H.
Qed.

Lemma namedtuple_fields_raises names e :
  namedtuple_fields names = Raise e -> exists m, e = ValueError m.
Proof.
  induction names as [|n r IH]; simpl; intros H; [discriminate|].
  destruct (startswith "_" n); [inversion H; eauto|]. apply IH. exact H.
Qed.

Lemma tuple_of_dict_raises d e :
  tuple_of_dict d = Raise e -> exists m, e = ValueError m.
Proof.
  unfold tuple_of_dict, tuple_of_dict_named. intros H.
  destruct (namedtuple_names _) as [[]|e1] eqn:E1.
  - simpl in H. destruct (namedtuple_fields _) as [[]|e2] eqn:E2.
    + discriminate.
    + inversion H; subst. eapply namedtuple_fields_raises; eauto.
  - inversion H; subst. eapply namedtuple_names_raises; eauto.
Qed.




Lemma dict_keys_update_fresh {V} (acc pairs : dict V) :
  NoDup (dict_keys acc ++ dict_keys pairs) ->
  dict_keys (dict_update acc pairs) = (dict_keys acc ++ dict_keys pairs)%list.
Proof.
  unfold dict_update. revert acc.
  induction pairs as [|[k v] r IH]; intros acc H; simpl.
  - rewrite app_nil_r. reflexivity.
  - simpl in H. rewrite IH.
    + rewrite dict_keys_set.
      assert (Hk : in_names k (dict_keys acc) = false).
      { apply in_names_not_In. intros Hin.
        apply NoDup_remove_2 in H. apply H. apply in_or_app. left. exact Hin. }
      rewrite Hk. rewrite <- app_assoc. reflexivity.
    + rewrite dict_keys_set.
      assert (Hk : in_names k (dict_keys acc) = false).
      { apply in_names_not_In. intros Hin.
        apply NoDup_remove_2 in H. apply H. apply in_or_app. left. exact Hin. }
      rewrite Hk. rewrite <- app_assoc. exact H.
Qed.

(** The fields of the record begin with the declared names, in the order
    of declaration. *)
Theorem build_call_field_order
    (f : func) (args : list value) (kwargs : dict value)
    (fields : dict value) :
  NoDup (named (getfullargspec (get_wrapped_func f))) ->
  build_call f args kwargs = Ret (VNamed "Args" fields) ->
  exists extra,
    dict_keys fields
    = (named (getfullargspec (get_wrapped_func f)) ++ extra)%list.
Proof.
  intros Hnd H.
  destruct (build_call_inv _ _ _ _ H) as (fields' & Hc & Hr & _).
  inversion Hr; subst fields'.
  rewrite (check_nonce_keys _ _ _ Hc).
  destruct (keys_build_call_actual
              (getfullargspec (get_wrapped_func f)) args kwargs)
    as [extra ->].
  exists extra. f_equal. unfold dict_of_pairs.
  rewrite dict_keys_update_fresh.
  - unfold dict_keys. rewrite map_map. simpl. apply map_id.
  - unfold dict_keys. rewrite map_map. simpl. rewrite map_id. exact Hnd.
Qed.

Lemma not_in_zip_beyond {A B} (l : list A) (m : list B) i n :
  NoDup l -> nth_error l i = Some n -> length m <= i ->
  ~ In n (map fst (zip l m)).
Proof.
  unfold zip. intros Hnd. revert m i.
  induction Hnd as [|x l Hx Hl IH]; intros m i Hn Hlen Hin.
  - destruct i; discriminate.
  - destruct m as [|y m]; [contradiction|].
    destruct i as [|i]; simpl in *; [lia|].
    destruct Hin as [Hin|Hin].
    + subst. apply nth_error_In in Hn. contradiction.
    + apply (IH m i); [exact Hn|lia|exact Hin].
Qed.

(** The defaults belong to the last declared names: the j-th of the
    parameters that have a default gets the j-th default when the call gives
    it no value. *)
Theorem build_call_default
    (f : func) (args : list value) (kwargs : dict value)
    (required optional : list string) (j : nat) (n : string) (d r : value) :
  named (getfullargspec (get_wrapped_func f)) = (required ++ optional)%list ->
  length optional = length (defs (getfullargspec (get_wrapped_func f))) ->
  NoDup (named (getfullargspec (get_wrapped_func f))) ->
  vargs (getfullargspec (get_wrapped_func f)) <> Some n ->
  nth_error optional j = Some n ->
  nth_error (defs (getfullargspec (get_wrapped_func f))) j = Some d ->
  length args <= length required + j ->
  in_names n (dict_keys kwargs) = false ->
  build_call f args kwargs = Ret r ->
  exists fields, r = VNamed "Args" fields /\ dict_get n fields = Some d.
Proof.
  set (spec := getfullargspec (get_wrapped_func f)).
  intros Hsplit Hlen Hnd Hva Hn Hd Hargs Hk H.
  destruct (build_call_inv _ _ _ _ H) as (fields & Hc & -> & _).
  fold spec in Hc. exists fields. split; [reflexivity|].
  assert (Hj : j < length optional)
    by (apply nth_error_Some; rewrite Hn; discriminate).
  assert (Hi : nth_error (named spec) (length required + j) = Some n).
  { rewrite Hsplit. rewrite nth_error_app2 by lia.
    replace (length required + j - length required) with j by lia.
    exact Hn. }
  assert (Hdef : dict_get n (dict_of_pairs
                   (zip (rev (named spec)) (rev (defs spec)))) = Some d).
  { apply (dict_get_zip _ _ (length optional - S j)).
    - apply NoDup_rev. exact Hnd.
    - rewrite nth_error_rev.
      assert (Hl : length (named spec) = length required + length optional)
        by (rewrite Hsplit; apply length_app).
      destruct (Nat.ltb_spec (length optional - S j) (length (named spec)));
        [|lia].
      replace (length (named spec) - S (length optional - S j))
        with (length required + j) by lia.
      exact Hi.
    - rewrite nth_error_rev.
      destruct (Nat.ltb_spec (length optional - S j) (length (defs spec)));
        [|lia].
      replace (length (defs spec) - S (length optional - S j)) with j by lia.
      exact Hd. }
  assert (Hg : dict_get n (build_call_actual spec args kwargs)
               = Some (Some d)).
  { unfold build_call_actual.
    rewrite dict_get_update_notin
      by (rewrite dict_keys_some_values; exact Hk).
    assert (Hp : forall a : dict (option value),
      dict_get n a = Some (Some d) ->
      dict_get n (dict_update a
        (some_values (dict_of_pairs (zip (named spec) args))))
      = Some (Some d)).
    { intros a Ha. rewrite dict_get_update_notin; [exact Ha|].
      rewrite dict_keys_some_values, in_keys_of_pairs.
      apply in_names_not_In.
      apply (not_in_zip_beyond _ _ (length required + j)); assumption. }
    assert (Hdd : forall a : dict (option value),
      dict_get n (dict_update a
        (some_values (dict_of_pairs (zip (rev (named spec))
                                         (rev (defs spec))))))
      = Some (Some d)).
    { intros a. apply dict_get_update_unique.
      - rewrite dict_keys_some_values. apply NoDup_keys_of_pairs.
      - rewrite dict_get_some_values, Hdef. reflexivity. }
    destruct (vargs spec) as [va|].
    - rewrite dict_get_set. destruct (String.eqb n va) eqn:E.
      + apply String.eqb_eq in E. subst. contradiction Hva. reflexivity.
      + apply Hp. apply Hdd.
    - apply Hp. apply Hdd. }
  rewrite (check_nonce_get _ _ _ n Hc) in Hg.
  destruct (dict_get n fields); inversion Hg; reflexivity.
Qed.

(** *** Normalizing a record again *)

Lemma dict_update_cons_notin {V} k (v : V) (d e : dict V) :
  in_names k (dict_keys e) = false ->
  dict_update ((k, v) :: d) e = (k, v) :: dict_update d e.
Proof.
  unfold dict_update. revert d.
  induction e as [|[k0 v0] r IH]; intros d H; simpl in *; [reflexivity|].
  apply orb_false_elim in H. destruct H as [H1 H2].
  rewrite String.eqb_sym in H1. rewrite H1. apply IH. exact H2.
Qed.

Lemma dict_update_in_place {V} (d a : dict V) :
  dict_keys a = dict_keys d -> NoDup (dict_keys d) -> dict_update d a = a.
Proof.
  revert a. induction d as [|[k v0] d IH]; intros [|[k' v] a] Hk Hnd;
    simpl in *; try discriminate; [reflexivity|].
  inversion Hk; subst. inversion Hnd as [|? ? Hnk Hd]; subst.
  unfold dict_update. simpl. rewrite String.eqb_refl.
  fold (dict_update ((k, v) :: d) a).
  rewrite dict_update_cons_notin.
  - f_equal. apply IH; [exact H1|exact Hd].
  - apply in_names_not_In. rewrite H1. exact Hnk.
Qed.

Lemma dict_set_fresh {V} k (v : V) (d : dict V) :
  in_names k (dict_keys d) = false -> dict_set k v d = (d ++ [(k, v)])%list.
Proof.
  induction d as [|[k0 v0] r IH]; simpl; intros H; [reflexivity|].
  apply orb_false_elim in H. destruct H as [H1 H2].
  rewrite H1. rewrite IH by exact H2. reflexivity.
Qed.

Lemma dict_update_fresh {V} (d e : dict V) :
  NoDup (dict_keys d ++ dict_keys e) -> dict_update d e = (d ++ e)%list.
Proof.
  unfold dict_update. revert d.
  induction e as [|[k v] r IH]; intros d H; simpl in *.
  - rewrite app_nil_r. reflexivity.
  - assert (Hk : in_names k (dict_keys d) = false).
    { apply in_names_not_In. intros Hin.
      apply NoDup_remove_2 in H. apply H. apply in_or_app. left. exact Hin. }
    rewrite (dict_set_fresh _ _ _ Hk). rewrite IH.
    + rewrite <- app_assoc. reflexivity.
    + unfold dict_keys in *. rewrite map_app. simpl.
      rewrite <- app_assoc. exact H.
Qed.

Lemma dict_update_app {V} (d a b : dict V) :
  dict_update d (a ++ b)%list = dict_update (dict_update d a) b.
Proof. unfold dict_update. apply fold_left_app. Qed.

(** Updating a dictionary with one that has the same keys first, in the
    same order, gives the latter. *)
Lemma dict_update_same_prefix {V} (d a : dict V) (extra : list string) :
  NoDup (dict_keys a) ->
  dict_keys a = (dict_keys d ++ extra)%list ->
  dict_update d a = a.
Proof.
  intros Hnd Hk.
  rewrite <- (firstn_skipn (length d) a) at 1.
  assert (H1 : dict_keys (firstn (length d) a) = dict_keys d).
  { unfold dict_keys in *. rewrite <- firstn_map, Hk.
    rewrite <- (length_map fst d). rewrite firstn_app, Nat.sub_diag.
    rewrite firstn_all. simpl. apply app_nil_r. }
  assert (H2 : dict_keys (skipn (length d) a) = extra).
  { unfold dict_keys in *. rewrite <- skipn_map, Hk.
    rewrite <- (length_map fst d). rewrite skipn_app, Nat.sub_diag.
    rewrite skipn_all. reflexivity. }
  assert (Hd : NoDup (dict_keys d)).
  { rewrite Hk in Hnd. apply NoDup_app_remove_r in Hnd. exact Hnd. }
  rewrite dict_update_app. rewrite (dict_update_in_place _ _ H1 Hd).
  rewrite dict_update_fresh.
  - apply firstn_skipn.
  - rewrite H1, H2, <- Hk. exact Hnd.
Qed.

Lemma dict_keys_update_within {V} (d e : dict V) :
  (forall k, In k (dict_keys e) -> In k (dict_keys d)) ->
  dict_keys (dict_update d e) = dict_keys d.
Proof.
  unfold dict_update. revert d.
  induction e as [|[k v] r IH]; intros d H; simpl; [reflexivity|].
  assert (Hk : in_names k (dict_keys d) = true)
    by (apply in_names_In; apply H; left; reflexivity).
  rewrite IH.
  - rewrite dict_keys_set, Hk. reflexivity.
  - intros k' Hk'. rewrite dict_keys_set, Hk. apply H. right. exact Hk'.
Qed.

Lemma check_nonce_some_values fname (fields : dict value) :
  check_nonce fname (some_values fields) = Ret fields.
Proof.
  induction fields as [|[k v] r IH]; simpl; [reflexivity|].
  rewrite IH. reflexivity.
Qed.

Lemma check_nonce_Ret_some_values fname a fields :
  check_nonce fname a = Ret fields -> a = some_values fields.
Proof.
  revert fields. induction a as [|[k [x|]] a' IH]; simpl; intros fields H.
  - inversion H. reflexivity.
  - destruct (check_nonce fname a') as [r|]; [|discriminate].
    inversion H; subst. simpl. rewrite (IH r eq_refl). reflexivity.
  - discriminate.
Qed.

(** The keys of [actual] before the named arguments go in do not depend on
    the positional arguments. *)
Lemma keys_positional_update (a : dict (option value)) names
      (args : list value) :
  (forall k, In k names -> In k (dict_keys a)) ->
  dict_keys (dict_update a (some_values (dict_of_pairs (zip names args))))
  = dict_keys a.
Proof.
  intros H. apply dict_keys_update_within. intros k Hk.
  rewrite dict_keys_some_values in Hk.
  apply in_names_In in Hk. rewrite in_keys_of_pairs in Hk.
  apply in_names_In in Hk. apply in_map_iff in Hk.
  destruct Hk as ([x y] & Hx & Hin). simpl in Hx. subst x.
  apply in_combine_l in Hin. apply H. exact Hin.
Qed.

Lemma keys_before_kwargs spec args :
  dict_keys (build_call_actual spec args [])
  = dict_keys (build_call_actual spec [] []).
Proof.
  unfold build_call_actual. simpl.
  assert (Hn : forall k, In k (named spec) ->
    In k (dict_keys
      (dict_update
         (dict_update
            (dict_of_pairs (map (fun name => (name, @None value)) (named spec)))
            (some_values (kwonlydefs spec)))
         (some_values (dict_of_pairs (zip (rev (named spec))
                                          (rev (defs spec)))))))).
  { intros k Hk.
    destruct (dict_keys_update _
      (dict_update
         (dict_of_pairs (map (fun name => (name, @None value)) (named spec)))
         (some_values (kwonlydefs spec)))
      (some_values (dict_of_pairs (zip (rev (named spec)) (rev (defs spec))))))
      as [x2 ->].
    destruct (dict_keys_update _
      (dict_of_pairs (map (fun name => (name, @None value)) (named spec)))
      (some_values (kwonlydefs spec))) as [x1 ->].
    apply in_or_app. left. apply in_or_app. left.
    apply in_names_In. rewrite in_keys_of_pairs, map_map. simpl.
    rewrite map_id. apply in_names_In. exact Hk. }
  destruct (vargs spec) as [va|].
  - rewrite !dict_keys_set. rewrite !(keys_positional_update _ _ _ Hn).
    reflexivity.
  - rewrite !(keys_positional_update _ _ _ Hn). reflexivity.
Qed.

(** The core of it: with the fields of a record of [f] as the named
    arguments, [actual] is these fields. *)
Lemma build_call_actual_of_record
    (f : func) (args : list value) (kwargs : dict value)
    (r fields : dict value) :
  build_call f args kwargs = Ret (VNamed "Args" r) ->
  dict_keys fields = dict_keys r ->
  build_call_actual (getfullargspec (get_wrapped_func f)) [] fields
  = some_values fields
  /\ tuple_of_dict fields = Ret (VNamed "Args" fields).
Proof.
  set (spec := getfullargspec (get_wrapped_func f)).
  intros H Hk.
  destruct (build_call_inv _ _ _ _ H) as (r' & Hc & Hr & Ht).
  inversion Hr; subst r'. fold spec in Hc.
  assert (Ha := check_nonce_Ret_some_values _ _ _ Hc).
  assert (Hnd : NoDup (dict_keys (some_values fields))).
  { rewrite dict_keys_some_values, Hk, <- dict_keys_some_values, <- Ha.
    apply NoDup_build_call_actual. }
  assert (Hkeys : exists extra,
    dict_keys (some_values fields)
    = (dict_keys (build_call_actual spec [] []) ++ extra)%list).
  { rewrite dict_keys_some_values, Hk, <- dict_keys_some_values, <- Ha.
    rewrite <- (keys_before_kwargs spec args).
    unfold build_call_actual at 1. apply dict_keys_update. }
  destruct Hkeys as (extra & Hkeys). split.
  - unfold build_call_actual in *. simpl in *.
    apply (dict_update_same_prefix _ _ extra Hnd Hkeys).
  - apply tuple_of_dict_same_keys with (d := r); assumption.
Qed.

Lemma build_call_record_again
    (f : func) (args : list value) (kwargs : dict value)
    (r fields : dict value) :
  build_call f args kwargs = Ret (VNamed "Args" r) ->
  dict_keys fields = dict_keys r ->
  in_names "func" (dict_keys fields) = false ->
  build_call f [] fields = Ret (VNamed "Args" fields).
Proof.
  intros H Hk Hfunc.
  destruct (build_call_actual_of_record _ _ _ _ _ H Hk) as (Hb & Ht).
  rewrite (build_call_eq _ _ _ Hfunc), Hb, check_nonce_some_values. exact Ht.
Qed.

(** The record that [build_call] returned, or one with the same field names
    in the same order, passed again as named arguments: when a field is
    called [func], the name of the first parameter of [build_call] itself,
    this is the [TypeError] of [build_call]; when none is, the record goes
    through unchanged. *)
Theorem build_call_of_record
    (f : func) (args : list value) (kwargs : dict value)
    (r fields : dict value) :
  build_call f args kwargs = Ret (VNamed "Args" r) ->
  dict_keys fields = dict_keys r ->
  build_call f [] fields
  = if in_names "func" (dict_keys r)
    then Raise (TypeError
                  "build_call() got multiple values for argument 'func'")
    else Ret (VNamed "Args" fields).
Proof.
  intros H Hk. rewrite <- Hk.
  destruct (in_names "func" (dict_keys fields)) eqn:Hfunc.
  - apply build_call_func. exact Hfunc.
  - destruct (build_call_actual_of_record f args kwargs r fields H Hk)
      as (Hactual & Hrecord).
    rewrite (build_call_eq _ _ _ Hfunc).
    rewrite Hactual.
    rewrite check_nonce_some_values.
    simpl obind.
    exact Hrecord.
Qed.

(** ** A layer around a call that returns or raises *)

Lemma layer_call_returns c f g w0 w0' t0 args kwargs w rargs pv w1 t1
      result w2 t2 :
  condition c f w0 = (Ret g, w0', t0) ->
  inner_before c f (get_wrapped_func f) args kwargs w
    = (Ret (rargs, pv), w1, t1) ->
  call f args kwargs w1 = (Ret result, w2, t2) ->
  call g args kwargs w
  = match inner_after c rargs pv result args kwargs w2 with
    | (o, w3, t3) => (o, w3, (t1 ++ t2 ++ t3)%list)
    end.
Proof.
  intros Hg Hb Hf.
  destruct (condition_inv _ _ _ _ _ _ Hg) as (_ & _ & _ & _ & id & ->).
  rewrite call_CondInner. eapply condition_inner_after; eassumption.
Qed.

Lemma layer_call_raises c f g w0 w0' t0 args kwargs w rargs pv w1 t1
      e w2 t2 :
  condition c f w0 = (Ret g, w0', t0) ->
  inner_before c f (get_wrapped_func f) args kwargs w
    = (Ret (rargs, pv), w1, t1) ->
  call f args kwargs w1 = (Raise e, w2, t2) ->
  call g args kwargs w = (Raise e, w2, (t1 ++ t2)%list).
Proof.
  intros Hg Hb Hf.
  destruct (condition_inv _ _ _ _ _ _ Hg) as (_ & _ & _ & _ & id & ->).
  rewrite call_CondInner. eapply condition_inner_raises; eassumption.
Qed.

Lemma layer_call_before_raises c f g w0 w0' t0 args kwargs w e w1 t1 :
  condition c f w0 = (Ret g, w0', t0) ->
  inner_before c f (get_wrapped_func f) args kwargs w = (Raise e, w1, t1) ->
  call g args kwargs w = (Raise e, w1, t1).
Proof.
  intros Hg Hb.
  destruct (condition_inv _ _ _ _ _ _ Hg) as (_ & _ & _ & _ & id & ->).
  rewrite call_CondInner. unfold condition_inner.
  apply bind_Raise. exact Hb.
Qed.

Lemma inner_before_run c f wrapped args kwargs rargs w h o w1 t1 :
  layer_rargs c f args kwargs rargs ->
  precondition_passes c rargs w h ->
  run_preservers (preservers_of wrapped w) rargs [] (set_heap h w)
    = (o, w1, t1) ->
  inner_before c f wrapped args kwargs w
  = (match o with Ret pv => Ret (rargs, pv) | Raise e => Raise e end, w1,
     (precondition_trace c rargs ++ t1)%list).
Proof.
  unfold precondition_passes, precondition_trace.
  intros Hr Hp Hps. unfold inner_before.
  rewrite (inner_before_rargs c f args kwargs rargs _ w Hr).
  destruct (precondition c).
  - unfold bind at 1. unfold bind at 1.
    rewrite (call_predicate_eq _ _ _ _ _ _ Hp). simpl.
    unfold bind at 1. rewrite getattr_contract_preserver_eq.
    rewrite preservers_of_set_heap.
    unfold bind at 1. rewrite Hps.
    destruct o; unfold ret; simpl; rewrite ?app_nil_r; reflexivity.
  - subst h. rewrite set_heap_same in Hps.
    unfold bind at 1. unfold ret at 1.
    unfold bind at 1. rewrite getattr_contract_preserver_eq.
    unfold bind at 1. rewrite Hps.
    destruct o; unfold ret; simpl; rewrite ?app_nil_r; reflexivity.
Qed.

(** A contract that holds and whose predicate and preservers leave the
    world as they found it lets the call through: the result and the world
    are those of the wrapped function, and what ran is the precondition (if
    the contract has one), the preservers, the function, and the check
    after it. *)
Theorem holding_contract_is_transparent
    (c : contract) (f g : func) (w0 w0' : world) (t0 : trace)
    (args : list value) (kwargs : dict value) (rargs : value) (w : world)
    (pv : dict value) (t1 : trace)
    (result : value) (w2 : world) (t2 : trace) (pargs : list value) :
  condition c f w0 = (Ret g, w0', t0) ->
  instance c = true \/ postcondition c = true ->
  layer_rargs c f args kwargs rargs ->
  precondition_passes c rargs w (w_heap w) ->
  run_preservers (preservers_of (get_wrapped_func f) w) rargs [] w
    = (Ret pv, w, t1) ->
  call f args kwargs w = (Ret result, w2, t2) ->
  post_pargs c rargs pv result = Ret pargs ->
  pred_run (predicate c) pargs (w_heap w2) = (Ret true, w_heap w2) ->
  call g args kwargs w
  = (Ret result, w2,
     (precondition_trace c rargs ++ t1 ++ t2
      ++ [EvPredicate Post (description c) pargs])%list).
Proof.
  intros Hg Hkind Hr Hpre Hps Hf Hpargs Hpost.
  rewrite <- (set_heap_same w) in Hps at 2.
  rewrite (layer_call_returns _ _ _ _ _ _ _ _ _ _ _ _ _ _ _ _ Hg
             (inner_before_run _ _ _ _ _ _ _ _ _ _ _ Hr Hpre Hps) Hf).
  rewrite (inner_after_check _ _ _ _ _ _ _ _ _ _ Hkind Hpargs Hpost).
  rewrite set_heap_same, <- app_assoc. reflexivity.
Qed.

(** An exception of the wrapped function passes through the layer as it is:
    no check after the call, no clean-up, the world as the function left
    it. *)
Theorem wrapped_exception_passes_through
    (c : contract) (f g : func) (w0 w0' : world) (t0 : trace)
    (args : list value) (kwargs : dict value) (rargs : value) (w : world)
    (h : heap) (pv : dict value) (w1 : world) (t1 : trace)
    (e : exn) (w2 : world) (t2 : trace) :
  condition c f w0 = (Ret g, w0', t0) ->
  layer_rargs c f args kwargs rargs ->
  precondition_passes c rargs w h ->
  run_preservers (preservers_of (get_wrapped_func f) w) rargs []
    (set_heap h w) = (Ret pv, w1, t1) ->
  call f args kwargs w1 = (Raise e, w2, t2) ->
  call g args kwargs w
  = (Raise e, w2, (precondition_trace c rargs ++ t1 ++ t2)%list).
Proof.
  intros Hg Hr Hpre Hps Hf.
  rewrite (layer_call_raises _ _ _ _ _ _ _ _ _ _ _ _ _ _ _ _ Hg
             (inner_before_run _ _ _ _ _ _ _ _ _ _ _ Hr Hpre Hps) Hf).
  rewrite <- app_assoc. reflexivity.
Qed.

(** An exception of the predicate of a precondition is the exception of the
    call: it is not turned into a [PreconditionError], and the function does
    not run. *)
Theorem precondition_predicate_exception
    (c : contract) (f g : func) (w0 w0' : world) (t0 : trace)
    (args : list value) (kwargs : dict value) (rargs : value) (w : world)
    (e : exn) (h : heap) :
  condition c f w0 = (Ret g, w0', t0) ->
  precondition c = true ->
  layer_rargs c f args kwargs rargs ->
  pred_run (predicate c) [rargs] (w_heap w) = (Raise e, h) ->
  call g args kwargs w
  = (Raise e, set_heap h w, [EvPredicate Pre (description c) [rargs]]).
Proof.
  intros Hg Hpre Hr He.
  exact (layer_call_before_raises _ _ _ _ _ _ _ _ _ _ _ _ Hg
           (inner_before_predicate_raises _ _ _ _ _ _ _ _ _ Hpre Hr He)).
Qed.

(** An exception of the predicate checked after the call is the exception of
    the call as well: the clean-up action does not run, though the contract
    has one, and what the function did stays. *)
Theorem postcondition_predicate_exception
    (c : contract) (f g : func) (w0 w0' : world) (t0 : trace)
    (args : list value) (kwargs : dict value) (rargs : value) (w : world)
    (h : heap) (pv : dict value) (w1 : world) (t1 : trace)
    (result : value) (w2 : world) (t2 : trace) (pargs : list value)
    (e : exn) (h2 : heap) :
  condition c f w0 = (Ret g, w0', t0) ->
  instance c = true \/ postcondition c = true ->
  layer_rargs c f args kwargs rargs ->
  precondition_passes c rargs w h ->
  run_preservers (preservers_of (get_wrapped_func f) w) rargs []
    (set_heap h w) = (Ret pv, w1, t1) ->
  call f args kwargs w1 = (Ret result, w2, t2) ->
  post_pargs c rargs pv result = Ret pargs ->
  pred_run (predicate c) pargs (w_heap w2) = (Raise e, h2) ->
  call g args kwargs w
  = (Raise e, set_heap h2 w2,
     (precondition_trace c rargs ++ t1 ++ t2
      ++ [EvPredicate Post (description c) pargs])%list).
Proof.
  intros Hg Hkind Hr Hpre Hps Hf Hpargs Hpost.
  rewrite (layer_call_returns _ _ _ _ _ _ _ _ _ _ _ _ _ _ _ _ Hg
             (inner_before_run _ _ _ _ _ _ _ _ _ _ _ Hr Hpre Hps) Hf).
  rewrite (inner_after_check _ _ _ _ _ _ _ _ _ _ Hkind Hpargs Hpost).
  rewrite <- app_assoc. reflexivity.
Qed.

(** ** The preservers and the snapshot *)

Lemma run_preservers_app ps1 ps2 rargs acc w :
  run_preservers (ps1 ++ ps2) rargs acc w
  = bind (run_preservers ps1 rargs acc)
         (fun d => run_preservers ps2 rargs d) w.
Proof.
  revert acc w. induction ps1 as [|q r IH]; intros acc w; simpl.
  - rewrite bind_ret_l. reflexivity.
  - rewrite bind_assoc. apply bind_cong; [reflexivity|].
    intros d w'. apply IH.
Qed.

(** The outcome of the preservers before [p], then [p]. *)
Lemma run_preservers_step ps1 p ps2 rargs acc w d1 w1 t1 o h2 :
  run_preservers ps1 rargs acc w = (Ret d1, w1, t1) ->
  p rargs (w_heap w1) = (o, h2) ->
  run_preservers (ps1 ++ p :: ps2) rargs acc w
  = match o with
    | Ret d =>
        with_trace_prefix (t1 ++ [EvPreserver rargs (Ret d)])%list
          (run_preservers ps2 rargs (dict_update d1 d) (set_heap h2 w1))
    | Raise e =>
        (Raise e, set_heap h2 w1, (t1 ++ [EvPreserver rargs (Raise e)])%list)
    end.
Proof.
  intros H1 Hp. rewrite run_preservers_app. unfold bind at 1. rewrite H1.
  simpl run_preservers. unfold bind at 1. unfold call_preserver at 1.
  rewrite Hp. destruct o as [d|e]; [|reflexivity].
  unfold with_trace_prefix.
  destruct (run_preservers ps2 rargs (dict_update d1 d) (set_heap h2 w1))
    as [[o' w'] t']. rewrite <- app_assoc. reflexivity.
Qed.

(** A preserver that raises stops the call before the function runs: the
    exception is that of the preserver, after the precondition and the
    preservers registered before it. *)
Theorem preserver_exception_stops_the_call
    (c : contract) (f g : func) (w0 w0' : world) (t0 : trace)
    (args : list value) (kwargs : dict value) (rargs : value) (w : world)
    (h : heap) (ps1 ps2 : list preserver_fn) (p : preserver_fn)
    (d1 : dict value) (w1 : world) (t1 : trace) (e : exn) (h2 : heap) :
  condition c f w0 = (Ret g, w0', t0) ->
  layer_rargs c f args kwargs rargs ->
  precondition_passes c rargs w h ->
  contract_preserver (get_wrapped_func f) w = Some (ps1 ++ p :: ps2)%list ->
  run_preservers ps1 rargs [] (set_heap h w) = (Ret d1, w1, t1) ->
  p rargs (w_heap w1) = (Raise e, h2) ->
  call g args kwargs w
  = (Raise e, set_heap h2 w1,
     (precondition_trace c rargs ++ t1
      ++ [EvPreserver rargs (Raise e)])%list).
Proof.
  intros Hg Hr Hpre Hcp Hps He.
  apply (layer_call_before_raises _ _ _ _ _ _ _ _ _ _ _ _ Hg).
  assert (Hof : preservers_of (get_wrapped_func f) w = (ps1 ++ p :: ps2)%list)
    by (unfold preservers_of; rewrite Hcp; reflexivity).
  apply (inner_before_run c f (get_wrapped_func f) args kwargs rargs w h
           (Raise e) _ _ Hr Hpre).
  rewrite Hof.
  exact (run_preservers_step ps1 p ps2 rargs [] _ _ _ _ _ _ Hps He).
Qed.

Lemma run_preservers_keeps ps rargs acc w s w' t k :
  run_preservers ps rargs acc w = (Ret s, w', t) ->
  Forall (returns_without k) t ->
  dict_get k s = dict_get k acc.
Proof.
  revert acc w t. induction ps as [|q r IH]; intros acc w t H Ht; simpl in H.
  - inversion H; subst. reflexivity.
  - apply bind_inv_Ret in H. destruct H as (d & w1 & ta & tb & Hq & Hr & ->).
    unfold call_preserver in Hq.
    destruct (q rargs (w_heap w)) as [o h]. inversion Hq; subst.
    inversion Ht as [|? ? Hd Hrest]; subst.
    rewrite (IH _ _ _ Hr Hrest). apply dict_get_update_notin. exact Hd.
Qed.

Lemma run_preservers_acc ps rargs acc acc' w s w' t :
  run_preservers ps rargs acc w = (Ret s, w', t) ->
  exists s', run_preservers ps rargs acc' w = (Ret s', w', t).
Proof.
  revert acc acc' w t.
  induction ps as [|q r IH]; intros acc acc' w t H; simpl in *.
  - inversion H; subst. eexists. reflexivity.
  - apply bind_inv_Ret in H. destruct H as (d & w1 & ta & tb & Hq & Hr & ->).
    destruct (IH _ (dict_update acc' d) _ _ Hr) as (s' & Hs').
    exists s'. unfold bind. rewrite Hq, Hs'. reflexivity.
Qed.

(** The preservers run in the order of the list and each mapping goes over
    what is there: of two preservers that return the same name, the one
    later in the list gives the value of the snapshot. *)
Theorem later_preserver_wins
    (ps1 ps2 : list preserver_fn) (p : preserver_fn) (rargs : value)
    (w : world) (d1 : dict value) (w1 : world) (t1 : trace)
    (d : dict value) (h2 : heap) (k : string) (v : value)
    (d2 : dict value) (w3 : world) (t3 : trace) :
  run_preservers ps1 rargs [] w = (Ret d1, w1, t1) ->
  p rargs (w_heap w1) = (Ret d, h2) ->
  NoDup (dict_keys d) ->
  dict_get k d = Some v ->
  run_preservers ps2 rargs [] (set_heap h2 w1) = (Ret d2, w3, t3) ->
  Forall (returns_without k) t3 ->
  exists snapshot,
    run_preservers (ps1 ++ p :: ps2) rargs [] w
    = (Ret snapshot, w3, (t1 ++ EvPreserver rargs (Ret d) :: t3)%list)
    /\ dict_get k snapshot = Some v.
Proof.
  intros H1 Hp Hnd Hk H2 Hlater.
  destruct (run_preservers_acc _ _ _ (dict_update d1 d) _ _ _ _ H2)
    as (snapshot & Hs).
  exists snapshot. split.
  - assert (Hstep := run_preservers_step ps1 p ps2 rargs [] _ _ _ _ _ _
                       H1 Hp).
    cbn iota in Hstep. rewrite Hs in Hstep. unfold with_trace_prefix in Hstep.
    rewrite <- app_assoc in Hstep. exact Hstep.
  - rewrite (run_preservers_keeps _ _ _ _ _ _ _ k Hs Hlater).
    apply dict_get_update_unique; assumption.
Qed.

Lemma layer_three_arguments c f g w0 w0' t0 :
  condition c f w0 = (Ret g, w0', t0) ->
  pred_arg_count (predicate c) = 3 ->
  instance c = false /\ precondition c = false /\ postcondition c = true.
Proof.
  intros Hg H3.
  destruct (condition_inv _ _ _ _ _ _ Hg) as (Ha & _).
  apply condition_asserts_three; assumption.
Qed.

Lemma tuple_of_dict_empty d x :
  tuple_of_dict d = Ret x -> tuple_of_dict [] = Ret (VNamed "Args" []).
Proof.
  unfold tuple_of_dict, tuple_of_dict_named. simpl.
  destruct (negb (isidentifier "Args")); [discriminate|].
  destruct (iskeyword "Args"); [discriminate|]. reflexivity.
Qed.

(** A postcondition of three arguments on a function that has no preserver
    gets the empty record as the snapshot. *)
Theorem snapshot_without_preservers
    (c : contract) (f g : func) (w0 w0' : world) (t0 : trace)
    (args : list value) (kwargs : dict value) (rargs : value) (w : world)
    (result : value) (w2 : world) (t2 : trace) (h3 : heap) :
  condition c f w0 = (Ret g, w0', t0) ->
  pred_arg_count (predicate c) = 3 ->
  build_call f args kwargs = Ret rargs ->
  contract_preserver (get_wrapped_func f) w = None ->
  call f args kwargs w = (Ret result, w2, t2) ->
  pred_run (predicate c) [rargs; result; VNamed "Args" []] (w_heap w2)
    = (Ret true, h3) ->
  call g args kwargs w
  = (Ret result, set_heap h3 w2,
     (EvPreserver rargs (Ret []) :: t2
      ++ [EvPredicate Post (description c)
            [rargs; result; VNamed "Args" []]])%list).
Proof.
  intros Hg H3 Hb Hcp Hf Hp.
  destruct (layer_three_arguments _ _ _ _ _ _ Hg H3) as (Hi & Hpre & Hpost).
  assert (Hr : layer_rargs c f args kwargs rargs)
    by (unfold layer_rargs; rewrite Hi; exact Hb).
  assert (Hpass : precondition_passes c rargs w (w_heap w))
    by (unfold precondition_passes; rewrite Hpre; reflexivity).
  assert (Hps : run_preservers (preservers_of (get_wrapped_func f) w) rargs []
                  (set_heap (w_heap w) w)
                = (Ret [], w, [EvPreserver rargs (Ret [])])).
  { unfold preservers_of. rewrite Hcp, set_heap_same. simpl.
    unfold bind, call_preserver, ret. simpl. rewrite set_heap_same.
    reflexivity. }
  rewrite (layer_call_returns _ _ _ _ _ _ _ _ _ _ _ _ _ _ _ _ Hg
             (inner_before_run _ _ _ _ _ _ _ _ _ _ _ Hr Hpass Hps) Hf).
  destruct (build_call_inv _ _ _ _ Hb) as (fields & _ & _ & Ht).
  assert (Hpargs : post_pargs c rargs [] result
                   = Ret [rargs; result; VNamed "Args" []]).
  { unfold post_pargs. rewrite Hi, H3. simpl Nat.eqb. cbv iota.
    rewrite (tuple_of_dict_empty _ _ Ht). reflexivity. }
  rewrite (inner_after_check c rargs _ result args kwargs w2 _ _ _
             (or_intror Hpost) Hpargs Hp).
  unfold precondition_trace. rewrite Hpre. reflexivity.
Qed.

Lemma namedtuple_fields_underscore names k :
  In k names -> startswith "_" k = true ->
  exists e, namedtuple_fields names = Raise e.
Proof.
  induction names as [|n r IH]; simpl; intros Hin Hk; [contradiction|].
  destruct (startswith "_" n) eqn:E; [eauto|].
  destruct Hin as [->|Hin]; [congruence|]. apply IH; assumption.
Qed.

Lemma tuple_of_dict_underscore d k :
  In k (dict_keys d) -> startswith "_" k = true ->
  exists msg, tuple_of_dict d = Raise (ValueError msg).
Proof.
  intros Hin Hk.
  destruct (tuple_of_dict d) as [x|e] eqn:E.
  - exfalso. unfold tuple_of_dict, tuple_of_dict_named in E.
    destruct (namedtuple_names _); [|discriminate]. simpl in E.
    destruct (namedtuple_fields_underscore _ _ Hin Hk) as (e & He).
    rewrite He in E. discriminate.
  - destruct (tuple_of_dict_raises _ _ E) as (m & ->). eauto.
Qed.

(** A name that starts with an underscore in the mapping of a preserver is
    found out only after the function ran: the snapshot cannot be made a
    record, the call raises [ValueError] where it would have checked the
    postcondition, and what the function did stays. *)
Theorem snapshot_name_with_underscore
    (c : contract) (f g : func) (w0 w0' : world) (t0 : trace)
    (args : list value) (kwargs : dict value) (rargs : value) (w : world)
    (pv : dict value) (w1 : world) (t1 : trace)
    (result : value) (w2 : world) (t2 : trace) (k : string) :
  condition c f w0 = (Ret g, w0', t0) ->
  pred_arg_count (predicate c) = 3 ->
  build_call f args kwargs = Ret rargs ->
  run_preservers (preservers_of (get_wrapped_func f) w) rargs [] w
    = (Ret pv, w1, t1) ->
  call f args kwargs w1 = (Ret result, w2, t2) ->
  In k (dict_keys pv) ->
  startswith "_" k = true ->
  exists msg,
    call g args kwargs w = (Raise (ValueError msg), w2, (t1 ++ t2)%list).
Proof.
  intros Hg H3 Hb Hps Hf Hin Hk.
  destruct (layer_three_arguments _ _ _ _ _ _ Hg H3) as (Hi & Hpre & Hpost).
  assert (Hr : layer_rargs c f args kwargs rargs)
    by (unfold layer_rargs; rewrite Hi; exact Hb).
  assert (Hpass : precondition_passes c rargs w (w_heap w))
    by (unfold precondition_passes; rewrite Hpre; reflexivity).
  destruct (tuple_of_dict_underscore _ _ Hin Hk) as (msg & Hmsg).
  exists msg.
  rewrite <- (set_heap_same w) in Hps at 2.
  rewrite (layer_call_returns _ _ _ _ _ _ _ _ _ _ _ _ _ _ _ _ Hg
             (inner_before_run _ _ _ _ _ _ _ _ _ _ _ Hr Hpass Hps) Hf).
  unfold inner_after. rewrite Hi, Hpost, H3. simpl Nat.eqb. cbv iota.
  unfold bind, lift. rewrite Hmsg.
  unfold precondition_trace. rewrite Hpre. rewrite !app_nil_r. reflexivity.
Qed.

(** ** A stack of contracts that hold *)

Lemma layer_holds c f g w0 w0' t0 args kwargs rargs w pv t1 result w2 t2 :
  condition c f w0 = (Ret g, w0', t0) ->
  layer_rargs c f args kwargs rargs ->
  precondition_passes c rargs w (w_heap w) ->
  run_preservers (preservers_of (get_wrapped_func f) w) rargs [] w
    = (Ret pv, w, t1) ->
  call f args kwargs w = (Ret result, w2, t2) ->
  check_holds c rargs pv result (w_heap w2) ->
  call g args kwargs w
  = (Ret result, w2,
     (precondition_trace c rargs ++ t1 ++ t2
      ++ holding_trace c rargs pv result)%list).
Proof.
  intros Hg Hr Hpre Hps Hf Hc.
  rewrite <- (set_heap_same w) in Hps at 2.
  rewrite (layer_call_returns _ _ _ _ _ _ _ _ _ _ _ _ _ _ _ _ Hg
             (inner_before_run _ _ _ _ _ _ _ _ _ _ _ Hr Hpre Hps) Hf).
  unfold check_holds in Hc. unfold holding_trace.
  destruct (instance c) eqn:Ei.
  - destruct (Hc (or_introl eq_refl)) as (pargs & Hp & Ht).
    rewrite (inner_after_check _ _ _ _ _ _ _ _ _ _ (or_introl Ei) Hp Ht).
    simpl. rewrite Hp, set_heap_same, <- app_assoc. reflexivity.
  - destruct (postcondition c) eqn:Eo.
    + destruct (Hc (or_intror eq_refl)) as (pargs & Hp & Ht).
      rewrite (inner_after_check _ _ _ _ _ _ _ _ _ _ (or_intror Eo) Hp Ht).
      simpl. rewrite Hp, set_heap_same, <- app_assoc. reflexivity.
    + unfold inner_after. rewrite Ei, Eo. simpl.
      rewrite <- app_assoc. reflexivity.
Qed.

(** Contracts stacked on a function that all hold on a call, with
    predicates and preservers that return and leave the heap as they found
    it, are transparent together: the result and the world are those of the
    function; before it the preconditions and the preservers ran layer by
    layer from the outermost, after it the checks from the innermost. *)
Theorem holding_stack_is_transparent
    (cs : list contract) (f g : func) (w0 w0' : world) (t0 : trace)
    (args : list value) (kwargs : dict value) (rargs : value) (w : world)
    (pv : dict value) (t1 : trace)
    (result : value) (w2 : world) (t2 : trace) :
  stack cs f w0 = (Ret g, w0', t0) ->
  build_call f args kwargs = Ret rargs ->
  run_preservers (preservers_of (get_wrapped_func f) w) rargs [] w
    = (Ret pv, w, t1) ->
  call f args kwargs w = (Ret result, w2, t2) ->
  Forall (fun c =>
            instance c = false /\
            precondition_passes c rargs w (w_heap w) /\
            check_holds c rargs pv result (w_heap w2)) cs ->
  call g args kwargs w
  = (Ret result, w2,
     (flat_map (fun c => precondition_trace c rargs ++ t1) cs
      ++ t2
      ++ flat_map (fun c => holding_trace c rargs pv result) (rev cs))%list).
Proof.
  intros Hst Hb Hps Hf Hall. revert g w0 w0' t0 Hst.
  induction cs as [|c r IH]; intros g w0 w0' t0 Hst.
  - simpl in Hst. inversion Hst; subst. simpl. rewrite app_nil_r. exact Hf.
  - simpl in Hst. apply bind_inv_Ret in Hst.
    destruct Hst as (g' & wa & ta & ta' & Hr & Hc & _).
    inversion Hall as [|? ? (Hi & Hpre & Hch) Hrest]; subst.
    assert (Hw := stack_wrapped _ _ _ _ _ _ Hr).
    assert (Hl : layer_rargs c g' args kwargs rargs).
    { unfold layer_rargs. rewrite Hi.
      rewrite (build_call_same_wrapped _ _ _ _ Hw). exact Hb. }
    rewrite <- Hw in Hps.
    rewrite (layer_holds c g' g wa w0' ta' args kwargs rargs w pv t1 result
               w2 _ Hc Hl Hpre Hps (IH Hrest _ _ _ _ Hr) Hch).
    simpl. rewrite flat_map_app. simpl.
    rewrite !app_nil_r, <- !app_assoc. reflexivity.
Qed.

(** ** The front end [ensure] *)

Lemma ensure_inv a1 a2 a3 a4 f g w0 w0' t0 :
  ensure a1 a2 a3 a4 f w0 = (Ret g, w0', t0) ->
  exists c,
    ensure_contract a1 a2 a3 a4 = Ret c /\
    condition c f w0 = (Ret g, w0', t0).
Proof.
  unfold ensure, bind, lift.
  destruct (ensure_contract a1 a2 a3 a4) as [c|e]; [|discriminate].
  destruct (condition c f w0) as [[o w'] t] eqn:E.
  intros H. inversion H; subst. exists c. split; [reflexivity|exact E].
Qed.

(** What a layer does when the check after the call fails. *)
Lemma layer_violation c f g w0 w0' t0 args kwargs rargs w h pv w1 t1
      result w2 t2 pargs h3 :
  condition c f w0 = (Ret g, w0', t0) ->
  instance c = true \/ postcondition c = true ->
  layer_rargs c f args kwargs rargs ->
  precondition_passes c rargs w h ->
  run_preservers (preservers_of (get_wrapped_func f) w) rargs []
    (set_heap h w) = (Ret pv, w1, t1) ->
  call f args kwargs w1 = (Ret result, w2, t2) ->
  post_pargs c rargs pv result = Ret pargs ->
  pred_run (predicate c) pargs (w_heap w2) = (Ret false, h3) ->
  call g args kwargs w
  = match postcondition_failed c args kwargs (set_heap h3 w2) with
    | (o, w3, t3) =>
        (match o with Ret _ => Ret result | Raise e => Raise e end, w3,
         (precondition_trace c rargs ++ t1
          ++ t2 ++ EvPredicate Post (description c) pargs :: t3)%list)
    end.
Proof.
  intros Hg Hkind Hr Hpre Hps Hf Hpargs Hpost.
  rewrite (layer_call_returns _ _ _ _ _ _ _ _ _ _ _ _ _ _ _ _ Hg
             (inner_before_run _ _ _ _ _ _ _ _ _ _ _ Hr Hpre Hps) Hf).
  rewrite (inner_after_check _ _ _ _ _ _ _ _ _ _ Hkind Hpargs Hpost).
  destruct (postcondition_failed c args kwargs (set_heap h3 w2))
    as [[[u|e] w3] t3]; rewrite <- app_assoc; reflexivity.
Qed.

(** [ensure(description, predicate)]: a violation raises
    [PostconditionError] with the description and the errno 0, after the
    function ran; what the function did stays. *)
Theorem ensure_violation_has_errno_zero
    (d : string) (p : pyfunction) (f g : func) (w0 w0' : world) (t0 : trace)
    (args : list value) (kwargs : dict value) (rargs : value) (w : world)
    (pv : dict value) (w1 : world) (t1 : trace)
    (result : value) (w2 : world) (t2 : trace) (pargs : list value)
    (h3 : heap) :
  ensure (EStr d) (EFun p) ENone ENone f w0 = (Ret g, w0', t0) ->
  build_call f args kwargs = Ret rargs ->
  run_preservers (preservers_of (get_wrapped_func f) w) rargs [] w
    = (Ret pv, w1, t1) ->
  call f args kwargs w1 = (Ret result, w2, t2) ->
  post_pargs (postcondition_of d (fn_predicate p) None) rargs pv result
    = Ret pargs ->
  pred_run (fn_predicate p) pargs (w_heap w2) = (Ret false, h3) ->
  call g args kwargs w
  = (Raise (PostconditionError d (VInt 0)), set_heap h3 w2,
     (t1 ++ t2 ++ [EvPredicate Post d pargs])%list).
Proof.
  intros He Hb Hps Hf Hpargs Hp.
  destruct (ensure_inv _ _ _ _ _ _ _ _ _ He) as (c & Hc & Hg).
  inversion Hc; subst c; clear Hc.
  rewrite <- (set_heap_same w) in Hps at 2.
  rewrite (layer_violation _ _ _ _ _ _ _ _ _ _ _ _ _ _ _ _ _ _ _ Hg
             (or_intror eq_refl) Hb eq_refl Hps Hf Hpargs Hp).
  reflexivity.
Qed.

(** [ensure(description, predicate, errno, clean_up)]: on a violation the
    clean-up action runs on the arguments of the call, and then
    [PostconditionError] is raised with the errno that was given; a clean-up
    that fails adds its text to the description. *)
Theorem ensure_violation_runs_clean_up
    (d : string) (p q : pyfunction) (z : Z) (f g : func)
    (w0 w0' : world) (t0 : trace)
    (args : list value) (kwargs : dict value) (rargs : value) (w : world)
    (pv : dict value) (w1 : world) (t1 : trace)
    (result : value) (w2 : world) (t2 : trace) (pargs : list value)
    (h3 : heap) :
  ensure (EStr d) (EFun p) (EInt z) (EFun q) f w0 = (Ret g, w0', t0) ->
  build_call f args kwargs = Ret rargs ->
  run_preservers (preservers_of (get_wrapped_func f) w) rargs [] w
    = (Ret pv, w1, t1) ->
  call f args kwargs w1 = (Ret result, w2, t2) ->
  post_pargs (postcondition_of d (fn_predicate p) None) rargs pv result
    = Ret pargs ->
  pred_run (fn_predicate p) pargs (w_heap w2) = (Ret false, h3) ->
  call g args kwargs w
  = (Raise (PostconditionError
              match fst (fn_clean_up q args kwargs h3) with
              | Ret _ => d
              | Raise e => d ++ ". Clean up failed: " ++ exn_str e
              end (VInt z)),
     set_heap (snd (fn_clean_up q args kwargs h3)) w2,
     (t1 ++ t2 ++ [EvPredicate Post d pargs; EvCleanUp args kwargs])%list).
Proof.
  intros He Hb Hps Hf Hpargs Hp.
  destruct (ensure_inv _ _ _ _ _ _ _ _ _ He) as (c & Hc & Hg).
  inversion Hc; subst c; clear Hc.
  rewrite <- (set_heap_same w) in Hps at 2.
  rewrite (layer_violation _ _ _ _ _ _ _ _ _ _ _ _ _ _ _ _ _ _ _ Hg
             (or_intror eq_refl) Hb eq_refl Hps Hf Hpargs Hp).
  erewrite postcondition_failed_clean_up by reflexivity.
  cbn [description errno w_heap set_heap].
  destruct (fn_clean_up q args kwargs h3) as [[u|e] h];
    destruct z; reflexivity.
Qed.

(** [ensure(description, predicate, clean_up)], the form without an errno:
    the function given for the clean-up takes the place of the errno and the
    contract has no clean-up action.  On a violation nothing is cleaned up,
    and the function object is the errno of the [PostconditionError]. *)
Theorem ensure_clean_up_without_errno_never_runs
    (d : string) (p q : pyfunction) (f g : func)
    (w0 w0' : world) (t0 : trace)
    (args : list value) (kwargs : dict value) (rargs : value) (w : world)
    (pv : dict value) (w1 : world) (t1 : trace)
    (result : value) (w2 : world) (t2 : trace) (pargs : list value)
    (h3 : heap) :
  ensure (EStr d) (EFun p) (EFun q) ENone f w0 = (Ret g, w0', t0) ->
  build_call f args kwargs = Ret rargs ->
  run_preservers (preservers_of (get_wrapped_func f) w) rargs [] w
    = (Ret pv, w1, t1) ->
  call f args kwargs w1 = (Ret result, w2, t2) ->
  post_pargs (postcondition_of d (fn_predicate p) None) rargs pv result
    = Ret pargs ->
  pred_run (fn_predicate p) pargs (w_heap w2) = (Ret false, h3) ->
  call g args kwargs w
  = (Raise (PostconditionError d (VRef (fn_ref q))), set_heap h3 w2,
     (t1 ++ t2 ++ [EvPredicate Post d pargs])%list).
Proof.
  intros He Hb Hps Hf Hpargs Hp.
  destruct (ensure_inv _ _ _ _ _ _ _ _ _ He) as (c & Hc & Hg).
  inversion Hc; subst c; clear Hc.
  rewrite <- (set_heap_same w) in Hps at 2.
  rewrite (layer_violation _ _ _ _ _ _ _ _ _ _ _ _ _ _ _ _ _ _ _ Hg
             (or_intror eq_refl) Hb eq_refl Hps Hf Hpargs Hp).
  reflexivity.
Qed.

(** ** The wrappers of [preserve] and [transform] *)

Lemma preserve_inv p f g w w' t :
  preserve p f w = (Ret g, w', t) ->
  exists id,
    g = Func id (func_name f) inner_spec true (contract_wrapped_func f)
             (PreserveInner f).
Proof.
  unfold preserve, bind, fresh_id, wraps_dict, append_preserver, ret. simpl.
  destruct (nat_assoc (func_id f) (w_preserver_attr w)); simpl;
    try destruct (Nat.eqb (func_id (get_wrapped_func f)) (w_next w));
    try destruct (nat_assoc (func_id (get_wrapped_func f))
                            (w_preserver_attr w));
    intros H; inversion H; subst; eauto.
Qed.

Lemma some_values_set k v (d : dict value) :
  some_values (dict_set k v d) = dict_set k (Some v) (some_values d).
Proof.
  induction d as [|[k0 v0] r IH]; simpl; [reflexivity|].
  destruct (String.eqb k k0); simpl; [reflexivity|].
  rewrite IH. reflexivity.
Qed.

Lemma some_values_update (d e : dict value) :
  some_values (dict_update d e) = dict_update (some_values d) (some_values e).
Proof.
  unfold dict_update. revert d.
  induction e as [|[k v] r IH]; intros d; simpl; [reflexivity|].
  rewrite IH, some_values_set. reflexivity.
Qed.

Lemma build_call_inner_spec id name b code args kwargs :
  build_call (Func id name inner_spec b None code) args kwargs
  = if in_names "func" (dict_keys kwargs)
    then Raise (TypeError
                  "build_call() got multiple values for argument 'func'")
    else tuple_of_dict (dict_update [("args", VTuple args)] kwargs).
Proof.
  unfold build_call, build_call_actual.
  destruct (in_names "func" (dict_keys kwargs)); [reflexivity|]. simpl.
  change [("args", Some (VTuple args))]
    with (some_values [("args", VTuple args)]).
  rewrite <- some_values_update, check_nonce_some_values. reflexivity.
Qed.

(** What a contract applied over the wrapper of [preserve] or [transform]
    sees as the arguments.  Over a function that carries contracts already
    the wrapper leads to the same function, and the record is the same.
    Over a plain function the wrapper leads nowhere: the record is that of
    its own signature, one field [args] with all positional arguments, and
    the named arguments after it; a named argument called [func] is the
    [TypeError] of [build_call] here as well. *)
Theorem build_call_through_wrapper
    (p : preserver_fn) (tr : transformer_fn) (f g : func)
    (w w' : world) (t : trace) (args : list value) (kwargs : dict value) :
  preserve p f w = (Ret g, w', t) \/ transform tr f w = (Ret g, w', t) ->
  build_call g args kwargs
  = match contract_wrapped_func f with
    | Some _ => build_call f args kwargs
    | None =>
        if in_names "func" (dict_keys kwargs)
        then Raise (TypeError
                      "build_call() got multiple values for argument 'func'")
        else tuple_of_dict (dict_update [("args", VTuple args)] kwargs)
    end.
Proof.
  intros H.
  assert (Hg : exists id code,
    g = Func id (func_name f) inner_spec true (contract_wrapped_func f) code).
  { destruct H as [H|H].
    - destruct (preserve_inv _ _ _ _ _ _ H) as (id & ->). eauto.
    - destruct (transform_inv _ _ _ _ _ _ H) as (id & ->). eauto. }
  destruct Hg as (id & code & ->).
  destruct f as [fid fname fspec fb [x|] fcode]; simpl.
  - reflexivity.
  - apply build_call_inner_spec.
Qed.

Lemma wraps_dict_wf f id w u w' t :
  wraps_dict f id w = (Ret u, w', t) ->
  attributes_wf w ->
  attributes_wf w' /\ w_next w' = w_next w.
Proof.
  unfold wraps_dict, attributes_wf. intros H Hwf.
  destruct (nat_assoc (func_id f) (w_preserver_attr w)) as [lf|] eqn:Ef;
    inversion H; subst; clear H; simpl; (split; [|reflexivity]);
    [|exact Hwf].
  intros k l Hk. simpl in Hk.
  destruct (Nat.eqb k id).
  - inversion Hk; subst. exact (Hwf _ _ Ef).
  - exact (Hwf _ _ Hk).
Qed.

Lemma append_preserver_wf g p w u w' t :
  append_preserver g p w = (Ret u, w', t) ->
  attributes_wf w ->
  attributes_wf w' /\ w_next w' = w_next w.
Proof.
  unfold append_preserver, attributes_wf. intros H Hwf.
  destruct (nat_assoc (func_id g) (w_preserver_attr w)) as [l|] eqn:El;
    inversion H; subst; clear H;
    cbn [w_preserver_lists w_preserver_attr w_next w_heap];
    (split; [|reflexivity]); intros k l0 Hk.
  - assert (Hl := Hwf _ _ El). assert (Hl0 := Hwf _ _ Hk).
    change (match w_preserver_lists w with
            | [] => []
            | _ :: l1 => skipn l l1
            end) with (skipn (S l) (w_preserver_lists w)).
    rewrite length_app, length_firstn. cbn [Datatypes.length].
    rewrite length_skipn. lia.
  - rewrite length_app. simpl. simpl in Hk.
    destruct (Nat.eqb k (func_id g)).
    + inversion Hk; subst. lia.
    + assert (Hl0 := Hwf _ _ Hk). lia.
Qed.

Lemma preserve_world p f w g w' t :
  preserve p f w = (Ret g, w', t) ->
  attributes_wf w ->
  attributes_wf w' /\ w_next w' = S (w_next w).
Proof.
  intros H Hwf. unfold preserve in H.
  apply bind_inv_Ret in H. destruct H as (id & wa & ta & ta' & Ha & H & _).
  apply bind_inv_Ret in H. destruct H as (u & wb & tb & tb' & Hb & H & _).
  apply bind_inv_Ret in H. destruct H as (u' & wc & tc & tc' & Hc & H & _).
  inversion H; subst; clear H.
  assert (Hwa : attributes_wf wa /\ w_next wa = S (w_next w)).
  { unfold fresh_id in Ha. inversion Ha; subst. split; [exact Hwf|reflexivity]. }
  destruct Hwa as (Hwa & Hna).
  destruct (wraps_dict_wf _ _ _ _ _ _ Hb Hwa) as (Hwb & Hnb).
  destruct (append_preserver_wf _ _ _ _ _ _ Hc Hwb) as (Hwc & Hnc).
  split; [exact Hwc|]. rewrite Hnc, Hnb. exact Hna.
Qed.

(** Preservers written above a function that carries a contract accumulate
    on the innermost function, the one applied first at the head: a contract
    of that function sees both. *)
Theorem preservers_above_a_contract_accumulate
    (p1 p2 : preserver_fn) (f x g2 g1 : func)
    (w w2 w1 : world) (t2 t1 : trace) :
  contract_wrapped_func f = Some x ->
  preserve p2 f w = (Ret g2, w2, t2) ->
  preserve p1 g2 w2 = (Ret g1, w1, t1) ->
  attributes_wf w ->
  func_id (get_wrapped_func f) < w_next w ->
  contract_preserver (get_wrapped_func f) w1
  = Some (match contract_preserver (get_wrapped_func f) w with
          | Some ps => ps ++ [p2; p1]
          | None => [p2; p1]
          end)%list
  /\ forall args kwargs, call g1 args kwargs = call f args kwargs.
Proof.
  intros Hx H2 H1 Hwf Hid.
  assert (Hsame : get_wrapped_func g2 = get_wrapped_func f).
  { destruct (preserve_inv _ _ _ _ _ _ H2) as (id & ->).
    destruct f as [fid fname fspec fb fw fcode]. simpl in *. subst fw.
    reflexivity. }
  destruct (preserve_registers _ _ _ _ _ _ H2 Hwf) as (Ha & _ & Hcall2);
    [lia|].
  destruct (preserve_world _ _ _ _ _ _ H2 Hwf) as (Hwf2 & Hn2).
  destruct (preserve_registers _ _ _ _ _ _ H1 Hwf2) as (Hb & _ & Hcall1).
  { rewrite Hsame, Hn2. lia. }
  rewrite Hsame, Ha in Hb. split.
  - rewrite Hb. f_equal.
    destruct (contract_preserver (get_wrapped_func f) w); simpl;
      [rewrite <- app_assoc|]; reflexivity.
  - intros args kwargs. rewrite Hcall1. apply Hcall2.
Qed.

(** A contract under [transform] sees the arguments as the transformer
    returned them, when no field of the record is called [func]: a
    precondition that fails on the transformed record raises, whatever it
    would say of the arguments of the call, and the function does not
    run. *)
Theorem transform_feeds_the_contract_below
    (tr : transformer_fn) (c : contract) (f0 f g : func)
    (w0 w1 w1' : world) (t0 t1 : trace)
    (args : list value) (kwargs : dict value)
    (fields fields' : dict value) (tn : string) (w : world)
    (h1 h2 : heap) :
  condition c f0 w0 = (Ret f, w1, t0) ->
  transform tr f w1 = (Ret g, w1', t1) ->
  precondition c = true ->
  instance c = false ->
  build_call f0 args kwargs = Ret (VNamed "Args" fields) ->
  tr (VNamed "Args" fields) (w_heap w) = (Ret (VNamed tn fields'), h1) ->
  dict_keys fields' = dict_keys fields ->
  in_names "func" (dict_keys fields) = false ->
  pred_run (predicate c) [VNamed "Args" fields'] h1 = (Ret false, h2) ->
  call g args kwargs w
  = (Raise (PreconditionError (description c) (errno c)), set_heap h2 w,
     [EvTransformer (VNamed "Args" fields);
      EvPredicate Pre (description c) [VNamed "Args" fields']]).
Proof.
  intros Hc Ht Hpre Hi Hb Htr Hk Hfunc Hp.
  destruct (transform_inv _ _ _ _ _ _ Ht) as (id & ->).
  destruct (condition_inv _ _ _ _ _ _ Hc) as (_ & _ & _ & _ & id0 & ->).
  cbn [call]. unfold transform_inner.
  assert (Hb' : build_call
            (Func id0 (func_name f0) inner_spec true
                  (Some (get_wrapped_func f0))
                  (CondInner c f0 (get_wrapped_func f0))) args kwargs
          = Ret (VNamed "Args" fields)).
  { rewrite <- Hb. apply build_call_same_wrapped. simpl.
    apply get_wrapped_func_idem. }
  unfold bind at 1. unfold lift at 1. rewrite Hb'.
  unfold bind at 1. unfold emit at 1.
  unfold bind at 1. unfold exec at 1. rewrite Htr.
  unfold bind at 1. unfold lift at 1. simpl asdict.
  assert (Hl : layer_rargs c f0 [] fields' (VNamed "Args" fields')).
  { unfold layer_rargs. rewrite Hi.
    apply (build_call_record_again _ _ _ _ _ Hb Hk).
    rewrite Hk. exact Hfunc. }
  cbn iota.
  fold (condition_inner (call f0) c f0 (get_wrapped_func f0) [] fields').
  unfold condition_inner.
  rewrite (bind_Raise _ _ _ _ _ _
             (inner_before_fails c f0 (get_wrapped_func f0) [] fields'
                _ (set_heap h1 w) h2 Hpre Hl Hp)).
  reflexivity.
Qed.

(** ** [rewrite] *)

Lemma replace_fields_keys fields kwds :
  dict_keys (replace_fields fields kwds) = dict_keys fields.
Proof.
  unfold replace_fields, dict_keys. rewrite map_map. reflexivity.
Qed.

Lemma replace_fields_get fields kwds k old :
  dict_get k fields = Some old ->
  dict_get k (replace_fields fields kwds)
  = Some (match dict_get k kwds with Some x => x | None => old end).
Proof.
  induction fields as [|[k0 v0] r IH]; simpl; intros H; [discriminate|].
  destruct (String.eqb k k0) eqn:E.
  - apply String.eqb_eq in E. subst k0. inversion H; subst. reflexivity.
  - apply IH. exact H.
Qed.

Lemma left_over_In fields kwds n :
  In n (left_over fields kwds)
  <-> In n (dict_keys kwds) /\ ~ In n (dict_keys fields).
Proof.
  unfold left_over, dict_keys. split.
  - intros H. apply in_map_iff in H. destruct H as ([k v] & <- & Hin).
    apply filter_In in Hin. destruct Hin as (Hin & Hf). simpl in *. split.
    + apply in_map_iff. exists (k, v). split; [reflexivity|exact Hin].
    + apply in_names_not_In. apply negb_true_iff. exact Hf.
  - intros (Hk & Hn). apply in_map_iff in Hk.
    destruct Hk as ([k v] & <- & Hin). apply in_map_iff. exists (k, v).
    split; [reflexivity|]. apply filter_In. split; [exact Hin|].
    simpl in *. apply negb_true_iff. apply in_names_not_In. exact Hn.
Qed.

(** [rewrite] with names that are all fields of the record returns a record
    of the same type with the same fields in the same order; a field that
    was named has the new value, the others keep theirs. *)
Theorem rewrite_replaces_fields
    (unexpected : list string -> exn) (tn : string)
    (fields kwargs : dict value) :
  in_names "args" (dict_keys kwargs) = false ->
  (forall k, In k (dict_keys kwargs) -> In k (dict_keys fields)) ->
  exists fields',
    rewrite unexpected (VNamed tn fields) kwargs = Ret (VNamed tn fields') /\
    dict_keys fields' = dict_keys fields /\
    forall k old,
      dict_get k fields = Some old ->
      dict_get k fields'
      = Some (match dict_get k kwargs with Some x => x | None => old end).
Proof.
  intros Hargs Hall. exists (replace_fields fields kwargs).
  split; [|split].
  - unfold rewrite. rewrite Hargs.
    destruct (left_over fields kwargs) as [|n r] eqn:E; [reflexivity|].
    exfalso.
    assert (Hn : In n (left_over fields kwargs)) by (rewrite E; left; reflexivity).
    apply left_over_In in Hn. destruct Hn as (Hk & Hf).
    apply Hf. apply Hall. exact Hk.
  - apply replace_fields_keys.
  - intros k old. apply replace_fields_get.
Qed.

(** [rewrite] with a name that is no field of the record raises the error of
    the record type for exactly the names that are no fields, in the order
    in which they were given, and returns no record. *)
Theorem rewrite_unknown_field
    (unexpected : list string -> exn) (tn : string)
    (fields kwargs : dict value) (k : string) :
  in_names "args" (dict_keys kwargs) = false ->
  In k (dict_keys kwargs) ->
  ~ In k (dict_keys fields) ->
  rewrite unexpected (VNamed tn fields) kwargs
  = Raise (unexpected (left_over fields kwargs))
  /\ In k (left_over fields kwargs)
  /\ forall n, In n (left_over fields kwargs)
               <-> In n (dict_keys kwargs) /\ ~ In n (dict_keys fields).
Proof.
  intros Hargs Hk Hf.
  assert (Hin : In k (left_over fields kwargs))
    by (apply left_over_In; split; assumption).
  split; [|split; [exact Hin|intros n; apply left_over_In]].
  unfold rewrite. rewrite Hargs.
  destruct (left_over fields kwargs) as [|n r]; [contradiction|reflexivity].
Qed.

(** The record of a call, rewritten, and passed to [build_call] as named
    arguments: when no field is called [func] it comes back as it is, so
    that what a transformer makes with [rewrite] is what the contracts
    below it and the function receive; when a field is called [func] it is
    the [TypeError] of [build_call]. *)
Theorem rewritten_record_normalizes_to_itself
    (unexpected : list string -> exn) (f : func)
    (args : list value) (kwargs changes : dict value) (r r' : value) :
  build_call f args kwargs = Ret r ->
  rewrite unexpected r changes = Ret r' ->
  exists fields',
    r' = VNamed "Args" fields' /\
    build_call f [] fields'
    = if in_names "func" (dict_keys fields')
      then Raise (TypeError
                    "build_call() got multiple values for argument 'func'")
      else Ret r'.
Proof.
  intros Hb Hr.
  destruct (build_call_inv _ _ _ _ Hb) as (fields & _ & -> & _).
  unfold rewrite in Hr.
  destruct (in_names "args" (dict_keys changes)); [discriminate|].
  destruct (left_over fields changes); [|discriminate].
  inversion Hr; subst. eexists. split; [reflexivity|].
  destruct (in_names "func" (dict_keys (replace_fields fields changes)))
    eqn:Hfunc.
  - apply build_call_func. exact Hfunc.
  - apply (build_call_record_again _ _ _ _ _ Hb); [|exact Hfunc].
    apply replace_fields_keys.
Qed.

(** ** [types] *)

Section Types.

Variable kind : Type.
Variable isinstance : value -> kind -> heap -> bool.
Variable other_attribute : value -> string -> option (kind -> bool).

Lemma In_insert_sorted {A} (x y : string * A) l :
  In y (insert_sorted x l) <-> y = x \/ In y l.
Proof.
  induction l as [|z r IH]; simpl.
  - split; intros [H|H]; auto.
  - destruct (String.leb (fst x) (fst z)); simpl.
    + split; intros [H|H]; auto.
    + rewrite IH. split; intros H; intuition auto.
Qed.

Lemma In_sorted_items {A} (y : string * A) d :
  In y (sorted_items d) <-> In y d.
Proof.
  induction d as [|x r IH]; simpl; [reflexivity|].
  rewrite In_insert_sorted, IH. split; intros [H|H]; auto.
Qed.

Lemma forallb_insert_sorted {A} (P : string * A -> bool) x l :
  forallb P (insert_sorted x l) = P x && forallb P l.
Proof.
  induction l as [|z r IH]; simpl; [reflexivity|].
  destruct (String.leb (fst x) (fst z)); simpl; [reflexivity|].
  rewrite IH. destruct (P x), (P z); reflexivity.
Qed.

Lemma forallb_sorted_items {A} (P : string * A -> bool) d :
  forallb P (sorted_items d) = forallb P d.
Proof.
  induction d as [|x r IH]; simpl; [reflexivity|].
  rewrite forallb_insert_sorted, IH. reflexivity.
Qed.

Lemma types_loop_fields items tn fields h :
  (forall nk, In nk items -> In (fst nk) (dict_keys fields)) ->
  types_loop kind isinstance other_attribute items (VNamed tn fields) h
  = Ret (forallb
           (fun nk =>
              match dict_get (fst nk) fields with
              | Some v => existsb (fun k => isinstance v k h) (snd nk)
              | None => false
              end) items).
Proof.
  induction items as [|[n ks] r IH]; simpl; intros H; [reflexivity|].
  assert (Hn := H (n, ks) (or_introl eq_refl)). simpl in Hn.
  apply in_names_In in Hn. rewrite dict_get_in_keys in Hn.
  destruct (dict_get n fields) as [v|]; [|discriminate].
  destruct (existsb _ ks); [|reflexivity].
  apply IH. intros nk Hnk. apply H. right. exact Hnk.
Qed.

Lemma types_loop_missing items rargs h :
  (exists nk, In nk items /\
     getattr_isinstance kind isinstance other_attribute rargs (fst nk) h
     = None) ->
  (forall nk is_instance, In nk items ->
     getattr_isinstance kind isinstance other_attribute rargs (fst nk) h
     = Some is_instance ->
     existsb is_instance (snd nk) = true) ->
  exists nk, In nk items /\
    getattr_isinstance kind isinstance other_attribute rargs (fst nk) h
    = None /\
    types_loop kind isinstance other_attribute items rargs h
    = Raise (AssertionError
               ("missing required argument `" ++ fst nk ++ "`")).
Proof.
  induction items as [|[n ks] r IH]; intros (nk & Hin & Hnone) Hall.
  - contradiction.
  - simpl.
    destruct (getattr_isinstance kind isinstance other_attribute rargs n h)
      as [is_instance|] eqn:E.
    + assert (Hks := Hall (n, ks) is_instance (or_introl eq_refl) E).
      simpl in Hks. rewrite Hks.
      destruct Hin as [<-|Hin]; [simpl in Hnone; congruence|].
      destruct IH as (nk' & Hin' & Hnone' & Hloop).
      * exists nk. split; assumption.
      * intros nk0 i0 H0. apply Hall. right. exact H0.
      * exists nk'. split; [right; exact Hin'|]. split; assumption.
    + exists (n, ks). split; [left; reflexivity|]. split; [exact E|].
      reflexivity.
Qed.

Lemma types_inv reqs f g w0 w0' t0 :
  types kind isinstance other_attribute reqs f w0 = (Ret g, w0', t0) ->
  exists id,
    g = Func id (func_name f) inner_spec true (Some (get_wrapped_func f))
          (CondInner
             {| description := "the types of arguments must be valid";
                predicate :=
                  types_predicate kind isinstance other_attribute reqs;
                precondition := true; postcondition := false;
                instance := false; errno := VInt 0; clean_up := None |}
             f (get_wrapped_func f)).
Proof.
  unfold types. intros H.
  destruct (condition_inv _ _ _ _ _ _ H) as (_ & _ & _ & _ & id & ->).
  exists id. reflexivity.
Qed.

(** A function under [types], called with arguments whose record has every
    required name as a field, when the preservers of the function return:
    the call goes through to the function when the value of every required
    field is an instance of one of the classes required of it, and raises
    [PreconditionError] otherwise, whatever the order in which the
    requirements were written. *)
Theorem types_checks_the_fields
    (reqs : dict (list kind)) (f g : func) (w0 w0' : world) (t0 : trace)
    (args : list value) (kwargs : dict value) (fields : dict value)
    (w : world) (pv : dict value) (w1 : world) (t1 : trace) :
  types kind isinstance other_attribute reqs f w0 = (Ret g, w0', t0) ->
  build_call f args kwargs = Ret (VNamed "Args" fields) ->
  (forall n, In n (dict_keys reqs) -> In n (dict_keys fields)) ->
  run_preservers (preservers_of (get_wrapped_func f) w)
    (VNamed "Args" fields) [] w = (Ret pv, w1, t1) ->
  call g args kwargs w
  = if forallb
         (fun nk =>
            match dict_get (fst nk) fields with
            | Some v => existsb (fun k => isinstance v k (w_heap w)) (snd nk)
            | None => false
            end) reqs
    then
      with_trace_prefix
        (EvPredicate Pre "the types of arguments must be valid"
           [VNamed "Args" fields] :: t1)
        (call f args kwargs w1)
    else
      (Raise (PreconditionError "the types of arguments must be valid"
                                (VInt 0)),
       w,
       [EvPredicate Pre "the types of arguments must be valid"
          [VNamed "Args" fields]]).
Proof.
  intros Ht Hb Hall Hps.
  set (c := {| description := "the types of arguments must be valid";
               predicate :=
                 types_predicate kind isinstance other_attribute reqs;
               precondition := true; postcondition := false;
               instance := false; errno := VInt 0; clean_up := None |}).
  assert (Hrun : pred_run (predicate c) [VNamed "Args" fields] (w_heap w)
                 = (Ret (forallb
                           (fun nk =>
                              match dict_get (fst nk) fields with
                              | Some v =>
                                  existsb (fun k => isinstance v k (w_heap w))
                                          (snd nk)
                              | None => false
                              end) reqs), w_heap w)).
  { simpl. rewrite types_loop_fields.
    - rewrite forallb_sorted_items. reflexivity.
    - intros nk Hnk. apply Hall. unfold dict_keys. apply in_map.
      exact (proj1 (In_sorted_items _ _) Hnk). }
  assert (Hl : layer_rargs c f args kwargs (VNamed "Args" fields))
    by exact Hb.
  destruct (forallb _ reqs) eqn:Eall.
  - rewrite <- (set_heap_same w) in Hps at 2.
    assert (Hbefore := inner_before_run c f (get_wrapped_func f) args kwargs
                         _ w _ _ _ _ Hl Hrun Hps).
    destruct (call f args kwargs w1) as [[[result|e] w2] t2] eqn:Ef.
    + rewrite (layer_call_returns _ _ _ _ _ _ _ _ _ _ _ _ _ _ _ _ Ht
                 Hbefore Ef).
      unfold inner_after, bind, ret, with_trace_prefix, precondition_trace.
      simpl. rewrite app_nil_r. reflexivity.
    + rewrite (layer_call_raises _ _ _ _ _ _ _ _ _ _ _ _ _ _ _ _ Ht
                 Hbefore Ef).
      reflexivity.
  - rewrite (layer_call_before_raises _ _ _ _ _ _ _ _ _ _ _ _ Ht
               (inner_before_fails c _ _ _ _ _ _ _ eq_refl Hl Hrun)).
    rewrite set_heap_same. reflexivity.
Qed.

(** A function under [types] with a required name that the record of the
    arguments does not have: when the requirements on the names that it has
    hold, the call raises the [AssertionError] of a missing argument, for a
    name that is indeed missing, and the function does not run. *)
Theorem types_missing_argument
    (reqs : dict (list kind)) (f g : func) (w0 w0' : world) (t0 : trace)
    (args : list value) (kwargs : dict value) (rargs : value) (w : world) :
  types kind isinstance other_attribute reqs f w0 = (Ret g, w0', t0) ->
  build_call f args kwargs = Ret rargs ->
  (exists nk, In nk reqs /\
     getattr_isinstance kind isinstance other_attribute rargs (fst nk)
       (w_heap w) = None) ->
  (forall nk is_instance, In nk reqs ->
     getattr_isinstance kind isinstance other_attribute rargs (fst nk)
       (w_heap w) = Some is_instance ->
     existsb is_instance (snd nk) = true) ->
  exists n,
    In n (dict_keys reqs) /\
    getattr_isinstance kind isinstance other_attribute rargs n (w_heap w)
    = None /\
    call g args kwargs w
    = (Raise (AssertionError ("missing required argument `" ++ n ++ "`")),
       w,
       [EvPredicate Pre "the types of arguments must be valid" [rargs]]).
Proof.
  intros Ht Hb (nk & Hin & Hnone) Hall.
  destruct (types_loop_missing (sorted_items reqs) rargs (w_heap w))
    as (nk' & Hin' & Hnone' & Hloop).
  - exists nk.
    split; [exact (proj2 (In_sorted_items _ _) Hin)|exact Hnone].
  - intros nk0 i0 H0. apply Hall. exact (proj1 (In_sorted_items _ _) H0).
  - exists (fst nk'). split; [|split; [exact Hnone'|]].
    + unfold dict_keys. apply in_map.
      exact (proj1 (In_sorted_items _ _) Hin').
    + set (c := {| description := "the types of arguments must be valid";
                   predicate :=
                     types_predicate kind isinstance other_attribute reqs;
                   precondition := true; postcondition := false;
                   instance := false; errno := VInt 0; clean_up := None |}).
      assert (Hl : layer_rargs c f args kwargs rargs) by exact Hb.
      assert (Hrun : pred_run (predicate c) [rargs] (w_heap w)
                     = (Raise (AssertionError
                                 ("missing required argument `" ++ fst nk'
                                  ++ "`")), w_heap w)).
      { simpl. rewrite Hloop. reflexivity. }
      rewrite (layer_call_before_raises _ _ _ _ _ _ _ _ _ _ _ _ Ht
                 (inner_before_predicate_raises c _ _ _ _ _ _ _ _ eq_refl Hl
                    Hrun)).
      rewrite set_heap_same. reflexivity.
Qed.

End Types.

(** ** Class invariants, the edges *)

Lemma invariant_members_nth desc p c c' w0 w0' t0 i name m :
  invariant_members desc p c w0 = (Ret c', w0', t0) ->
  nth_error c i = Some (name, m) ->
  exists m',
    nth_error c' i = Some (name, m') /\
    (check name m = false -> m' = m) /\
    (forall f im sc,
       check name m = true -> m = Callable f im sc ->
       exists id,
         m' = Callable
                (Func id (func_name f) inner_spec true
                      (Some (get_wrapped_func f))
                      (CondInner (invariant_contract desc p name) f
                                 (get_wrapped_func f)))
                false false).
Proof.
  revert c' w0 w0' t0 i.
  induction c as [|[name0 value0] r IH]; intros c' w0 w0' t0 i H Hn.
  - destruct i; discriminate.
  - simpl in H. apply bind_inv_Ret in H.
    destruct H as (value' & w1 & t1 & t2 & Hv & H & _).
    apply bind_inv_Ret in H.
    destruct H as (r' & w2 & t3 & t4 & Hr & H & _).
    inversion H; subst. clear H.
    destruct i as [|i]; simpl in Hn.
    2:{ destruct (IH _ _ _ _ i Hr Hn) as (m' & Hm' & Hrest).
        exists m'. split; [exact Hm'|exact Hrest]. }
    inversion Hn; subst. clear Hn IH Hr.
    exists value'. split; [reflexivity|].
    destruct (check name m) eqn:Hc.
    + split; [discriminate|]. intros f im sc _ ->.
      apply bind_inv_Ret in Hv.
      destruct Hv as (g & w' & ta & tb & Hg & Hv & _).
      inversion Hv; subst.
      destruct (condition_inv _ _ _ _ _ _ Hg) as (_ & _ & _ & _ & id & ->).
      exists id. reflexivity.
    + inversion Hv; subst. split; [reflexivity|discriminate].
Qed.

(** A method under an invariant takes its receiver from the positional
    arguments: a call without positional arguments, with the receiver given
    by name as well, raises [IndexError] before anything is checked or
    run. *)
Theorem invariant_method_without_positional_receiver
    (desc : string) (p : predicate_fn) (c c' : class)
    (w0 w0' : world) (t0 : trace) (i : nat) (name : string) (f : func) :
  invariant desc p c w0 = (Ret c', w0', t0) ->
  nth_error c i = Some (name, Callable f false false) ->
  isfunction f = true ->
  dunder name = false \/ in_names name exceptions = true ->
  exists g,
    nth_error c' i = Some (name, Callable g false false) /\
    forall kwargs w,
      call g [] kwargs w
      = (Raise (IndexError "tuple index out of range"), w, []).
Proof.
  intros H Hn Hfun Hname.
  destruct (invariant_members_nth _ _ _ _ _ _ _ _ _ _ H Hn)
    as (m' & Hm' & _ & Hwrap).
  destruct (Hwrap f false false (check_function name f Hfun Hname) eq_refl)
    as (id & ->).
  eexists. split; [exact Hm'|]. intros kwargs w. reflexivity.
Qed.



End MoreProperties.

(** * The engine at concrete inputs *)

#[local] Existing Instance example_host.

(** ** The front end [require] *)

(** C6.  [require] with a description and a predicate and no errno hands
    [condition] the errno [None], not 0: it computes [errno or arg3] with
    [errno = 0].  With the precondition "i positive" on [add2], [add2(1, 2)]
    returns 3 and [add2(-1, 2)] raises [PreconditionError] with the
    description "i positive" and the errno [None]. *)
Theorem require_default_errno_is_None :
  (forall (h : Host) d p,
     exists c, @require_contract h (AStr d) (AFun p) ANone = Ret c
               /\ errno c = VNone) /\
  exists g w,
    require (AStr "i positive") (AFun i_positive) ANone add2 world1
      = (Ret g, w, []) /\
    fst (fst (call g [VInt 1; VInt 2] [] w)) = Ret (VInt 3) /\
    fst (fst (call g [VInt (-1); VInt 2] [] w))
      = Raise (PreconditionError "i positive" VNone).
Proof.
  split.
  - intros h d p. eexists. split; reflexivity.
  - eexists. eexists. split; [reflexivity|]. split; reflexivity.
Qed.

(** With an errno given, it is kept. *)
Example require_explicit_errno :
  exists c, require_contract (AStr "i positive") (AFun i_positive) (AInt 3)
            = Ret c /\ errno c = VInt 3.
Proof. eexists. split; reflexivity. Qed.

(** ** Witnesses *)

Lemma precondition_violation_raises_witness :
  exists g w,
    condition (precondition_of "i positive" i_positive (VInt 7)) add2 world1
      = (Ret g, w, []) /\
    call g [VInt (-1); VInt 2] [] w
    = (Raise (PreconditionError "i positive" (VInt 7)), w,
       [EvPredicate Pre "i positive"
          [VNamed "Args" [("i", VInt (-1)); ("j", VInt 2)]]]).
Proof.
  eexists. eexists. split; [reflexivity|].
  exact (precondition_violation_raises
           (precondition_of "i positive" i_positive (VInt 7)) add2 _
           world1 _ [] [VInt (-1); VInt 2] []
           (VNamed "Args" [("i", VInt (-1)); ("j", VInt 2)]) world2 []
           eq_refl eq_refl eq_refl eq_refl).
Defined.

Lemma stacked_precondition_violation_witness :
  exists g w,
    stack [precondition_of "i positive" i_positive (VInt 1);
           precondition_of "j positive" j_positive (VInt 2);
           postcondition_of "result positive" result_positive None]
          add2 world1
      = (Ret g, w, []) /\
    call g [VInt 1; VInt (-2)] [] w
    = (Raise (PreconditionError "j positive" (VInt 2)), w,
       [EvPredicate Pre "i positive"
          [VNamed "Args" [("i", VInt 1); ("j", VInt (-2))]];
        EvPreserver (VNamed "Args" [("i", VInt 1); ("j", VInt (-2))])
                    (Ret []);
        EvPredicate Pre "j positive"
          [VNamed "Args" [("i", VInt 1); ("j", VInt (-2))]]]).
Proof.
  eexists. eexists. split; [reflexivity|].
  refine (proj1
            (stacked_precondition_violation
               [precondition_of "i positive" i_positive (VInt 1)]
               (precondition_of "j positive" j_positive (VInt 2))
               [postcondition_of "result positive" result_positive None]
               add2 _ world1 _ [] [VInt 1; VInt (-2)] []
               (VNamed "Args" [("i", VInt 1); ("j", VInt (-2))])
               {| w_heap := []; w_next := 4; w_preserver_attr := [];
                  w_preserver_lists := [] |}
               {| w_heap := []; w_next := 4; w_preserver_attr := [];
                  w_preserver_lists := [] |}
               [EvPredicate Pre "i positive"
                  [VNamed "Args" [("i", VInt 1); ("j", VInt (-2))]];
                EvPreserver (VNamed "Args" [("i", VInt 1); ("j", VInt (-2))])
                            (Ret [])]
               []
               eq_refl _ eq_refl eq_refl eq_refl)).
  simpl. do 6 eexists. repeat split; reflexivity.
Defined.

Lemma invariant_checks_eligible_methods_witness :
  exists c' w',
    invariant "counter >= 0" counter_nonnegative counter_class world4
      = (Ret c', w', []) /\
    nth_error c' 2 = Some ("__repr__", Callable counter_repr false false) /\
    nth_error c' 4 = Some ("limit", Data (VInt 3)) /\
    nth_error c' 5 = Some ("make", Callable counter_make true true) /\
    (exists g,
       nth_error c' 0 = Some ("__eq__", Callable g false false) /\
       forall self rest kwargs w,
         call g (self :: rest) kwargs w
         = checked_call "counter >= 0" counter_nonnegative true counter_eq
             self rest kwargs w) /\
    (exists g,
       nth_error c' 1 = Some ("__init__", Callable g false false) /\
       forall self rest kwargs w,
         call g (self :: rest) kwargs w
         = checked_call "counter >= 0" counter_nonnegative false counter_init
             self rest kwargs w) /\
    (exists g,
       nth_error c' 3 = Some ("increment", Callable g false false) /\
       (forall self rest kwargs w,
          call g (self :: rest) kwargs w
          = checked_call "counter >= 0" counter_nonnegative true increment
              self rest kwargs w) /\
       call g [VRef 0; VInt (-20)] [] (set_heap [counter 10] w')
       = (Raise (PostconditionError "counter >= 0" (VInt 0)),
          set_heap [counter (-10)] w',
          [EvPredicate Pre "counter >= 0" [VRef 0];
           EvPreserver (VRef 0) (Ret []);
           EvBody 0 [("self", VRef 0); ("value", VInt (-20))];
           EvPredicate Post "counter >= 0" [VRef 0]])).
Proof.
  eexists. eexists. split; [reflexivity|].
  assert (Hrepr : private_style "__repr__"
                  /\ ~ In "__repr__" allow_list /\ "__repr__" <> "__init__").
  { split; [split; [exists "repr__"|exists "__repr"]; reflexivity|].
    split; [|discriminate].
    simpl. intros H.
    repeat (destruct H as [H|H]; [discriminate|]). exact H. }
  assert (Hinc : ~ private_style "increment"
                 \/ In "increment" allow_list \/ "increment" = "__init__").
  { left. intros [[rest H] _]. discriminate. }
  assert (Heq : ~ private_style "__eq__"
                \/ In "__eq__" allow_list \/ "__eq__" = "__init__").
  { right. left. simpl. tauto. }
  split; [|split; [|split; [|split; [|split]]]].
  - destruct (invariant_checks_eligible_methods
                "counter >= 0" counter_nonnegative counter_class _
                world4 _ [] 2 "__repr__" (Callable counter_repr false false)
                eq_refl eq_refl) as (m' & Hm & Hd & _).
    destruct Hrepr as (H1 & H2 & H3).
    rewrite (Hd H1 H2 H3) in Hm. exact Hm.
  - destruct (invariant_checks_eligible_methods
                "counter >= 0" counter_nonnegative counter_class _
                world4 _ [] 4 "limit" (Data (VInt 3))
                eq_refl eq_refl) as (m' & Hm & _ & _ & Hd & _).
    rewrite (Hd _ eq_refl) in Hm. exact Hm.
  - destruct (invariant_checks_eligible_methods
                "counter >= 0" counter_nonnegative counter_class _
                world4 _ [] 5 "make" (Callable counter_make true true)
                eq_refl eq_refl) as (m' & Hm & _ & Hd & _).
    rewrite (Hd _ _ eq_refl) in Hm. exact Hm.
  - destruct (invariant_checks_eligible_methods
                "counter >= 0" counter_nonnegative counter_class _
                world4 _ [] 0 "__eq__" (Callable counter_eq false false)
                eq_refl eq_refl) as (m' & Hm & _ & _ & _ & _ & Hd).
    destruct (Hd _ _ eq_refl eq_refl Heq) as (g & -> & Hcall & _).
    exists g. split; [exact Hm|]. apply Hcall. discriminate.
  - destruct (invariant_checks_eligible_methods
                "counter >= 0" counter_nonnegative counter_class _
                world4 _ [] 1 "__init__" (Callable counter_init false false)
                eq_refl eq_refl) as (m' & Hm & _ & _ & _ & _ & Hd).
    destruct (Hd _ _ eq_refl eq_refl (or_intror (or_intror eq_refl)))
      as (g & -> & _ & Hcall).
    exists g. split; [exact Hm|]. apply Hcall. reflexivity.
  - destruct (invariant_checks_eligible_methods
                "counter >= 0" counter_nonnegative counter_class _
                world4 _ [] 3 "increment" (Callable increment false false)
                eq_refl eq_refl) as (m' & Hm & _ & _ & _ & _ & Hd).
    destruct (Hd _ _ eq_refl eq_refl Hinc) as (g & -> & Hcall & _).
    exists g. split; [exact Hm|].
    assert (Hne : "increment" <> "__init__") by discriminate.
    split; [exact (Hcall Hne)|].
    rewrite (Hcall Hne). reflexivity.
Defined.



Lemma true_precondition_is_transparent_witness :
  exists g w,
    condition (precondition_of "anything" always_true (VInt 0)) add2 world1
      = (Ret g, w, []) /\
    call g [VInt 1; VInt 2] [] w
    = (Ret (VInt 3), w,
       [EvPredicate Pre "anything"
          [VNamed "Args" [("i", VInt 1); ("j", VInt 2)]];
        EvPreserver (VNamed "Args" [("i", VInt 1); ("j", VInt 2)]) (Ret []);
        EvBody 0 [("i", VInt 1); ("j", VInt 2)]]) /\
    call add2 [VInt 1; VInt 2] [] w
    = (Ret (VInt 3), w, [EvBody 0 [("i", VInt 1); ("j", VInt 2)]]).
Proof.
  eexists. eexists. split; [reflexivity|]. split; [|reflexivity].
  exact (true_precondition_is_transparent
           (precondition_of "anything" always_true (VInt 0)) add2 _
           world1 _ [] [VInt 1; VInt 2] []
           (VNamed "Args" [("i", VInt 1); ("j", VInt 2)]) world2
           [] [EvPreserver (VNamed "Args" [("i", VInt 1); ("j", VInt 2)])
                 (Ret [])]
           eq_refl eq_refl eq_refl eq_refl (fun _ _ => eq_refl) eq_refl
           eq_refl).
Defined.

Lemma transform_catch_all_type_error_witness :
  exists f w1 g w,
    stack [precondition_of "anything" always_true (VInt 0)] catch_all world1
      = (Ret f, w1, []) /\
    transform identity f w1 = (Ret g, w, []) /\
    call g [VInt 1; VInt 2; VInt 3] [("func", VInt 0)] w
    = (Raise (TypeError
                "build_call() got multiple values for argument 'func'"),
       w, []) /\
    exists msg,
      call g [VInt 1; VInt 2; VInt 3] [] w
      = (Raise (TypeError msg), w,
         [EvTransformer
            (VNamed "Args" [("a", VInt 1); ("c", VTuple [VInt 2; VInt 3])]);
          EvPredicate Pre "anything"
            [VNamed "Args" [("a", VInt 1); ("c", VTuple [VInt 2; VInt 3])]];
          EvPreserver
            (VNamed "Args" [("a", VInt 1); ("c", VTuple [VInt 2; VInt 3])])
            (Ret [])])
      /\ Forall before_event
           [EvPredicate Pre "anything"
              [VNamed "Args" [("a", VInt 1); ("c", VTuple [VInt 2; VInt 3])]];
            EvPreserver
              (VNamed "Args" [("a", VInt 1); ("c", VTuple [VInt 2; VInt 3])])
              (Ret [])].
Proof.
  do 4 eexists. split; [reflexivity|]. split; [reflexivity|]. split.
  - exact (proj1
             (transform_catch_all_type_error
                identity [precondition_of "anything" always_true (VInt 0)]
                0 "f" (getfullargspec catch_all) true
                (fun locals h => (Ret (local "c" locals), h))
                _ _ world1 _ _ [] [] "c"
                [VInt 1; VInt 2; VInt 3] [("func", VInt 0)]
                {| w_heap := []; w_next := 3; w_preserver_attr := [];
                   w_preserver_lists := [] |}
                eq_refl eq_refl eq_refl eq_refl eq_refl)
             _ eq_refl).
  - refine (proj2
              (transform_catch_all_type_error
                 identity [precondition_of "anything" always_true (VInt 0)]
                 0 "f" (getfullargspec catch_all) true
                 (fun locals h => (Ret (local "c" locals), h))
                 _ _ world1 _ _ [] [] "c"
                 [VInt 1; VInt 2; VInt 3] []
                 {| w_heap := []; w_next := 3; w_preserver_attr := [];
                    w_preserver_lists := [] |}
                 eq_refl eq_refl eq_refl eq_refl eq_refl)
              (VNamed "Args" [("a", VInt 1); ("c", VTuple [VInt 2; VInt 3])])
              "Args" [("a", VInt 1); ("c", VTuple [VInt 2; VInt 3])]
              []
              {| w_heap := []; w_next := 3; w_preserver_attr := [];
                 w_preserver_lists := [] |}
              [EvPredicate Pre "anything"
                 [VNamed "Args"
                    [("a", VInt 1); ("c", VTuple [VInt 2; VInt 3])]];
               EvPreserver
                 (VNamed "Args"
                    [("a", VInt 1); ("c", VTuple [VInt 2; VInt 3])])
                 (Ret [])]
              eq_refl eq_refl eq_refl _).
    simpl. do 6 eexists. repeat split; reflexivity.
Defined.

(** A postcondition layer with a clean-up action that fails: the text of
    its exception goes after the description. *)
Example clean_up_failure_is_appended :
  exists g w,
    condition (postcondition_of "result positive" result_positive
                 (Some failing_clean_up)) add2 world1
      = (Ret g, w, []) /\
    call g [VInt (-1); VInt (-2)] [] w
    = (Raise (PostconditionError
                "result positive. Clean up failed: disk full" (VInt 0)),
       w,
       [EvPreserver (VNamed "Args" [("i", VInt (-1)); ("j", VInt (-2))])
                    (Ret []);
        EvBody 0 [("i", VInt (-1)); ("j", VInt (-2))];
        EvPredicate Post "result positive"
          [VNamed "Args" [("i", VInt (-1)); ("j", VInt (-2))]; VInt (-3)];
        EvCleanUp [VInt (-1); VInt (-2)] []]).
Proof.
  eexists. eexists. split; [reflexivity|].
  exact (postcondition_failure_after_clean_up
           (postcondition_of "result positive" result_positive
              (Some failing_clean_up))
           failing_clean_up add2 _ world1 _ []
           [VInt (-1); VInt (-2)] [] world2 world2 world2
           (VNamed "Args" [("i", VInt (-1)); ("j", VInt (-2))]) []
           _ _ (VInt (-3))
           [VNamed "Args" [("i", VInt (-1)); ("j", VInt (-2))]; VInt (-3)]
           [] eq_refl eq_refl eq_refl eq_refl eq_refl eq_refl eq_refl).
Qed.

(** The snapshot in the order of the documentation, with
    [preserve] above the contracts: the broken [increment] is found out. *)
Example snapshot_of_the_documentation :
  exists g1 g2 g3 w1 w2 w3,
    condition counter_incremented increment world1 = (Ret g1, w1, []) /\
    condition value_positive g1 w1 = (Ret g2, w2, []) /\
    preserve old_value g2 w2 = (Ret g3, w3, []) /\
    call g1 [VRef 0; VInt 9] [] (set_heap [counter 100] w3)
    = (Raise (PostconditionError "counter is incremented by value" (VInt 0)),
       set_heap [counter 111] w3,
       [EvPreserver (VNamed "Args" [("self", VRef 0); ("value", VInt 9)])
                    (Ret [("old_value", VInt 100)]);
        EvBody 0 [("self", VRef 0); ("value", VInt 9)];
        EvPredicate Post "counter is incremented by value"
          [VNamed "Args" [("self", VRef 0); ("value", VInt 9)]; VNone;
           VNamed "Args" [("old_value", VInt 100)]]]) /\
    exists d,
      fst (fst (call g1 [VRef 0; VInt 9] [] (set_heap [counter 100] w3)))
      = Raise (PostconditionError d (VInt 0)).
Proof.
  do 6 eexists.
  split; [reflexivity|]. split; [reflexivity|]. split; [reflexivity|].
  split; [reflexivity|].
  destruct (snapshot_reaches_postcondition (host := example_host)
              counter_incremented increment _ world1 _ []
              [VRef 0; VInt 9] []
              (VNamed "Args" [("self", VRef 0); ("value", VInt 9)])
              (set_heap [counter 100]
                 {| w_heap := []; w_next := 4; w_preserver_attr := [(0, 0)];
                    w_preserver_lists := [[old_value]] |})
              [old_value] [("old_value", VInt 100)] _ _
              (VNamed "Args" [("old_value", VInt 100)]) VNone
              _ _ _ _
              eq_refl eq_refl eq_refl eq_refl eq_refl eq_refl eq_refl
              eq_refl)
    as (_ & o & w' & t3 & Hcall & _ & Hfalse).
  destruct (Hfalse eq_refl) as (d & Hd).
  exists d.
  exact (eq_trans (f_equal (fun x => fst (fst x)) Hcall) Hd).
Qed.

(** ** More of the engine, at concrete inputs *)

Lemma build_call_named_arguments_witness :
  exists fields,
    VNamed "Args" [("i", VInt 1); ("j", VInt 2); ("extra", VInt 3)]
    = VNamed "Args" fields /\
    dict_get "extra" fields = Some (VInt 3).
Proof.
  apply (build_call_named_arguments
           add2 [VInt 1] [("j", VInt 2); ("extra", VInt 3)] "extra" (VInt 3)).
  - distinct_names.
  - reflexivity.
  - reflexivity.
Defined.

Lemma build_call_catch_all_witness :
  exists fields,
    VNamed "Args" [("a", VInt 1); ("c", VTuple [VInt 2; VInt 3])]
    = VNamed "Args" fields /\
    dict_get "c" fields = Some (VTuple [VInt 2; VInt 3]).
Proof.
  apply (build_call_catch_all catch_all [VInt 1; VInt 2; VInt 3] [] "c");
    reflexivity.
Defined.

Lemma build_call_surplus_positional_witness :
  build_call add2 [VInt 1; VInt 2; VInt 3] []
  = Ret (VNamed "Args" [("i", VInt 1); ("j", VInt 2)]).
Proof.
  exact (build_call_surplus_positional add2 [VInt 1; VInt 2] [VInt 3] []
           eq_refl (le_n 2)).
Defined.

Lemma build_call_field_order_witness :
  exists extra, ["a"; "b"; "c"; "z"] = (["a"; "b"] ++ extra)%list.
Proof.
  apply (build_call_field_order conventions [VInt 1] [("z", VInt 0)]
           [("a", VInt 1); ("b", VStr "Foo"); ("c", VTuple []);
            ("z", VInt 0)]).
  - distinct_names.
  - reflexivity.
Defined.

Lemma build_call_default_witness :
  exists fields,
    VNamed "Args" [("a", VInt 1); ("b", VStr "Foo"); ("c", VTuple [])]
    = VNamed "Args" fields /\
    dict_get "b" fields = Some (VStr "Foo").
Proof.
  apply (build_call_default conventions [VInt 1] [] ["a"] ["b"] 0 "b"
           (VStr "Foo")).
  - reflexivity.
  - reflexivity.
  - distinct_names.
  - discriminate.
  - reflexivity.
  - reflexivity.
  - simpl. lia.
  - reflexivity.
  - reflexivity.
Defined.

Lemma build_call_of_record_witness :
  build_call add2 [] [("i", VInt 5); ("j", VInt 6)]
  = Ret (VNamed "Args" [("i", VInt 5); ("j", VInt 6)])
  /\ build_call parameter_func [] [("a", VInt 5); ("func", VInt 6)]
     = Raise (TypeError
                "build_call() got multiple values for argument 'func'").
Proof.
  split.
  - exact (build_call_of_record add2 [VInt 1; VInt 2] []
             [("i", VInt 1); ("j", VInt 2)] [("i", VInt 5); ("j", VInt 6)]
             eq_refl eq_refl).
  - exact (build_call_of_record parameter_func [VInt 1; VInt 2] []
             [("a", VInt 1); ("func", VInt 2)]
             [("a", VInt 5); ("func", VInt 6)]
             eq_refl eq_refl).
Defined.

Lemma holding_contract_is_transparent_witness :
  exists g w,
    condition (postcondition_of "result positive" result_positive None)
              add2 world1
      = (Ret g, w, []) /\
    call g [VInt 1; VInt 2] [] w
    = (Ret (VInt 3), w,
       [EvPreserver (VNamed "Args" [("i", VInt 1); ("j", VInt 2)]) (Ret []);
        EvBody 0 [("i", VInt 1); ("j", VInt 2)];
        EvPredicate Post "result positive"
          [VNamed "Args" [("i", VInt 1); ("j", VInt 2)]; VInt 3]]).
Proof.
  eexists. eexists. split; [reflexivity|].
  exact (holding_contract_is_transparent
           (postcondition_of "result positive" result_positive None)
           add2 _ world1 _ [] [VInt 1; VInt 2] []
           (VNamed "Args" [("i", VInt 1); ("j", VInt 2)]) world2
           [] [EvPreserver (VNamed "Args" [("i", VInt 1); ("j", VInt 2)])
                 (Ret [])]
           (VInt 3) world2 _
           [VNamed "Args" [("i", VInt 1); ("j", VInt 2)]; VInt 3]
           eq_refl (or_intror eq_refl) eq_refl eq_refl eq_refl
           eq_refl eq_refl eq_refl).
Defined.

Lemma wrapped_exception_passes_through_witness :
  exists g w,
    condition (postcondition_of "result positive" result_positive
                 (Some failing_clean_up)) add2 world1
      = (Ret g, w, []) /\
    call g [VStr "a"; VInt 1] [] w
    = (Raise (TypeError "unsupported operand type(s) for +"), w,
       [EvPreserver (VNamed "Args" [("i", VStr "a"); ("j", VInt 1)])
                    (Ret []);
        EvBody 0 [("i", VStr "a"); ("j", VInt 1)]]).
Proof.
  eexists. eexists. split; [reflexivity|].
  exact (wrapped_exception_passes_through
           (postcondition_of "result positive" result_positive
              (Some failing_clean_up))
           add2 _ world1 _ [] [VStr "a"; VInt 1] []
           (VNamed "Args" [("i", VStr "a"); ("j", VInt 1)]) world2
           [] [] world2
           [EvPreserver (VNamed "Args" [("i", VStr "a"); ("j", VInt 1)])
              (Ret [])]
           _ world2 _
           eq_refl eq_refl eq_refl eq_refl eq_refl).
Defined.

Lemma precondition_predicate_exception_witness :
  exists g w,
    condition (precondition_of "value > 0" value_field_positive (VInt 0))
              add2 world1
      = (Ret g, w, []) /\
    call g [VInt 1; VInt 2] [] w
    = (Raise (AttributeError "value"), w,
       [EvPredicate Pre "value > 0"
          [VNamed "Args" [("i", VInt 1); ("j", VInt 2)]]]).
Proof.
  eexists. eexists. split; [reflexivity|].
  exact (precondition_predicate_exception
           (precondition_of "value > 0" value_field_positive (VInt 0))
           add2 _ world1 _ [] [VInt 1; VInt 2] []
           (VNamed "Args" [("i", VInt 1); ("j", VInt 2)]) world2 _ []
           eq_refl eq_refl eq_refl eq_refl).
Defined.

Lemma postcondition_predicate_exception_witness :
  exists g w,
    condition (postcondition_of "counter is incremented by value"
                 incremented_by_value (Some failing_clean_up)) add2 world1
      = (Ret g, w, []) /\
    call g [VInt 1; VInt 2] [] w
    = (Raise (AttributeError "old_value"), w,
       [EvPreserver (VNamed "Args" [("i", VInt 1); ("j", VInt 2)]) (Ret []);
        EvBody 0 [("i", VInt 1); ("j", VInt 2)];
        EvPredicate Post "counter is incremented by value"
          [VNamed "Args" [("i", VInt 1); ("j", VInt 2)]; VInt 3;
           VNamed "Args" []]]).
Proof.
  eexists. eexists. split; [reflexivity|].
  exact (postcondition_predicate_exception
           (postcondition_of "counter is incremented by value"
              incremented_by_value (Some failing_clean_up))
           add2 _ world1 _ [] [VInt 1; VInt 2] []
           (VNamed "Args" [("i", VInt 1); ("j", VInt 2)]) world2
           [] [] world2
           [EvPreserver (VNamed "Args" [("i", VInt 1); ("j", VInt 2)])
              (Ret [])]
           (VInt 3) world2 _
           [VNamed "Args" [("i", VInt 1); ("j", VInt 2)]; VInt 3;
            VNamed "Args" []] _ []
           eq_refl (or_intror eq_refl) eq_refl eq_refl eq_refl
           eq_refl eq_refl eq_refl).
Defined.

Lemma preserver_exception_stops_the_call_witness :
  exists g w,
    condition (precondition_of "i positive" i_positive (VInt 0)) add2 world1
      = (Ret g, w, []) /\
    call g [VInt 1; VInt 2] []
         (world_with [old_i; failing_preserver; old_j])
    = (Raise (AttributeError "value"),
       world_with [old_i; failing_preserver; old_j],
       [EvPredicate Pre "i positive"
          [VNamed "Args" [("i", VInt 1); ("j", VInt 2)]];
        EvPreserver (VNamed "Args" [("i", VInt 1); ("j", VInt 2)])
                    (Ret [("old", VInt 1)]);
        EvPreserver (VNamed "Args" [("i", VInt 1); ("j", VInt 2)])
                    (Raise (AttributeError "value"))]).
Proof.
  eexists. eexists. split; [reflexivity|].
  exact (preserver_exception_stops_the_call
           (precondition_of "i positive" i_positive (VInt 0))
           add2 _ world1 _ [] [VInt 1; VInt 2] []
           (VNamed "Args" [("i", VInt 1); ("j", VInt 2)])
           (world_with [old_i; failing_preserver; old_j]) []
           [old_i] [old_j] failing_preserver
           [("old", VInt 1)] (world_with [old_i; failing_preserver; old_j])
           [EvPreserver (VNamed "Args" [("i", VInt 1); ("j", VInt 2)])
              (Ret [("old", VInt 1)])]
           _ []
           eq_refl eq_refl eq_refl eq_refl eq_refl eq_refl).
Defined.

Lemma later_preserver_wins_witness :
  exists snapshot,
    run_preservers [old_i; old_j; private_name]
      (VNamed "Args" [("i", VInt 1); ("j", VInt 2)]) [] world2
    = (Ret snapshot, world2,
       [EvPreserver (VNamed "Args" [("i", VInt 1); ("j", VInt 2)])
                    (Ret [("old", VInt 1)]);
        EvPreserver (VNamed "Args" [("i", VInt 1); ("j", VInt 2)])
                    (Ret [("old", VInt 2)]);
        EvPreserver (VNamed "Args" [("i", VInt 1); ("j", VInt 2)])
                    (Ret [("_old", VInt 1)])])
    /\ dict_get "old" snapshot = Some (VInt 2).
Proof.
  apply (later_preserver_wins [old_i] [private_name] old_j
           (VNamed "Args" [("i", VInt 1); ("j", VInt 2)]) world2
           [("old", VInt 1)] world2
           [EvPreserver (VNamed "Args" [("i", VInt 1); ("j", VInt 2)])
              (Ret [("old", VInt 1)])]
           [("old", VInt 2)] [] "old" (VInt 2)
           [("_old", VInt 1)] world2
           [EvPreserver (VNamed "Args" [("i", VInt 1); ("j", VInt 2)])
              (Ret [("_old", VInt 1)])]).
  - reflexivity.
  - reflexivity.
  - distinct_names.
  - reflexivity.
  - reflexivity.
  - repeat constructor.
Defined.

Lemma snapshot_without_preservers_witness :
  exists g w,
    condition (postcondition_of "anything" any_snapshot None) add2 world1
      = (Ret g, w, []) /\
    call g [VInt 1; VInt 2] [] w
    = (Ret (VInt 3), w,
       [EvPreserver (VNamed "Args" [("i", VInt 1); ("j", VInt 2)]) (Ret []);
        EvBody 0 [("i", VInt 1); ("j", VInt 2)];
        EvPredicate Post "anything"
          [VNamed "Args" [("i", VInt 1); ("j", VInt 2)]; VInt 3;
           VNamed "Args" []]]).
Proof.
  eexists. eexists. split; [reflexivity|].
  exact (snapshot_without_preservers
           (postcondition_of "anything" any_snapshot None)
           add2 _ world1 _ [] [VInt 1; VInt 2] []
           (VNamed "Args" [("i", VInt 1); ("j", VInt 2)]) world2
           (VInt 3) world2 _ []
           eq_refl eq_refl eq_refl eq_refl eq_refl eq_refl).
Defined.

Lemma snapshot_name_with_underscore_witness :
  exists g w,
    condition (postcondition_of "anything" any_snapshot None) add2 world1
      = (Ret g, w, []) /\
    exists msg,
      call g [VInt 1; VInt 2] [] (world_with [private_name])
      = (Raise (ValueError msg), world_with [private_name],
         [EvPreserver (VNamed "Args" [("i", VInt 1); ("j", VInt 2)])
                      (Ret [("_old", VInt 1)]);
          EvBody 0 [("i", VInt 1); ("j", VInt 2)]]).
Proof.
  eexists. eexists. split; [reflexivity|].
  exact (snapshot_name_with_underscore
           (postcondition_of "anything" any_snapshot None)
           add2 _ world1 _ [] [VInt 1; VInt 2] []
           (VNamed "Args" [("i", VInt 1); ("j", VInt 2)])
           (world_with [private_name])
           [("_old", VInt 1)] (world_with [private_name])
           [EvPreserver (VNamed "Args" [("i", VInt 1); ("j", VInt 2)])
              (Ret [("_old", VInt 1)])]
           (VInt 3) (world_with [private_name]) _ "_old"
           eq_refl eq_refl eq_refl eq_refl eq_refl
           (or_introl eq_refl) eq_refl).
Defined.

Lemma holding_stack_is_transparent_witness :
  exists g w,
    stack [precondition_of "i positive" i_positive (VInt 1);
           postcondition_of "result positive" result_positive None;
           precondition_of "j positive" j_positive (VInt 2)]
          add2 world1
      = (Ret g, w, []) /\
    call g [VInt 1; VInt 2] [] w
    = (Ret (VInt 3), w,
       [EvPredicate Pre "i positive"
          [VNamed "Args" [("i", VInt 1); ("j", VInt 2)]];
        EvPreserver (VNamed "Args" [("i", VInt 1); ("j", VInt 2)]) (Ret []);
        EvPreserver (VNamed "Args" [("i", VInt 1); ("j", VInt 2)]) (Ret []);
        EvPredicate Pre "j positive"
          [VNamed "Args" [("i", VInt 1); ("j", VInt 2)]];
        EvPreserver (VNamed "Args" [("i", VInt 1); ("j", VInt 2)]) (Ret []);
        EvBody 0 [("i", VInt 1); ("j", VInt 2)];
        EvPredicate Post "result positive"
          [VNamed "Args" [("i", VInt 1); ("j", VInt 2)]; VInt 3]]).
Proof.
  eexists. eexists. split; [reflexivity|].
  eapply (holding_stack_is_transparent
            [precondition_of "i positive" i_positive (VInt 1);
             postcondition_of "result positive" result_positive None;
             precondition_of "j positive" j_positive (VInt 2)]
            add2 _ world1 _ [] [VInt 1; VInt 2] []
            (VNamed "Args" [("i", VInt 1); ("j", VInt 2)])
            {| w_heap := []; w_next := 4; w_preserver_attr := [];
               w_preserver_lists := [] |}
            [] [EvPreserver (VNamed "Args" [("i", VInt 1); ("j", VInt 2)])
                  (Ret [])]
            (VInt 3)
            {| w_heap := []; w_next := 4; w_preserver_attr := [];
               w_preserver_lists := [] |}
            [EvBody 0 [("i", VInt 1); ("j", VInt 2)]]).
  - reflexivity.
  - reflexivity.
  - reflexivity.
  - reflexivity.
  - repeat apply Forall_cons; try apply Forall_nil;
      (split; [reflexivity|]); (split; [reflexivity|]);
      intros [H|H]; try discriminate H;
      eexists; split; reflexivity.
Defined.

Lemma ensure_violation_has_errno_zero_witness :
  exists g w,
    ensure (EStr "result positive") (EFun result_positive_fn) ENone ENone
           add2 world1
      = (Ret g, w, []) /\
    call g [VInt (-1); VInt (-2)] [] w
    = (Raise (PostconditionError "result positive" (VInt 0)), w,
       [EvPreserver (VNamed "Args" [("i", VInt (-1)); ("j", VInt (-2))])
                    (Ret []);
        EvBody 0 [("i", VInt (-1)); ("j", VInt (-2))];
        EvPredicate Post "result positive"
          [VNamed "Args" [("i", VInt (-1)); ("j", VInt (-2))]; VInt (-3)]]).
Proof.
  eexists. eexists. split; [reflexivity|].
  exact (ensure_violation_has_errno_zero
           "result positive" result_positive_fn
           add2 _ world1 _ [] [VInt (-1); VInt (-2)] []
           (VNamed "Args" [("i", VInt (-1)); ("j", VInt (-2))]) world2
           [] world2
           [EvPreserver (VNamed "Args" [("i", VInt (-1)); ("j", VInt (-2))])
              (Ret [])]
           (VInt (-3)) world2 _
           [VNamed "Args" [("i", VInt (-1)); ("j", VInt (-2))]; VInt (-3)]
           []
           eq_refl eq_refl eq_refl eq_refl eq_refl eq_refl).
Defined.

Lemma ensure_violation_runs_clean_up_witness :
  exists g w,
    ensure (EStr "result positive") (EFun result_positive_fn) (EInt 7)
           (EFun leave_note_fn) add2 world1
      = (Ret g, w, []) /\
    call g [VInt (-1); VInt (-2)] [] w
    = (Raise (PostconditionError "result positive" (VInt 7)),
       set_heap [VStr "cleaned up"] w,
       [EvPreserver (VNamed "Args" [("i", VInt (-1)); ("j", VInt (-2))])
                    (Ret []);
        EvBody 0 [("i", VInt (-1)); ("j", VInt (-2))];
        EvPredicate Post "result positive"
          [VNamed "Args" [("i", VInt (-1)); ("j", VInt (-2))]; VInt (-3)];
        EvCleanUp [VInt (-1); VInt (-2)] []]).
Proof.
  eexists. eexists. split; [reflexivity|].
  exact (ensure_violation_runs_clean_up
           "result positive" result_positive_fn leave_note_fn 7
           add2 _ world1 _ [] [VInt (-1); VInt (-2)] []
           (VNamed "Args" [("i", VInt (-1)); ("j", VInt (-2))]) world2
           [] world2
           [EvPreserver (VNamed "Args" [("i", VInt (-1)); ("j", VInt (-2))])
              (Ret [])]
           (VInt (-3)) world2 _
           [VNamed "Args" [("i", VInt (-1)); ("j", VInt (-2))]; VInt (-3)]
           []
           eq_refl eq_refl eq_refl eq_refl eq_refl eq_refl).
Defined.

Lemma ensure_clean_up_without_errno_never_runs_witness :
  exists g w,
    ensure (EStr "result positive") (EFun result_positive_fn)
           (EFun leave_note_fn) ENone add2 world1
      = (Ret g, w, []) /\
    call g [VInt (-1); VInt (-2)] [] w
    = (Raise (PostconditionError "result positive" (VRef 11)), w,
       [EvPreserver (VNamed "Args" [("i", VInt (-1)); ("j", VInt (-2))])
                    (Ret []);
        EvBody 0 [("i", VInt (-1)); ("j", VInt (-2))];
        EvPredicate Post "result positive"
          [VNamed "Args" [("i", VInt (-1)); ("j", VInt (-2))]; VInt (-3)]]).
Proof.
  eexists. eexists. split; [reflexivity|].
  exact (ensure_clean_up_without_errno_never_runs
           "result positive" result_positive_fn leave_note_fn
           add2 _ world1 _ [] [VInt (-1); VInt (-2)] []
           (VNamed "Args" [("i", VInt (-1)); ("j", VInt (-2))]) world2
           [] world2
           [EvPreserver (VNamed "Args" [("i", VInt (-1)); ("j", VInt (-2))])
              (Ret [])]
           (VInt (-3)) world2 _
           [VNamed "Args" [("i", VInt (-1)); ("j", VInt (-2))]; VInt (-3)]
           []
           eq_refl eq_refl eq_refl eq_refl eq_refl eq_refl).
Defined.

Lemma build_call_through_wrapper_witness :
  exists g w,
    preserve old_value increment world1 = (Ret g, w, []) /\
    build_call g [VRef 0; VInt 10] []
    = Ret (VNamed "Args" [("args", VTuple [VRef 0; VInt 10])]) /\
    build_call g [VRef 0; VInt 10] [("func", VInt 1)]
    = Raise (TypeError
               "build_call() got multiple values for argument 'func'").
Proof.
  eexists. eexists. split; [reflexivity|]. split.
  - exact (build_call_through_wrapper old_value identity increment _
             world1 _ [] [VRef 0; VInt 10] [] (or_introl eq_refl)).
  - exact (build_call_through_wrapper old_value identity increment _
             world1 _ [] [VRef 0; VInt 10] [("func", VInt 1)]
             (or_introl eq_refl)).
Defined.

Lemma preservers_above_a_contract_accumulate_witness :
  exists g2 w2 g1 w1,
    preserve old_value increment_ensured world2 = (Ret g2, w2, []) /\
    preserve old_i g2 w2 = (Ret g1, w1, []) /\
    contract_preserver increment w1 = Some [old_value; old_i] /\
    forall args kwargs,
      call g1 args kwargs = call increment_ensured args kwargs.
Proof.
  do 4 eexists. split; [reflexivity|]. split; [reflexivity|].
  refine (preservers_above_a_contract_accumulate
            old_i old_value increment_ensured increment _ _
            world2 _ _ [] [] eq_refl eq_refl eq_refl _ _).
  - intros k l H. discriminate H.
  - simpl. lia.
Defined.

Lemma transform_feeds_the_contract_below_witness :
  exists f w1 g w2,
    condition (precondition_of "i positive" i_positive (VInt 0)) add2 world1
      = (Ret f, w1, []) /\
    transform i_from_j f w1 = (Ret g, w2, []) /\
    call g [VInt 5; VInt (-1)] [] w2
    = (Raise (PreconditionError "i positive" (VInt 0)), w2,
       [EvTransformer (VNamed "Args" [("i", VInt 5); ("j", VInt (-1))]);
        EvPredicate Pre "i positive"
          [VNamed "Args" [("i", VInt (-1)); ("j", VInt (-1))]]]).
Proof.
  do 4 eexists. split; [reflexivity|]. split; [reflexivity|].
  exact (transform_feeds_the_contract_below
           i_from_j (precondition_of "i positive" i_positive (VInt 0))
           add2 _ _ world1 _ _ [] [] [VInt 5; VInt (-1)] []
           [("i", VInt 5); ("j", VInt (-1))]
           [("i", VInt (-1)); ("j", VInt (-1))] "Args"
           {| w_heap := []; w_next := 3; w_preserver_attr := [];
              w_preserver_lists := [] |} [] []
           eq_refl eq_refl eq_refl eq_refl eq_refl eq_refl eq_refl eq_refl
           eq_refl).
Defined.

Lemma rewrite_replaces_fields_witness :
  exists fields',
    rewrite (fun _ => ValueError "Got unexpected field names")
            (VNamed "Args" [("i", VInt 1); ("j", VInt 2)]) [("j", VInt 5)]
    = Ret (VNamed "Args" fields') /\
    dict_keys fields' = ["i"; "j"] /\
    forall k old,
      dict_get k [("i", VInt 1); ("j", VInt 2)] = Some old ->
      dict_get k fields'
      = Some (match dict_get k [("j", VInt 5)] with
              | Some x => x
              | None => old
              end).
Proof.
  apply (rewrite_replaces_fields
           (fun _ => ValueError "Got unexpected field names") "Args"
           [("i", VInt 1); ("j", VInt 2)] [("j", VInt 5)]).
  - reflexivity.
  - intros k [<-|[]]. right. left. reflexivity.
Defined.

Lemma rewrite_unknown_field_witness :
  rewrite (fun names => ValueError (String.concat ", " names))
          (VNamed "Args" [("i", VInt 1); ("j", VInt 2)])
          [("k", VInt 5); ("i", VInt 0)]
  = Raise (ValueError "k")
  /\ In "k" ["k"]
  /\ forall n, In n ["k"] <-> In n ["k"; "i"] /\ ~ In n ["i"; "j"].
Proof.
  apply (rewrite_unknown_field
           (fun names => ValueError (String.concat ", " names)) "Args"
           [("i", VInt 1); ("j", VInt 2)] [("k", VInt 5); ("i", VInt 0)] "k").
  - reflexivity.
  - left. reflexivity.
  - intros [H|[H|[]]]; discriminate H.
Defined.

Lemma rewritten_record_normalizes_to_itself_witness :
  (exists fields',
     VNamed "Args" [("i", VInt 5); ("j", VInt 2)] = VNamed "Args" fields' /\
     build_call add2 [] fields'
     = Ret (VNamed "Args" [("i", VInt 5); ("j", VInt 2)])) /\
  (exists fields',
     VNamed "Args" [("a", VInt 5); ("func", VInt 2)]
     = VNamed "Args" fields' /\
     build_call parameter_func [] fields'
     = Raise (TypeError
                "build_call() got multiple values for argument 'func'")).
Proof.
  split.
  - destruct (rewritten_record_normalizes_to_itself (host := example_host)
                (fun _ => ValueError "Got unexpected field names")
                add2 [VInt 1; VInt 2] [] [("i", VInt 5)]
                (VNamed "Args" [("i", VInt 1); ("j", VInt 2)])
                (VNamed "Args" [("i", VInt 5); ("j", VInt 2)])
                eq_refl eq_refl) as (fields' & Heq & Hcall).
    exists fields'. split; [exact Heq|].
    inversion Heq; subst fields'. exact Hcall.
  - destruct (rewritten_record_normalizes_to_itself (host := example_host)
                (fun _ => ValueError "Got unexpected field names")
                parameter_func [VInt 1; VInt 2] [] [("a", VInt 5)]
                (VNamed "Args" [("a", VInt 1); ("func", VInt 2)])
                (VNamed "Args" [("a", VInt 5); ("func", VInt 2)])
                eq_refl eq_refl) as (fields' & Heq & Hcall).
    exists fields'. split; [exact Heq|].
    inversion Heq; subst fields'. exact Hcall.
Defined.

Lemma types_checks_the_fields_witness :
  exists g w,
    types pyclass example_isinstance record_attribute
          [("j", [class_int]); ("i", [class_int; class_str])] add2 world1
      = (Ret g, w, []) /\
    call g [VInt 1; VStr "x"] [] w
    = (Raise (PreconditionError "the types of arguments must be valid"
                                (VInt 0)),
       w,
       [EvPredicate Pre "the types of arguments must be valid"
          [VNamed "Args" [("i", VInt 1); ("j", VStr "x")]]]) /\
    call g [VStr "x"; VInt 1] [] w
    = (Raise (TypeError "unsupported operand type(s) for +"), w,
       [EvPredicate Pre "the types of arguments must be valid"
          [VNamed "Args" [("i", VStr "x"); ("j", VInt 1)]];
        EvPreserver (VNamed "Args" [("i", VStr "x"); ("j", VInt 1)])
                    (Ret []);
        EvBody 0 [("i", VStr "x"); ("j", VInt 1)]]).
Proof.
  eexists. eexists. split; [reflexivity|]. split.
  - refine (types_checks_the_fields pyclass example_isinstance
              record_attribute
              [("j", [class_int]); ("i", [class_int; class_str])]
              add2 _ world1 _ [] [VInt 1; VStr "x"] []
              [("i", VInt 1); ("j", VStr "x")] world2
              [] world2
              [EvPreserver (VNamed "Args" [("i", VInt 1); ("j", VStr "x")])
                 (Ret [])]
              eq_refl eq_refl _ eq_refl).
    intros n [<-|[<-|[]]]; simpl; auto.
  - refine (types_checks_the_fields pyclass example_isinstance
              record_attribute
              [("j", [class_int]); ("i", [class_int; class_str])]
              add2 _ world1 _ [] [VStr "x"; VInt 1] []
              [("i", VStr "x"); ("j", VInt 1)] world2
              [] world2
              [EvPreserver (VNamed "Args" [("i", VStr "x"); ("j", VInt 1)])
                 (Ret [])]
              eq_refl eq_refl _ eq_refl).
    intros n [<-|[<-|[]]]; simpl; auto.
Defined.

Lemma types_missing_argument_witness :
  exists g w,
    types pyclass example_isinstance record_attribute
          [("k", [class_int]); ("i", [class_int])] add2 world1
      = (Ret g, w, []) /\
    exists n,
      In n ["k"; "i"] /\
      getattr_isinstance pyclass example_isinstance record_attribute
        (VNamed "Args" [("i", VInt 1); ("j", VInt 2)]) n [] = None /\
      call g [VInt 1; VInt 2] [] w
      = (Raise (AssertionError ("missing required argument `" ++ n ++ "`")),
         w,
         [EvPredicate Pre "the types of arguments must be valid"
            [VNamed "Args" [("i", VInt 1); ("j", VInt 2)]]]).
Proof.
  eexists. eexists. split; [reflexivity|].
  refine (types_missing_argument pyclass example_isinstance record_attribute
            [("k", [class_int]); ("i", [class_int])]
            add2 _ world1 _ [] [VInt 1; VInt 2] []
            (VNamed "Args" [("i", VInt 1); ("j", VInt 2)]) world2
            eq_refl eq_refl
            (ex_intro _ ("k", [class_int]) (conj (or_introl eq_refl) eq_refl))
            _).
  intros nk is_instance [<-|[<-|[]]] H; simpl in H.
  - discriminate H.
  - inversion H. reflexivity.
Defined.

Lemma invariant_method_without_positional_receiver_witness :
  exists c' w' g,
    invariant "counter >= 0" counter_nonnegative counter_class world4
      = (Ret c', w', []) /\
    nth_error c' 3 = Some ("increment", Callable g false false) /\
    forall kwargs w,
      call g [] kwargs w
      = (Raise (IndexError "tuple index out of range"), w, []).
Proof.
  eexists. eexists.
  destruct (invariant_method_without_positional_receiver
              "counter >= 0" counter_nonnegative counter_class _
              world4 _ [] 3 "increment" increment
              eq_refl eq_refl eq_refl (or_introl eq_refl))
    as (g & Hg & Hcall).
  exists g. split; [reflexivity|]. split; assumption.
Defined.


(** ** The front end [ensure] *)

(** C7.  The code where the claim fails: [ensure] accepts a clean-up action
    without an errno, as [ensure(description, predicate, clean_up)] and as
    [ensure(predicate, clean_up)], and takes the function for the errno: the
    contract it hands to [condition] has no clean-up action.  With
    [ensure("result positive", lambda args, result: result > 0, leave_note)]
    on [add2], the call [add2(-1, -2)] raises [PostconditionError] with the
    function as the errno; the clean-up action was not attempted, and the
    heap is as the function left it.  With an errno given, the same
    clean-up action runs. *)
Theorem ensure_clean_up_in_place_of_errno :
  (forall (h : Host) d p q,
     exists c, @ensure_contract h (EStr d) (EFun p) (EFun q) ENone = Ret c
               /\ clean_up c = None /\ errno c = VRef (fn_ref q)) /\
  (forall (h : Host) p q,
     exists c, @ensure_contract h (EFun p) (EFun q) ENone ENone = Ret c
               /\ clean_up c = None /\ errno c = VRef (fn_ref q)) /\
  (exists g w,
     ensure (EStr "result positive") (EFun result_positive_fn)
            (EFun leave_note_fn) ENone add2 world1
       = (Ret g, w, []) /\
     call g [VInt (-1); VInt (-2)] [] w
     = (Raise (PostconditionError "result positive" (VRef 11)), w,
        [EvPreserver (VNamed "Args" [("i", VInt (-1)); ("j", VInt (-2))])
                     (Ret []);
         EvBody 0 [("i", VInt (-1)); ("j", VInt (-2))];
         EvPredicate Post "result positive"
           [VNamed "Args" [("i", VInt (-1)); ("j", VInt (-2))];
            VInt (-3)]])) /\
  (exists g w,
     ensure (EStr "result positive") (EFun result_positive_fn) (EInt 7)
            (EFun leave_note_fn) add2 world1
       = (Ret g, w, []) /\
     call g [VInt (-1); VInt (-2)] [] w
     = (Raise (PostconditionError "result positive" (VInt 7)),
        set_heap [VStr "cleaned up"] w,
        [EvPreserver (VNamed "Args" [("i", VInt (-1)); ("j", VInt (-2))])
                     (Ret []);
         EvBody 0 [("i", VInt (-1)); ("j", VInt (-2))];
         EvPredicate Post "result positive"
           [VNamed "Args" [("i", VInt (-1)); ("j", VInt (-2))]; VInt (-3)];
         EvCleanUp [VInt (-1); VInt (-2)] []])).
Proof.
  split; [|split; [|split]].
  - intros h d p q. eexists. repeat split; reflexivity.
  - intros h p q. eexists. repeat split; reflexivity.
  - eexists. eexists. split; reflexivity.
  - eexists. eexists. split; reflexivity.
Qed.

(** ** Counterexamples *)

(** C2 as stated fails: with the preconditions "i positive" and "j positive"
    stacked on [add2] and a preserver above them that raises, the call
    [add2(1, -2)] makes the first precondition hold and the second one
    return false; it raises the exception of the preserver, which the
    outermost layer runs before the second layer is entered. *)
Lemma outer_preserver_exception_comes_first :
  exists g w g3 w3,
    stack [precondition_of "i positive" i_positive (VInt 1);
           precondition_of "j positive" j_positive (VInt 2)] add2 world1
      = (Ret g, w, []) /\
    preserve failing_preserver g w = (Ret g3, w3, []) /\
    pred_run i_positive
      [VNamed "Args" [("i", VInt 1); ("j", VInt (-2))]] (w_heap w3)
      = (Ret true, w_heap w3) /\
    pred_run j_positive
      [VNamed "Args" [("i", VInt 1); ("j", VInt (-2))]] (w_heap w3)
      = (Ret false, w_heap w3) /\
    call g3 [VInt 1; VInt (-2)] [] w3
    = (Raise (AttributeError "value"), w3,
       [EvPredicate Pre "i positive"
          [VNamed "Args" [("i", VInt 1); ("j", VInt (-2))]];
        EvPreserver (VNamed "Args" [("i", VInt 1); ("j", VInt (-2))])
                    (Raise (AttributeError "value"))]).
Proof. do 4 eexists. repeat split; reflexivity. Qed.


(** C8 as stated fails, in four ways.  [def add2(_i, j)] returns 3 on
    [(1, 2)]; under a precondition that is always true the same call raises
    [ValueError], because the record of the arguments cannot have the field
    [_i].  [my_func] returns 10 on the generator [iota(5)]; under a
    precondition that is always true and goes through the items, it
    returns 0.  [add2] with a preserver that raises returns 3; under a
    precondition that is always true the call raises the exception of the
    preserver.  [my_func] with a preserver that sums the items returns 10
    on the generator; under a precondition that is always true it
    returns 0. *)
Lemma true_precondition_is_not_transparent :
  (exists g w,
     condition (precondition_of "anything" always_true (VInt 0))
               add2_underscore world1
       = (Ret g, w, []) /\
     fst (fst (call add2_underscore [VInt 1; VInt 2] [] w)) = Ret (VInt 3) /\
     fst (fst (call g [VInt 1; VInt 2] [] w))
       = Raise (ValueError
                  "Field names cannot start with an underscore: '_i'")) /\
  (exists g w,
     condition (precondition_of "anything" looks_at_every_item (VInt 0))
               my_func world1
       = (Ret g, w, []) /\
     (forall pargs h, fst (pred_run looks_at_every_item pargs h) = Ret true) /\
     fst (fst (call my_func [VRef 0] []
                 (set_heap [generator [VInt 1; VInt 2; VInt 3; VInt 4]] w)))
       = Ret (VInt 10) /\
     fst (fst (call g [VRef 0] []
                 (set_heap [generator [VInt 1; VInt 2; VInt 3; VInt 4]] w)))
       = Ret (VInt 0)) /\
  (exists g w,
     condition (precondition_of "anything" always_true (VInt 0)) add2 world1
       = (Ret g, w, []) /\
     fst (fst (call add2 [VInt 1; VInt 2] [] (world_with [failing_preserver])))
       = Ret (VInt 3) /\
     fst (fst (call g [VInt 1; VInt 2] [] (world_with [failing_preserver])))
       = Raise (AttributeError "value")) /\
  (exists g w,
     condition (precondition_of "anything" always_true (VInt 0))
               my_func world1
       = (Ret g, w, []) /\
     fst (fst (call my_func [VRef 0] []
                 (set_heap [generator [VInt 1; VInt 2; VInt 3; VInt 4]]
                    (world_with [total_of_items]))))
       = Ret (VInt 10) /\
     fst (fst (call g [VRef 0] []
                 (set_heap [generator [VInt 1; VInt 2; VInt 3; VInt 4]]
                    (world_with [total_of_items]))))
       = Ret (VInt 0)).
Proof.
  split; [|split; [|split]]; do 2 eexists;
    (split; [reflexivity|]); repeat split; try reflexivity.
  intros pargs h. simpl.
  destruct pargs as [|rargs [|x r]]; try reflexivity.
  destruct (field "l" rargs) as [ | | | | | | |a]; try reflexivity.
  destruct (remaining (nth a h VNone)); reflexivity.
Qed.


(** C10 as stated fails, in four ways.  With [def f(a, *c, **kw)] the
    catch-all for named arguments takes the name [c]; the call returns,
    with [c] empty and the overflow in [kw].  With a transformer that
    returns a record without the field [c], the call of [def f(a, *c)]
    returns.  With a precondition under [transform] that fails, the call
    raises [PreconditionError].  With [def g(_a, *c)] the call raises the
    [ValueError] of the record type. *)
Lemma transform_catch_all_without_type_error :
  (exists g w,
     transform identity catch_both world1 = (Ret g, w, []) /\
     call g [VInt 1; VInt 2; VInt 3] [] w
     = (Ret (VTuple []), w,
        [EvTransformer
           (VNamed "Args" [("a", VInt 1); ("c", VTuple [VInt 2; VInt 3])]);
         EvBody 0 [("a", VInt 1); ("c", VTuple []);
                   ("kw", VDict [("c", VTuple [VInt 2; VInt 3])])]])) /\
  (exists g w,
     transform only_a catch_all world1 = (Ret g, w, []) /\
     call g [VInt 1; VInt 2; VInt 3] [] w
     = (Ret (VTuple []), w,
        [EvTransformer
           (VNamed "Args" [("a", VInt 1); ("c", VTuple [VInt 2; VInt 3])]);
         EvBody 0 [("a", VInt 1); ("c", VTuple [])]])) /\
  (exists f w1 g w,
     condition (precondition_of "a positive" a_positive (VInt 0))
               catch_all world1
       = (Ret f, w1, []) /\
     transform identity f w1 = (Ret g, w, []) /\
     fst (fst (call g [VInt (-1); VInt 2; VInt 3] [] w))
       = Raise (PreconditionError "a positive" (VInt 0))) /\
  (exists g w,
     transform identity catch_all_underscore world1 = (Ret g, w, []) /\
     fst (fst (call g [VInt 1; VInt 2; VInt 3] [] w))
       = Raise (ValueError
                  "Field names cannot start with an underscore: '_a'")).
Proof.
  split; [|split; [|split]].
  - do 2 eexists. split; reflexivity.
  - do 2 eexists. split; reflexivity.
  - do 4 eexists. split; [reflexivity|]. split; reflexivity.
  - do 2 eexists. split; reflexivity.
Qed.

(** C4.  The code where the claim fails: with [preserve] applied to the
    function and the postcondition applied above it, the preserver is
    attached (it is in the list of the function) and never runs.  The wrapper
    that [preserve] returns has no [__contract_wrapped_func__] (the wrapper
    that [condition] returns has one), so the layer resolves its link to that
    wrapper, finds no list there, takes the shape [( *args, **kwargs)] for the
    record, and gives the predicate the empty snapshot. *)
Lemma preserver_under_postcondition_is_not_evaluated :
  exists g1 g2 w1 w2,
    preserve old_value increment world1 = (Ret g1, w1, []) /\
    condition counter_incremented g1 w1 = (Ret g2, w2, []) /\
    contract_preserver increment w2 = Some [old_value] /\
    contract_preserver (get_wrapped_func g1) w2 = None /\
    snd (call g2 [VRef 0; VInt 10] [] (set_heap [counter 100] w2))
    = [EvPreserver (VNamed "Args" [("args", VTuple [VRef 0; VInt 10])])
                   (Ret []);
       EvBody 0 [("self", VRef 0); ("value", VInt 10)];
       EvPredicate Post "counter is incremented by value"
         [VNamed "Args" [("args", VTuple [VRef 0; VInt 10])]; VNone;
          VNamed "Args" []]].
Proof. do 4 eexists. repeat split; reflexivity. Qed.

(** ** The documentation *)

(** "All of the various calling conventions of Python are supported." *)
Example calling_conventions :
  build_call conventions
    [VInt 1; VStr "foo"; VBool true; VBool true; VBool false] []
  = Ret (VNamed "Args"
           [("a", VInt 1); ("b", VStr "foo");
            ("c", VTuple [VBool true; VBool true; VBool false])]) /\
  build_call conventions [] [("b", VStr "Foo"); ("a", VInt 7)]
  = Ret (VNamed "Args" [("a", VInt 7); ("b", VStr "Foo"); ("c", VTuple [])]) /\
  build_call conventions [VInt 10] []
  = Ret (VNamed "Args" [("a", VInt 10); ("b", VStr "Foo"); ("c", VTuple [])]).
Proof. repeat split; reflexivity. Qed.

(** "Preserving Old Values": [preserve] above [require] above [ensure]. *)
Example counter_increment :
  exists g1 g2 g3 w1 w2 w3,
    condition counter_incremented increment world1 = (Ret g1, w1, []) /\
    condition value_positive g1 w1 = (Ret g2, w2, []) /\
    preserve old_value g2 w2 = (Ret g3, w3, []) /\
    contract_preserver increment w3 = Some [old_value] /\
    fst (call g3 [VRef 0; VInt 10] [] (set_heap [counter 100] w3))
      = (Ret VNone, set_heap [counter 110] w3) /\
    fst (call g3 [VRef 0; VInt 9] [] (set_heap [counter 100] w3))
      = (Raise (PostconditionError "counter is incremented by value"
                                   (VInt 0)),
         set_heap [counter 111] w3).
Proof. do 6 eexists. repeat split; reflexivity. Qed.

(** "Contracts on Classes": [Counter(10).increment(-100)] and a negative
    initial value. *)
Example counter_invariant :
  exists c' w' init inc,
    invariant "counter >= 0" counter_nonnegative counter_class world4
      = (Ret c', w', []) /\
    dict_get "__init__" c' = Some (Callable init false false) /\
    dict_get "increment" c' = Some (Callable inc false false) /\
    dict_get "__repr__" c' = Some (Callable counter_repr false false) /\
    dict_get "make" c' = Some (Callable counter_make true true) /\
    fst (fst (call inc [VRef 0; VInt (-100)] [] w'))
      = Raise (PostconditionError "counter >= 0" (VInt 0)) /\
    snd (call init [VRef 0; VInt (-5)] [] w')
      = [EvPreserver (VRef 0) (Ret []);
         EvBody 1 [("self", VRef 0); ("value", VInt (-5))];
         EvPredicate Post "counter >= 0" [VRef 0]].
Proof. do 4 eexists. repeat split; reflexivity. Qed.

(** "Transforming Data in Contracts": the contract that goes through a
    generator leaves nothing of it to the function; [transform] above it
    makes a tuple of the items first. *)
Example generator_consumed_by_the_contract :
  exists g w g' w',
    condition (precondition_of "every item in `l` must be > 0"
                 every_item_positive (VInt 0)) my_func world1
      = (Ret g, w, []) /\
    transform listed g w = (Ret g', w', []) /\
    fst (fst (call g [VTuple [VInt 1; VInt 2; VInt 3]] [] w'))
      = Ret (VInt 6) /\
    fst (fst (call g [VTuple [VInt 0; VInt (-1); VInt 2]] [] w'))
      = Raise (PreconditionError "every item in `l` must be > 0" (VInt 0)) /\
    fst (fst (call my_func [VRef 0] []
                (set_heap [generator [VInt 1; VInt 2; VInt 3; VInt 4]] w')))
      = Ret (VInt 10) /\
    fst (fst (call g [VRef 0] []
                (set_heap [generator [VInt 1; VInt 2; VInt 3; VInt 4]] w')))
      = Ret (VInt 0) /\
    fst (fst (call g' [VRef 0] []
                (set_heap [generator [VInt 1; VInt 2; VInt 3; VInt 4]] w')))
      = Ret (VInt 10).
Proof. do 4 eexists. repeat split; reflexivity. Qed.
